(** * Sales forecast simulator (src/app.py): recursive day-by-day prediction

    A shallow embedding of the helper functions of [src/app.py]
    ([prepare_prediction_data], [update_lags],
    [simulate_recursive_predictions], [apply_discount_to_dataframe],
    [apply_competition_scenario]) and of the "Simulate Sales" branch of
    the script, followed by the properties the specification states
    about them, and by further properties of these functions, of
    [calculate_metrics] and of one turn of the scenario comparison.

    Modelling conventions.
    - A pandas [DataFrame] is an object on a heap of frames: [df.copy()]
      allocates, [df[col] = ...] and [df.loc[i] = ...] update in place.
      A row [Series] and a Python list are plain values: the program
      only ever hands fresh copies of them to [update_lags].
    - A float is an exact rational, an infinity or NaN; rounding and
      signed zeros are not modelled.  Finite results are kept in lowest
      terms ([Qred]) so that equal numbers are equal terms.
    - Python exceptions are the [Raise] outcome of a computation. *)

From Stdlib Require Import QArith Sorted.
From stdpp Require Import gmap strings list fin_maps pretty.

Local Open Scope string_scope.
Local Open Scope list_scope.
Local Open Scope nat_scope.

(** ** Cell values *)

(** A float64 value. *)
Inductive num : Type :=
| Fin (q : Q)
| Inf (neg : bool)
| NaN.

(** One cell of a frame: a number (NaN is also the missing-value
    marker), a timestamp (nanoseconds), or any other object (text). *)
Inductive cell : Type :=
| Float (x : num)
| Time (t : Z)
| Str (s : string).

Definition zero : cell := Float (Fin 0).

Definition num_mul (a b : num) : num :=
  match a, b with
  | NaN, _ | _, NaN => NaN
  | Fin x, Fin y => Fin (Qred (x * y))
  | Inf s, Inf t => Inf (xorb s t)
  | Inf s, Fin y | Fin y, Inf s =>
      match (y ?= 0)%Q with
      | Gt => Inf s
      | Lt => Inf (negb s)
      | Eq => NaN
      end
  end.

Definition num_div (a b : num) : num :=
  match a, b with
  | NaN, _ | _, NaN => NaN
  | Fin x, Fin y =>
      match (y ?= 0)%Q with
      | Eq => match (x ?= 0)%Q with
              | Eq => NaN
              | Gt => Inf false
              | Lt => Inf true
              end
      | _ => Fin (Qred (x / y))
      end
  | Fin _, Inf _ => Fin 0
  | Inf s, Fin y =>
      match (y ?= 0)%Q with
      | Lt => Inf (negb s)
      | _ => Inf s
      end
  | Inf _, Inf _ => NaN
  end.

Definition num_add (a b : num) : num :=
  match a, b with
  | NaN, _ | _, NaN => NaN
  | Fin x, Fin y => Fin (Qred (x + y))
  | Inf s, Fin _ | Fin _, Inf s => Inf s
  | Inf s, Inf t => if Bool.eqb s t then Inf s else NaN
  end.

(** [x > 0] on floats: false on NaN. *)
Definition num_gt0 (x : num) : bool :=
  match x with
  | Fin q => match (q ?= 0)%Q with Gt => true | _ => false end
  | Inf neg => negb neg
  | NaN => false
  end.

(** Python's [max(0, pred)]: keeps [0] unless [pred > 0]. *)
Definition py_max0 (pred : num) : num :=
  if num_gt0 pred then pred else Fin 0.

(** [pd.notna]. *)
Definition notna (c : cell) : bool :=
  match c with
  | Float NaN => false
  | _ => true
  end.

(** [0 <= x], the reading of "non-negative" for a recorded value. *)
Definition nonneg (c : cell) : Prop :=
  match c with
  | Float (Fin q) => (0 <= q)%Q
  | Float (Inf neg) => neg = false
  | _ => False
  end.

(** ** Exceptions and results *)

Inductive exn : Type :=
| KeyError (key : string)
| IndexError
| TypeError
| ValueError
| StopException            (* raised by [st.stop()] *)
| Exception (msg : string) (* anything else *).

Inductive result (A : Type) : Type :=
| Ok (a : A)
| Raise (e : exn).
Arguments Ok {A} a.
Arguments Raise {A} e.

Global Instance result_ret : MRet result := λ A a, Ok a.
Global Instance result_bind : MBind result := λ A B f r,
  match r with
  | Ok a => f a
  | Raise e => Raise e
  end.

(** Sequencing, with the computation before its continuation. *)
Definition bind {T : Type → Type} `{MBind T} {A B} (m : T A) (f : A → T B) : T B :=
  mbind f m.

Declare Scope py_scope.
Notation "x ← y ; z" := (bind y (λ x, z))
  (at level 20, y at level 100, z at level 200, only parsing) : py_scope.
Notation "' x ← y ; z" := (bind y (λ x, z))
  (at level 20, x pattern, y at level 100, z at level 200, only parsing) : py_scope.
Notation "x ;; z" := (bind x (λ _, z))
  (at level 100, z at level 200, only parsing, right associativity) : py_scope.
Local Open Scope py_scope.

Fixpoint traverse {A B} (f : A → result B) (l : list A) : result (list B) :=
  match l with
  | [] => Ok []
  | x :: l' => y ← f x; ys ← traverse f l'; Ok (y :: ys)
  end.

(** ** Numeric columns *)

Definition as_float (c : cell) : result num :=
  match c with
  | Float x => Ok x
  | _ => Raise TypeError
  end.

Definition as_floats (col : list cell) : result (list num) := traverse as_float col.

Definition num_sum (xs : list num) : num := foldl num_add (Fin 0) xs.

Definition num_mean (xs : list num) : num :=
  num_div (num_sum xs) (Fin (inject_Z (Z.of_nat (length xs)))).

(** [np.mean(values)]: NaN propagates; the empty mean is NaN. *)
Definition np_mean (values : list cell) : result num :=
  xs ← as_floats values; Ok (num_mean xs).

(** [series.mean()]: missing values are skipped. *)
Definition series_mean (col : list cell) : result num :=
  np_mean (filter (λ c, notna c = true) col).

(** [series * k] for a Python number [k]. *)
Definition series_mul_scalar (col : list cell) (k : Q) : result (list cell) :=
  xs ← as_floats col; Ok ((λ x, Float (num_mul x (Fin k))) <$> (xs : list num)).

(** [a / b] for two columns of one frame. *)
Definition series_div (a b : list cell) : result (list cell) :=
  xs ← as_floats a; ys ← as_floats b;
  Ok (zip_with (λ x y, Float (num_div x y)) xs ys).

(** ** Frames as values *)

(** A row, or a [Series] taken from one: label to cell. *)
Abbreviation Series := (gmap string cell).

Record DataFrame : Type := mkDF {
  columns : list string;
  rows : list Series
}.

(** Every row carries exactly the frame's columns. *)
Definition wf_frame (f : DataFrame) : Prop :=
  ∀ r, r ∈ rows f → ∀ c, is_Some (r !! c) ↔ c ∈ columns f.

Definition has_column (f : DataFrame) (c : string) : bool :=
  bool_decide (c ∈ columns f).

Definition cell_of (r : Series) (c : string) : cell :=
  default (Float NaN) (r !! c).

(** [df[c]] as a list of values. *)
Definition get_column (f : DataFrame) (c : string) : result (list cell) :=
  if has_column f c then Ok ((λ r, cell_of r c) <$> rows f)
  else Raise (KeyError c).

Definition add_column (cols : list string) (c : string) : list string :=
  if bool_decide (c ∈ cols) then cols else cols ++ [c].

(** [df[c] = vs] for a list or column [vs]. *)
Definition set_column (f : DataFrame) (c : string) (vs : list cell)
  : result DataFrame :=
  if bool_decide (length vs = length (rows f)) then
    Ok {| columns := add_column (columns f) c;
          rows := zip_with (λ r v, <[c := v]> r) (rows f) vs |}
  else Raise ValueError.

(** [df[c] = v] for a scalar [v]. *)
Definition set_column_scalar (f : DataFrame) (c : string) (v : cell)
  : DataFrame :=
  {| columns := add_column (columns f) c;
     rows := (λ r, <[c := v]> r) <$> rows f |}.

(** [df[cs]] for a list of labels. *)
Definition select_columns (f : DataFrame) (cs : list string)
  : result DataFrame :=
  match find (λ c, negb (has_column f c)) cs with
  | Some c => Raise (KeyError c)
  | None =>
      Ok {| columns := cs;
            rows := (λ r : Series, filter (λ kv, kv.1 ∈ cs) r) <$> rows f |}
  end.

(** [df.iloc[idxs]] for a list of positions. *)
Definition iloc_rows (f : DataFrame) (idxs : list nat) : result DataFrame :=
  rs ← traverse (λ i, match rows f !! i with
                      | Some r => Ok r
                      | None => Raise IndexError
                      end) idxs;
  Ok {| columns := columns f; rows := rs |}.

(** [df.loc[i]] on a frame whose index is [0 .. n-1]. *)
Definition loc_row (f : DataFrame) (i : nat) : result Series :=
  match rows f !! i with
  | Some r => Ok r
  | None => Raise (KeyError (pretty i))
  end.

(** [df.loc[i, c]]. *)
Definition loc_cell (f : DataFrame) (i : nat) (c : string) : result cell :=
  r ← loc_row f i;
  if has_column f c then Ok (cell_of r c) else Raise (KeyError c).

(** Alignment of a [Series] on the frame's columns: labels the frame
    lacks are dropped, columns the series lacks become NaN. *)
Definition reindex (cols : list string) (s : Series) : Series :=
  list_to_map ((λ c, (c, cell_of s c)) <$> cols).

(** [df.loc[i] = s]: the row is replaced by [s] aligned on the columns;
    a label past the end enlarges the frame. *)
Definition set_row (f : DataFrame) (i : nat) (s : Series) : DataFrame :=
  {| columns := columns f;
     rows := if bool_decide (i < length (rows f))
             then <[i := reindex (columns f) s]> (rows f)
             else rows f ++ [reindex (columns f) s] |}.

(** [df[df[c] == p]] for a string [p]. *)
Definition cell_eq_str (p : string) (c : cell) : bool :=
  match c with
  | Str s => bool_decide (s = p)
  | _ => false
  end.

Definition filter_eq (f : DataFrame) (c : string) (p : string)
  : result DataFrame :=
  if has_column f c then
    Ok {| columns := columns f;
          rows := filter (λ r, cell_eq_str p (cell_of r c) = true) (rows f) |}
  else Raise (KeyError c).

(** [df.sort_values(c)] on a datetime column ([pd.to_datetime] made it
    one): ascending, missing dates last, ties in their input order.
    Other contents of the column are reported as [TypeError]. *)
Definition time_key (c : cell) : result (option Z) :=
  match c with
  | Time t => Ok (Some t)
  | Float NaN => Ok None
  | _ => Raise TypeError
  end.

Definition key_leb (a b : option Z) : bool :=
  match a, b with
  | Some x, Some y => bool_decide (x ≤ y)%Z
  | _, None => true
  | None, Some _ => false
  end.

Fixpoint insert_by_key (x : option Z * Series) (l : list (option Z * Series))
  : list (option Z * Series) :=
  match l with
  | [] => [x]
  | y :: l' => if key_leb x.1 y.1 then x :: y :: l' else y :: insert_by_key x l'
  end.

Definition sort_by_key (l : list (option Z * Series)) : list (option Z * Series) :=
  foldr insert_by_key [] l.

Definition sort_values (f : DataFrame) (c : string) : result DataFrame :=
  col ← get_column f c;
  keys ← traverse time_key col;
  Ok {| columns := columns f;
        rows := snd <$> sort_by_key (zip keys (rows f)) |}.

(** ** The program state: a heap of frames, the page, the session *)

Definition loc := nat.

(** What the script shows on the page. *)
Inductive message : Type :=
| PredictionErrorAtDay (day : nat) (e : exn)   (* "Prediction error at day {idx+1}: {e}" *)
| NoDataFoundForProduct (product : string).    (* "No data found for product: {selected_product}" *)

Inductive event : Type :=
| StWarning (m : message)
| StError (m : message).

(** The three competitor scenarios of the sidebar radio. *)
Inductive scenario_option : Type :=
| Actual
| CompetitorsMinus5
| CompetitorsPlus5.

Definition scenario_adjustment_of (o : scenario_option) : Q :=
  match o with
  | Actual => 0
  | CompetitorsMinus5 => -5
  | CompetitorsPlus5 => 5
  end.

Record session_state : Type := mkSession {
  ss_df_sim : loc;
  ss_selected_product : string;
  ss_discount : Z;
  ss_scenario : scenario_option
}.

Record world : Type := mkWorld {
  heap : list DataFrame;
  page : list event;
  session : option session_state
}.

Definition with_heap (w : world) (h : list DataFrame) : world :=
  {| heap := h; page := page w; session := session w |}.

(** Computations that read and write the state and may raise. *)
Definition M (A : Type) : Type := world → result A * world.

Global Instance M_ret : MRet M := λ A a w, (Ok a, w).
Global Instance M_bind : MBind M := λ A B f m w,
  match m w with
  | (Ok a, w') => f a w'
  | (Raise e, w') => (Raise e, w')
  end.

Definition lift {A} (r : result A) : M A := λ w, (r, w).

Definition new_frame (f : DataFrame) : M loc :=
  λ w, (Ok (length (heap w)), with_heap w (heap w ++ [f])).

Definition get_frame (l : loc) : M DataFrame :=
  λ w, match heap w !! l with
       | Some f => (Ok f, w)
       | None => (Raise (Exception "no such object"), w)
       end.

Definition put_frame (l : loc) (f : DataFrame) : M unit :=
  λ w, (Ok (), with_heap w (<[l := f]> (heap w))).

Definition st_warning (m : message) : M unit :=
  λ w, (Ok (), {| heap := heap w; page := page w ++ [StWarning m]; session := session w |}).

Definition st_error (m : message) : M unit :=
  λ w, (Ok (), {| heap := heap w; page := page w ++ [StError m]; session := session w |}).

Definition st_stop : M unit := lift (Raise StopException).

Definition set_session (s : session_state) : M unit :=
  λ w, (Ok (), {| heap := heap w; page := page w; session := Some s |}).

(** [try: body except Exception as e: handler e]. *)
Definition try_except {A} (body : M A) (handler : exn → M A) : M A :=
  λ w, match body w with
       | (Ok a, w') => (Ok a, w')
       | (Raise e, w') => handler e w'
       end.

(** [for x in l: s = body s x], the loop state threaded through. *)
Fixpoint for_fold {A S} (body : S → A → M S) (s : S) (l : list A) : M S :=
  match l with
  | [] => mret s
  | x :: l' => s' ← body s x; for_fold body s' l'
  end.

Definition for_each {A} (body : A → M unit) (l : list A) : M unit :=
  for_fold (λ _ x, body x) () l.

(** ** pandas operations on heap frames *)

Definition df_copy (df : loc) : M loc :=
  f ← get_frame df; new_frame f.

Definition df_len (df : loc) : M nat :=
  f ← get_frame df; mret (length (rows f)).

Definition df_has_column (df : loc) (c : string) : M bool :=
  f ← get_frame df; mret (has_column f c).

Definition df_getitem (df : loc) (c : string) : M (list cell) :=
  f ← get_frame df; lift (get_column f c).

Definition df_setitem (df : loc) (c : string) (vs : list cell) : M unit :=
  f ← get_frame df; f' ← lift (set_column f c vs); put_frame df f'.

Definition df_setitem_scalar (df : loc) (c : string) (v : cell) : M unit :=
  f ← get_frame df; put_frame df (set_column_scalar f c v).

Definition df_select (df : loc) (cs : list string) : M loc :=
  f ← get_frame df; f' ← lift (select_columns f cs); new_frame f'.

Definition df_iloc (df : loc) (idxs : list nat) : M loc :=
  f ← get_frame df; f' ← lift (iloc_rows f idxs); new_frame f'.

Definition df_loc_row (df : loc) (i : nat) : M Series :=
  f ← get_frame df; lift (loc_row f i).

Definition df_loc_cell (df : loc) (i : nat) (c : string) : M cell :=
  f ← get_frame df; lift (loc_cell f i c).

Definition df_loc_set_row (df : loc) (i : nat) (s : Series) : M unit :=
  f ← get_frame df; put_frame df (set_row f i s).

Definition df_filter_eq (df : loc) (c : string) (p : string) : M loc :=
  f ← get_frame df; f' ← lift (filter_eq f c p); new_frame f'.

Definition df_sort_values (df : loc) (c : string) : M loc :=
  f ← get_frame df; f' ← lift (sort_values f c); new_frame f'.

(** [df.reset_index(drop=True)]: a new frame with the index [0 .. n-1],
    which is the only index this model has. *)
Definition df_reset_index (df : loc) : M loc := df_copy df.

(** ** The functions of src/app.py *)

(** The trained model: what [model.predict(X)[0]] gives on the feature
    frame [X], or the exception it raises. *)
Definition Model : Type := DataFrame → result num.

Definition one_hot_prefixes : list string :=
  ["nombre_h_"; "categoria_h_"; "subcategoria_h_"].

(** [col.startswith(prefixes)]. *)
Definition startswith (col : string) (prefixes : list string) : bool :=
  existsb (λ p, String.prefix p col) prefixes.

Definition prepare_prediction_data (df : loc) (feature_cols : list string)
  : M loc :=
  df_pred ← df_copy df;
  for_each (λ col,
      has ← df_has_column df_pred col;
      if negb has then
        if startswith col one_hot_prefixes
        then df_setitem_scalar df_pred col zero
        else df_setitem_scalar df_pred col zero
      else mret ())
    feature_cols;;
  sel ← df_select df_pred feature_cols;
  df_copy sel.

(** f'unidades_vendidas_lag{lag}' *)
Definition lag_col (lag : nat) : string :=
  "unidades_vendidas_lag" +:+ pretty lag.

Definition ma7_col : string := "unidades_vendidas_ma7".

(** One turn of the shift loop of [update_lags]. *)
Definition shift_lag (row : Series) (lag : nat) : Series :=
  match row !! lag_col (lag - 1) with
  | Some v => <[lag_col lag := v]> row
  | None => row
  end.

(** [update_lags(row, previous_pred, lag_history)].  The function
    updates [row] and [lag_history] in place and returns them; its one
    caller passes copies, so the updated values are what is modelled. *)
Definition update_lags (row : Series) (previous_pred : cell)
    (lag_history : list cell) : result (Series * list cell) :=
  let row := foldl shift_lag row [7; 6; 5; 4; 3; 2] in
  let row := <["unidades_vendidas_lag1" := previous_pred]> row in
  let lag_history := lag_history ++ [previous_pred] in
  let lag_history :=
    if bool_decide (7 < length lag_history) then drop 1 lag_history
    else lag_history in
  m ← np_mean lag_history;
  Ok (<[ma7_col := Float m]> row, lag_history).

(** The [except] branch of the prediction. *)
Definition fallback_prediction (df_sim : loc) (idx : nat) : M cell :=
  has ← df_has_column df_sim "unidades_vendidas";
  if has then
    col ← df_getitem df_sim "unidades_vendidas";
    if existsb notna col then
      v ← df_loc_cell df_sim idx "unidades_vendidas";
      if notna v then mret v
      else
        col ← df_getitem df_sim "unidades_vendidas";
        m ← lift (series_mean col);
        mret (Float m)
    else mret zero
  else mret zero.

(** The body of the day loop; the loop state is [(predictions, lag_history)]. *)
Definition simulate_day (df_sim : loc) (model : Model) (feature_cols : list string)
    (st : list cell * list cell) (idx : nat) : M (list cell * list cell) :=
  let '(predictions, lag_history) := st in
  df_row ← (r ← df_iloc df_sim [idx]; df_copy r);
  X ← prepare_prediction_data df_row feature_cols;
  pred ← try_except
           (Xf ← get_frame X;
            pred ← lift (model Xf);
            mret (Float (py_max0 pred)))
           (λ e,
            st_warning (PredictionErrorAtDay (idx + 1) e);;
            fallback_prediction df_sim idx);
  let predictions := predictions ++ [pred] in
  n ← df_len df_sim;
  if bool_decide (idx < n - 1) then
    next_row ← df_loc_row df_sim (idx + 1);
    '(next_row, lag_history) ← lift (update_lags next_row pred lag_history);
    df_loc_set_row df_sim (idx + 1) next_row;;
    mret (predictions, lag_history)
  else mret (predictions, lag_history).

Definition simulate_recursive_predictions (df_product : loc) (model : Model)
    (feature_cols : list string) (discount_pct scenario_adjustment : Q) : M loc :=
  df_sim ← (c ← df_copy df_product;
            s ← df_sort_values c "fecha";
            df_reset_index s);
  n ← df_len df_sim;
  '(predictions, _) ←
    for_fold (simulate_day df_sim model feature_cols) ([], []) (seq 0 n);
  df_setitem df_sim "predicciones" predictions;;
  mret df_sim.

Definition apply_discount_to_dataframe (df : loc) (discount_pct : Q) : M loc :=
  df ← df_copy df;
  has_base ← df_has_column df "precio_base";
  (if has_base then
     base ← df_getitem df "precio_base";
     venta ← lift (series_mul_scalar base (1 - discount_pct / 100));
     df_setitem df "precio_venta" venta;;
     has_desc ← df_has_column df "descuento_porcentaje";
     (if has_desc
      then df_setitem_scalar df "descuento_porcentaje" (Float (Fin discount_pct))
      else mret ());;
     has_comp ← df_has_column df "precio_competencia";
     (if has_comp then
        venta ← df_getitem df "precio_venta";
        comp ← df_getitem df "precio_competencia";
        ratio ← lift (series_div venta comp);
        df_setitem df "ratio_precio" ratio
      else mret ())
   else mret ());;
  mret df.

Definition comp_cols : list string := ["Amazon"; "Decathlon"; "Deporvillage"].

Definition apply_competition_scenario (df : loc) (scenario_adjustment : Q) : M loc :=
  df ← df_copy df;
  if Qeq_bool scenario_adjustment 0 then mret df
  else
    let adjustment_factor := (1 + scenario_adjustment / 100)%Q in
    has_comp ← df_has_column df "precio_competencia";
    (if has_comp then
       comp ← df_getitem df "precio_competencia";
       comp ← lift (series_mul_scalar comp adjustment_factor);
       df_setitem df "precio_competencia" comp;;
       has_venta ← df_has_column df "precio_venta";
       (if has_venta then
          venta ← df_getitem df "precio_venta";
          comp ← df_getitem df "precio_competencia";
          ratio ← lift (series_div venta comp);
          df_setitem df "ratio_precio" ratio
        else mret ())
     else mret ());;
    for_each (λ col,
        has ← df_has_column df col;
        if has then
          c ← df_getitem df col;
          c ← lift (series_mul_scalar c adjustment_factor);
          df_setitem df col c
        else mret ())
      comp_cols;;
    mret df.

(** The [if simulate_button:] branch of the script. *)
Definition simulate_button_branch (df_inference : loc) (selected_product : string)
    (model : Model) (feature_cols : list string)
    (discount_slider : Z) (scenario : scenario_option) : M unit :=
  let scenario_adjustment := scenario_adjustment_of scenario in
  df_product ← (m ← df_filter_eq df_inference "nombre" selected_product; df_copy m);
  n ← df_len df_product;
  (if bool_decide (n = 0) then
     st_error (NoDataFoundForProduct selected_product);;
     st_stop
   else mret ());;
  df_product ← apply_discount_to_dataframe df_product (inject_Z discount_slider);
  df_product ← apply_competition_scenario df_product scenario_adjustment;
  df_sim ← simulate_recursive_predictions df_product model feature_cols
             (inject_Z discount_slider) scenario_adjustment;
  set_session {| ss_df_sim := df_sim;
                 ss_selected_product := selected_product;
                 ss_discount := discount_slider;
                 ss_scenario := scenario |}.

(** One turn of the scenario comparison loop of the script: the base
    rows are copied, the discount and the competitor adjustment are
    applied, and the result is forecast. *)
Definition simulate_scenario (df_product : loc) (model : Model)
    (feature_cols : list string) (discount_slider : Z) (adjustment : Q) : M loc :=
  df_temp ← (c ← df_copy df_product;
             d ← apply_discount_to_dataframe c (inject_Z discount_slider);
             apply_competition_scenario d adjustment);
  simulate_recursive_predictions df_temp model feature_cols
    (inject_Z discount_slider) adjustment.

(** * What the functions compute

    Each function of the program, read as a function of the frame it is
    given: the frame it returns, and the events it shows. *)

(** ** Worlds that extend a world

    [ext w k evs] is [w] with the frames [k] allocated after its own
    and the events [evs] shown after its own. *)

Definition ext (w : world) (k : list DataFrame) (evs : list event) : world :=
  {| heap := heap w ++ k; page := page w ++ evs; session := session w |}.

(** [w] with the frame at [l] replaced. *)
Definition upd (w : world) (l : loc) (f : DataFrame) : world :=
  with_heap w (<[l := f]> (heap w)).

(** ** The Feature Resolver as a function of the frame *)

Definition fill_missing (f : DataFrame) (feature_cols : list string) : DataFrame :=
  foldl (λ f col, if has_column f col then f else set_column_scalar f col zero)
        f feature_cols.

(** The frame [prepare_prediction_data] returns for the frame [f]. *)
Definition resolve (f : DataFrame) (feature_cols : list string) : DataFrame :=
  {| columns := feature_cols;
     rows := (λ r : Series, filter (λ kv, kv.1 ∈ feature_cols) r)
               <$> rows (fill_missing f feature_cols) |}.

(** ** The Scenario Transformer as functions of the frame *)

(** The frame [apply_discount_to_dataframe] returns for the frame [f]. *)
Definition discount_frame (f : DataFrame) (discount_pct : Q) : result DataFrame :=
  if has_column f "precio_base" then
    base ← get_column f "precio_base";
    venta ← series_mul_scalar base (1 - discount_pct / 100);
    f ← set_column f "precio_venta" venta;
    let f := if has_column f "descuento_porcentaje"
             then set_column_scalar f "descuento_porcentaje" (Float (Fin discount_pct))
             else f in
    if has_column f "precio_competencia" then
      venta ← get_column f "precio_venta";
      comp ← get_column f "precio_competencia";
      ratio ← series_div venta comp;
      set_column f "ratio_precio" ratio
    else Ok f
  else Ok f.

(** One turn of the loop over the individual competitor columns. *)
Definition scale_column (k : Q) (f : result DataFrame) (col : string)
  : result DataFrame :=
  f ← f;
  if has_column f col then
    c ← get_column f col;
    c ← series_mul_scalar c k;
    set_column f col c
  else Ok f.

(** The frame [apply_competition_scenario] returns for the frame [f]. *)
Definition competition_frame (f : DataFrame) (scenario_adjustment : Q)
  : result DataFrame :=
  if Qeq_bool scenario_adjustment 0 then Ok f
  else
    let adjustment_factor := (1 + scenario_adjustment / 100)%Q in
    f ← (if has_column f "precio_competencia" then
           comp ← get_column f "precio_competencia";
           comp ← series_mul_scalar comp adjustment_factor;
           f ← set_column f "precio_competencia" comp;
           if has_column f "precio_venta" then
             venta ← get_column f "precio_venta";
             comp ← get_column f "precio_competencia";
             ratio ← series_div venta comp;
             set_column f "ratio_precio" ratio
           else Ok f
         else Ok f);
    foldl (scale_column adjustment_factor) (Ok f) comp_cols.

(** ** The Recursive Forecaster as a function of the frame *)

(** The value the [except] branch records for day [idx] of the frame [F]. *)
Definition fallback_value (F : DataFrame) (idx : nat) : result cell :=
  if has_column F "unidades_vendidas" then
    col ← get_column F "unidades_vendidas";
    if existsb notna col then
      v ← loc_cell F idx "unidades_vendidas";
      if notna v then Ok v
      else
        col ← get_column F "unidades_vendidas";
        m ← series_mean col;
        Ok (Float m)
    else Ok zero
  else Ok zero.

(** The loop state of a run: the frame [df_sim] and the two lists. *)
Record run_state : Type := mkRun {
  rs_frame : DataFrame;
  rs_predictions : list cell;
  rs_lag_history : list cell
}.

(** The prediction recorded for day [idx], with the warning shown when
    the predictor raised. *)
Definition predict_day (model : Model) (feature_cols : list string)
    (F : DataFrame) (idx : nat) : result (cell * list event) :=
  df_row ← iloc_rows F [idx];
  match model (resolve df_row feature_cols) with
  | Ok pred => Ok (Float (py_max0 pred), [])
  | Raise e =>
      v ← fallback_value F idx;
      Ok (v, [StWarning (PredictionErrorAtDay (idx + 1) e)])
  end.

(** One turn of the day loop. *)
Definition day (model : Model) (feature_cols : list string)
    (s : run_state) (idx : nat) : result (run_state * list event) :=
  '(pred, evs) ← predict_day model feature_cols (rs_frame s) idx;
  let predictions := rs_predictions s ++ [pred] in
  if bool_decide (idx < length (rows (rs_frame s)) - 1) then
    next_row ← loc_row (rs_frame s) (idx + 1);
    '(next_row, lag_history) ← update_lags next_row pred (rs_lag_history s);
    Ok (mkRun (set_row (rs_frame s) (idx + 1) next_row) predictions lag_history, evs)
  else Ok (mkRun (rs_frame s) predictions (rs_lag_history s), evs).

(** The day loop over the days [idxs], from the state [s]. *)
Fixpoint days (model : Model) (feature_cols : list string)
    (s : run_state) (idxs : list nat) : result (run_state * list event) :=
  match idxs with
  | [] => Ok (s, [])
  | idx :: idxs' =>
      '(s', evs) ← day model feature_cols s idx;
      '(s'', evs') ← days model feature_cols s' idxs';
      Ok (s'', evs ++ evs')
  end.

(** The date-sorted input of a run: the frame the day loop starts from. *)
Definition skeleton (f : DataFrame) : result DataFrame := sort_values f "fecha".

(** The frame [simulate_recursive_predictions] returns for the frame [f],
    with the warnings it shows. *)
Definition forecast (model : Model) (feature_cols : list string)
    (f : DataFrame) : result (DataFrame * list event) :=
  S ← skeleton f;
  '(s, evs) ← days model feature_cols (mkRun S [] []) (seq 0 (length (rows S)));
  F ← set_column (rs_frame s) "predicciones" (rs_predictions s);
  Ok (F, evs).

(** The lag distances of the shift loop, in the order it takes them. *)
Definition lag_distances : list nat := [7; 6; 5; 4; 3; 2].

(** The history after [update_lags] has appended [p] to [h]. *)
Definition push7 {A} (h : list A) (p : A) : list A :=
  if bool_decide (7 < length (h ++ [p])) then drop 1 (h ++ [p]) else h ++ [p].

(** The (at most) seven most recent entries of [l]. *)
Definition last7 {A} (l : list A) : list A := drop (length l - 7) l.

(** The row [update_lags] returns, given the mean [m] of the new history. *)
Definition lagged_row (row : Series) (p : cell) (m : num) : Series :=
  <[ma7_col := Float m]>
    (<["unidades_vendidas_lag1" := p]> (foldl shift_lag row lag_distances)).

(** The state of a run over the skeleton [S] after its first [k] days. *)
Record run_inv (S : DataFrame) (k : nat) (s : run_state) : Prop := {
  inv_columns : columns (rs_frame s) = columns S;
  inv_length : length (rows (rs_frame s)) = length (rows S);
  inv_predictions : length (rs_predictions s) = k;
  inv_history :
    rs_lag_history s =
    last7 (take (min k (length (rows S) - 1)) (rs_predictions s));
  inv_untouched :
    ∀ j, j = 0 ∨ k < j → rows (rs_frame s) !! j = rows S !! j;
  inv_written :
    ∀ j, 1 ≤ j ≤ k → j < length (rows S) →
      ∃ r0 p m,
        rows S !! j = Some r0 ∧
        rs_predictions s !! (j - 1) = Some p ∧
        np_mean (last7 (take j (rs_predictions s))) = Ok m ∧
        rows (rs_frame s) !! j = Some (reindex (columns S) (lagged_row r0 p m))
}.

(** The cells of column [c], top to bottom. *)
Definition column_cells (F : DataFrame) (c : string) : list cell :=
  (λ r, cell_of r c) <$> rows F.

Definition target : string := "unidades_vendidas".

(** A cell that holds a number (NaN included). *)
Definition is_float (c : cell) : Prop := ∃ x, c = Float x.

(** The number a cell holds, when it holds one that is not missing. *)
Definition known_value (c : cell) : option num :=
  match c with
  | Float NaN => None
  | Float x => Some x
  | _ => None
  end.

(** The known (non-missing) historical targets of a series. *)
Definition known_targets (S : DataFrame) : list num :=
  if has_column S target then
    omap known_value (column_cells S target)
  else [].

(** The fallback as the specification words it: the day's known
    historical target if present and non-missing, else the mean of all
    known historical targets of the series, else 0. *)
Definition spec_fallback (S : DataFrame) (k : nat) : cell :=
  let mean_or_zero :=
    match known_targets S with
    | [] => zero
    | xs => Float (num_mean xs)
    end in
  match (if has_column S target then column_cells S target !! k else None) with
  | Some v => if notna v then v else mean_or_zero
  | None => mean_or_zero
  end.

(** The frame one turn of the scenario comparison forecasts from the
    base frame [f]. *)
Definition scenario_forecast (model : Model) (feature_cols : list string)
    (discount_slider : Z) (adjustment : Q) (f : DataFrame)
  : result (DataFrame * list event) :=
  f ← discount_frame f (inject_Z discount_slider);
  f ← competition_frame f adjustment;
  forecast model feature_cols f.

(** [w'] is [w] with more frames and the events [evs] shown: no frame
    of [w] has changed, and neither has the session. *)
Definition extends (w w' : world) (evs : list event) : Prop :=
  ∃ k, w' = ext w k evs.

(** The run of [m] from [w] gives the frame and events [r], on the heap
    of a world that extends [w], or raises as [r] does. *)
Definition returns (m : M loc) (w : world) (r : result (DataFrame * list event))
  : Prop :=
  match r with
  | Ok (F, evs) =>
      ∃ l w', m w = (Ok l, w') ∧ heap w' !! l = Some F ∧ extends w w' evs
  | Raise e =>
      ∃ w' evs, m w = (Raise e, w') ∧ extends w w' evs
  end.

(** The number in a cell that holds one. *)
Definition float_of (c : cell) : num :=
  match c with
  | Float x => x
  | _ => NaN
  end.

(** What [apply_discount_to_dataframe] makes of one row, in a frame
    with a base-price column; [has_desc] and [has_comp] tell whether
    the frame has the discount and competitor-price columns. *)
Definition discount_row (has_desc has_comp : bool) (d : Q) (r : Series) : Series :=
  let venta := num_mul (float_of (cell_of r "precio_base")) (Fin (1 - d / 100)) in
  let r1 := <["precio_venta" := Float venta]> r in
  let r2 := if has_desc
            then <["descuento_porcentaje" := Float (Fin d)]> r1
            else r1 in
  if has_comp
  then <["ratio_precio" :=
           Float (num_div venta (float_of (cell_of r "precio_competencia")))]> r2
  else r2.

(** The frame whose rows are those of [f], each changed by [h]. *)
Definition map_rows (cols : list string) (h : Series → Series) (f : DataFrame)
  : DataFrame :=
  {| columns := cols; rows := h <$> rows f |}.

(** ** Sample data *)
(** A world whose heap holds the one frame [f]. *)
Definition one_frame_world (f : DataFrame) : world :=
  {| heap := [f]; page := []; session := None |}.

(** Two days of one product, given latest day first. *)
Definition two_days : DataFrame :=
  {| columns := ["fecha"; "unidades_vendidas"; "unidades_vendidas_lag1";
                 "unidades_vendidas_lag2"; "unidades_vendidas_ma7"];
     rows := [ list_to_map [("fecha", Time 2);
                            ("unidades_vendidas", Float (Fin 3));
                            ("unidades_vendidas_lag1", Float (Fin 9));
                            ("unidades_vendidas_lag2", Float (Fin 8));
                            ("unidades_vendidas_ma7", Float (Fin 7))];
               list_to_map [("fecha", Time 1);
                            ("unidades_vendidas", Float (Fin (-3)));
                            ("unidades_vendidas_lag1", Float (Fin 5));
                            ("unidades_vendidas_lag2", Float (Fin 4));
                            ("unidades_vendidas_ma7", Float (Fin 6))] ] |}.

(** One priced day of the product "Widget". *)
Definition priced_day : DataFrame :=
  {| columns := ["nombre"; "precio_base"; "precio_competencia";
                 "descuento_porcentaje"];
     rows := [ list_to_map [("nombre", Str "Widget");
                            ("precio_base", Float (Fin 100));
                            ("precio_competencia", Float (Fin 50));
                            ("descuento_porcentaje", Float (Fin 0))] ] |}.

Definition lag_features : list string :=
  ["unidades_vendidas_lag1"; "unidades_vendidas_lag2"; "unidades_vendidas_ma7"].

(** A predictor that answers [q] on every input, and one that always raises. *)
Definition constant_model (q : Q) : Model := λ _, Ok (Fin q).
Definition failing_model : Model := λ _, Raise (Exception "predict failed").

(** A checkable form of [wf_frame]. *)
Definition wf_frameb (f : DataFrame) : bool :=
  forallb (λ r : Series,
    forallb (λ c, bool_decide (is_Some (r !! c))) (columns f) &&
    forallb (λ kv : string * cell, bool_decide (kv.1 ∈ columns f)) (map_to_list r))
    (rows f).

(** [two_days] in date order. *)
Definition two_days_sorted : DataFrame :=
  {| columns := columns two_days; rows := reverse (rows two_days) |}.

(** One day whose historical target is negative (more units returned
    than sold). *)
Definition returns_day : DataFrame :=
  {| columns := ["fecha"; "unidades_vendidas"];
     rows := [ list_to_map [("fecha", Time 1);
                            ("unidades_vendidas", Float (Fin (-3)))] ] |}.

(** The cell of row [i], column [c] of a frame, and of a frame of the heap. *)
Definition frame_cell (F : DataFrame) (i : nat) (c : string) : option cell :=
  r ← rows F !! i; r !! c.

Definition heap_cell (w : world) (l : loc) (i : nat) (c : string) : option cell :=
  F ← heap w !! l; frame_cell F i c.

(** ** Dates and failures of a run *)
(** The sort key of a row: its date, or nothing when the date is missing. *)
Definition date_key (r : Series) : option Z :=
  match cell_of r "fecha" with
  | Time t => Some t
  | _ => None
  end.

(** [r1] may come before [r2] in date order (missing dates last). *)
Definition date_le (r1 r2 : Series) : Prop :=
  key_leb (date_key r1) (date_key r2) = true.

(** The exception the predictor raises on day [k]'s features, in the
    state in which the run over [S] predicts day [k]. *)
Definition failure_at (model : Model) (feature_cols : list string)
    (S : DataFrame) (k : nat) : option exn :=
  match days model feature_cols (mkRun S [] []) (seq 0 k) with
  | Ok (sk, _) =>
      match iloc_rows (rs_frame sk) [k] with
      | Ok df_row =>
          match model (resolve df_row feature_cols) with
          | Raise e => Some e
          | Ok _ => None
          end
      | Raise _ => None
      end
  | Raise _ => None
  end.

(** The warnings of a run over [S]: one for each day on which the
    predictor raises, in day order, days counted from 1. *)
Definition warnings_of (model : Model) (feature_cols : list string)
    (S : DataFrame) : list event :=
  omap (λ k, (λ e, StWarning (PredictionErrorAtDay (k + 1) e))
               <$> failure_at model feature_cols S k)
       (seq 0 (length (rows S))).

(** The rows of [f] whose [nombre] is the product [p]: what
    [df_inference[df_inference['nombre'] == selected_product]] holds. *)
Definition product_rows (f : DataFrame) (p : string) : DataFrame :=
  {| columns := columns f;
     rows := filter (λ r, cell_eq_str p (cell_of r "nombre") = true) (rows f) |}.

(** ** Rows and columns of the transformed frames *)
(** The cell of column [c] of the row [r], scaled by [k]. *)
Definition scale_cell (k : Q) (r : Series) (c : string) : cell :=
  Float (num_mul (float_of (cell_of r c)) (Fin k)).

(** What [apply_competition_scenario] makes of one row of a frame with
    the columns [cols], for the adjustment factor [k]. *)
Definition competition_row (cols : list string) (k : Q) (r : Series) : Series :=
  let comp := num_mul (float_of (cell_of r "precio_competencia")) (Fin k) in
  let r1 := if bool_decide ("precio_competencia" ∈ cols)
            then <["precio_competencia" := Float comp]> r
            else r in
  let r2 := if bool_decide ("precio_competencia" ∈ cols)
               && bool_decide ("precio_venta" ∈ cols)
            then <["ratio_precio" :=
                     Float (num_div (float_of (cell_of r "precio_venta")) comp)]> r1
            else r1 in
  foldl (λ r c, if bool_decide (c ∈ cols) then <[c := scale_cell k r c]> r else r)
        r2 comp_cols.

(** The columns of the frame [apply_competition_scenario] returns. *)
Definition competition_columns (cols : list string) : list string :=
  if bool_decide ("precio_competencia" ∈ cols) && bool_decide ("precio_venta" ∈ cols)
  then add_column cols "ratio_precio"
  else cols.

(** The columns of the frame [apply_discount_to_dataframe] returns for
    a frame with a base-price column. *)
Definition discount_columns (cols : list string) : list string :=
  let cols := add_column cols "precio_venta" in
  if bool_decide ("precio_competencia" ∈ cols)
  then add_column cols "ratio_precio"
  else cols.

(** The columns the competitor adjustment reads. *)
Definition competition_inputs : list string :=
  ["precio_competencia"; "precio_venta"; "Amazon"; "Decathlon"; "Deporvillage"].

(** ** The KPI metrics *)
(** [series.sum()]: missing values are skipped; the empty sum is 0. *)
Definition series_sum (col : list cell) : result num :=
  xs ← as_floats (filter (λ c, notna c = true) col); Ok (num_sum xs).

(** [a * b] for two columns of one frame. *)
Definition series_mul (a b : list cell) : result (list cell) :=
  xs ← as_floats a; ys ← as_floats b;
  Ok (zip_with (λ x y, Float (num_mul x y)) xs ys).

(** The dictionary [calculate_metrics] returns. *)
Record metrics : Type := mkMetrics {
  total_units : num;
  total_revenue : num;
  avg_price : num;
  avg_discount : num
}.

Definition calculate_metrics (df_sim : loc) : M metrics :=
  pred ← df_getitem df_sim "predicciones";
  total_units ← lift (series_sum pred);
  pred ← df_getitem df_sim "predicciones";
  venta ← df_getitem df_sim "precio_venta";
  revenue ← lift (series_mul pred venta);
  total_revenue ← lift (series_sum revenue);
  venta ← df_getitem df_sim "precio_venta";
  avg_price ← lift (series_mean venta);
  has_desc ← df_has_column df_sim "descuento_porcentaje";
  avg_discount ← (if has_desc then
                    desc ← df_getitem df_sim "descuento_porcentaje";
                    lift (series_mean desc)
                  else mret (Fin 0));
  mret {| total_units := total_units;
          total_revenue := total_revenue;
          avg_price := avg_price;
          avg_discount := avg_discount |}.

(** The metrics of the frame [F]. *)
Definition metrics_of (F : DataFrame) : result metrics :=
  pred ← get_column F "predicciones";
  total_units ← series_sum pred;
  pred ← get_column F "predicciones";
  venta ← get_column F "precio_venta";
  revenue ← series_mul pred venta;
  total_revenue ← series_sum revenue;
  venta ← get_column F "precio_venta";
  avg_price ← series_mean venta;
  avg_discount ← (if has_column F "descuento_porcentaje" then
                    desc ← get_column F "descuento_porcentaje";
                    series_mean desc
                  else Ok (Fin 0));
  Ok {| total_units := total_units;
        total_revenue := total_revenue;
        avg_price := avg_price;
        avg_discount := avg_discount |}.

(** The price columns the two transforms read. *)
Definition price_inputs : list string :=
  ["precio_base"; "precio_competencia"; "Amazon"; "Decathlon"; "Deporvillage"].

(** A historical target that is missing or non-negative. *)
Definition missing_or_nonneg (c : cell) : Prop := c = Float NaN ∨ nonneg c.

(** Three days of a shop that sells two products, in date order. *)
Definition shop_days : DataFrame :=
  {| columns := ["nombre"; "fecha"; "precio_base"; "precio_venta";
                 "precio_competencia"; "descuento_porcentaje"; "Amazon"];
     rows := [ list_to_map [("nombre", Str "Widget"); ("fecha", Time 1);
                            ("precio_base", Float (Fin 100));
                            ("precio_venta", Float (Fin 100));
                            ("precio_competencia", Float (Fin 50));
                            ("descuento_porcentaje", Float (Fin 0));
                            ("Amazon", Float (Fin 40))];
               list_to_map [("nombre", Str "Gadget"); ("fecha", Time 2);
                            ("precio_base", Float (Fin 20));
                            ("precio_venta", Float (Fin 20));
                            ("precio_competencia", Float (Fin 25));
                            ("descuento_porcentaje", Float (Fin 0));
                            ("Amazon", Float (Fin 30))];
               list_to_map [("nombre", Str "Widget"); ("fecha", Time 3);
                            ("precio_base", Float (Fin 100));
                            ("precio_venta", Float (Fin 100));
                            ("precio_competencia", Float (Fin 80));
                            ("descuento_porcentaje", Float (Fin 0));
                            ("Amazon", Float (Fin 60))] ] |}.

(** A series of no days, and a forecast of no days. *)
Definition no_days : DataFrame :=
  {| columns := ["fecha"; "precio_venta"]; rows := [] |}.

Definition no_days_forecast : DataFrame :=
  {| columns := ["fecha"; "precio_venta"; "predicciones"]; rows := [] |}.

(** Two days, the first with a historical target that is text. *)
Definition text_day : Series :=
  list_to_map [("fecha", Time 1); ("unidades_vendidas", Str "n/a")].

Definition text_days : DataFrame :=
  {| columns := ["fecha"; "unidades_vendidas"];
     rows := [ text_day;
               list_to_map [("fecha", Time 2);
                            ("unidades_vendidas", Float (Fin 3))] ] |}.

(** Three days of sales, the second with no known target. *)
Definition sold_days : DataFrame :=
  {| columns := ["fecha"; "unidades_vendidas"];
     rows := [ list_to_map [("fecha", Time 1); ("unidades_vendidas", Float (Fin 4))];
               list_to_map [("fecha", Time 2); ("unidades_vendidas", Float NaN)];
               list_to_map [("fecha", Time 3); ("unidades_vendidas", Float (Fin 6))] ] |}.

Definition clamped (p : cell) : Prop := ∃ v, p = Float (py_max0 v).

(** * Reasoning about runs *)

(** ** Worlds that extend a world *)

Lemma ext_nil w : ext w [] [] = w.
Proof. destruct w as [h p s]. unfold ext; simpl. by rewrite !app_nil_r. Qed.

Lemma ext_ext w k evs k' evs' :
  ext (ext w k evs) k' evs' = ext w (k ++ k') (evs ++ evs').
Proof. unfold ext; simpl. by rewrite !app_assoc. Qed.

Lemma heap_ext w k evs : heap (ext w k evs) = heap w ++ k.
Proof. done. Qed.

Lemma lookup_ext_old w k evs l f :
  heap w !! l = Some f → heap (ext w k evs) !! l = Some f.
Proof. intros H. simpl. by apply lookup_app_l_Some. Qed.

Lemma lookup_ext_new w k evs i :
  heap (ext w k evs) !! (length (heap w) + i) = k !! i.
Proof. simpl. rewrite lookup_app_r by lia. f_equal. lia. Qed.

(** ** Running the primitives *)

Lemma run_bind {A B} (m : M A) (f : A → M B) w :
  bind m f w = match m w with
               | (Ok a, w') => f a w'
               | (Raise e, w') => (Raise e, w')
               end.
Proof. done. Qed.

Lemma run_bind_ok {A B} (m : M A) (f : A → M B) w a w' :
  m w = (Ok a, w') → bind m f w = f a w'.
Proof. intros H. by rewrite run_bind, H. Qed.

Lemma run_bind_raise {A B} (m : M A) (f : A → M B) w e w' :
  m w = (Raise e, w') → bind m f w = (Raise e, w').
Proof. intros H. by rewrite run_bind, H. Qed.

Lemma run_ret {A} (a : A) w : mret (M := M) a w = (Ok a, w).
Proof. done. Qed.

Lemma run_lift {A} (r : result A) w : lift r w = (r, w).
Proof. done. Qed.

Lemma get_frame_run w l f : heap w !! l = Some f → get_frame l w = (Ok f, w).
Proof. intros H. unfold get_frame. by rewrite H. Qed.

Lemma new_frame_ext w k evs f :
  new_frame f (ext w k evs) = (Ok (length (heap w) + length k), ext w (k ++ [f]) evs).
Proof.
  unfold new_frame, ext, with_heap; simpl.
  by rewrite length_app, <- app_assoc.
Qed.

Lemma put_frame_ext w k evs i f :
  put_frame (length (heap w) + i) f (ext w k evs) = (Ok (), ext w (<[i := f]> k) evs).
Proof.
  unfold put_frame, ext, with_heap; simpl.
  by rewrite insert_app_r.
Qed.

Lemma st_warning_ext w k evs m :
  st_warning m (ext w k evs) = (Ok (), ext w k (evs ++ [StWarning m])).
Proof. unfold st_warning, ext; simpl. by rewrite <- app_assoc. Qed.

Lemma st_error_ext w k evs m :
  st_error m (ext w k evs) = (Ok (), ext w k (evs ++ [StError m])).
Proof. unfold st_error, ext; simpl. by rewrite <- app_assoc. Qed.

(** Reading a frame of an extended world, old or new. *)
Lemma get_frame_old w k evs l f :
  heap w !! l = Some f → get_frame l (ext w k evs) = (Ok f, ext w k evs).
Proof. intros H. apply get_frame_run. by apply lookup_ext_old. Qed.

Lemma get_frame_new w k evs i f :
  k !! i = Some f →
  get_frame (length (heap w) + i) (ext w k evs) = (Ok f, ext w k evs).
Proof. intros H. apply get_frame_run. by rewrite lookup_ext_new. Qed.

(** ** Running the pandas operations *)

Section derived_runs.
Context (w : world) (k : list DataFrame) (evs : list event).
Local Abbreviation W := (ext w k evs).

Lemma df_len_run (W' : world) l f :
  heap W' !! l = Some f → df_len l W' = (Ok (length (rows f)), W').
Proof. intros H. unfold df_len. by rewrite run_bind, (get_frame_run _ _ _ H). Qed.

Lemma df_has_column_run (W' : world) l f c :
  heap W' !! l = Some f → df_has_column l c W' = (Ok (has_column f c), W').
Proof. intros H. unfold df_has_column. by rewrite run_bind, (get_frame_run _ _ _ H). Qed.

Lemma df_getitem_run (W' : world) l f c :
  heap W' !! l = Some f → df_getitem l c W' = (get_column f c, W').
Proof. intros H. unfold df_getitem. by rewrite run_bind, (get_frame_run _ _ _ H). Qed.

Lemma df_loc_row_run (W' : world) l f i :
  heap W' !! l = Some f → df_loc_row l i W' = (loc_row f i, W').
Proof. intros H. unfold df_loc_row. by rewrite run_bind, (get_frame_run _ _ _ H). Qed.

Lemma df_loc_cell_run (W' : world) l f i c :
  heap W' !! l = Some f → df_loc_cell l i c W' = (loc_cell f i c, W').
Proof. intros H. unfold df_loc_cell. by rewrite run_bind, (get_frame_run _ _ _ H). Qed.

Lemma df_copy_run l f :
  heap W !! l = Some f →
  df_copy l W = (Ok (length (heap w) + length k), ext w (k ++ [f]) evs).
Proof.
  intros H. unfold df_copy.
  by rewrite run_bind, (get_frame_run _ _ _ H), new_frame_ext.
Qed.

Lemma df_reset_index_run l f :
  heap W !! l = Some f →
  df_reset_index l W = (Ok (length (heap w) + length k), ext w (k ++ [f]) evs).
Proof. apply df_copy_run. Qed.

(** An operation that builds a new frame from the frame at [l]. *)
Lemma df_build_run (g : DataFrame → result DataFrame) l f :
  heap W !! l = Some f →
  (f0 ← get_frame l; f' ← lift (g f0); new_frame f') W =
  match g f with
  | Ok f' => (Ok (length (heap w) + length k), ext w (k ++ [f']) evs)
  | Raise e => (Raise e, W)
  end.
Proof.
  intros H. rewrite run_bind, (get_frame_run _ _ _ H), run_bind, run_lift.
  destruct (g f); [apply new_frame_ext | done].
Qed.

Lemma df_select_run l f cs :
  heap W !! l = Some f →
  df_select l cs W =
  match select_columns f cs with
  | Ok f' => (Ok (length (heap w) + length k), ext w (k ++ [f']) evs)
  | Raise e => (Raise e, W)
  end.
Proof. apply (df_build_run (λ f, select_columns f cs)). Qed.

Lemma df_iloc_run l f idxs :
  heap W !! l = Some f →
  df_iloc l idxs W =
  match iloc_rows f idxs with
  | Ok f' => (Ok (length (heap w) + length k), ext w (k ++ [f']) evs)
  | Raise e => (Raise e, W)
  end.
Proof. apply (df_build_run (λ f, iloc_rows f idxs)). Qed.

Lemma df_sort_values_run l f c :
  heap W !! l = Some f →
  df_sort_values l c W =
  match sort_values f c with
  | Ok f' => (Ok (length (heap w) + length k), ext w (k ++ [f']) evs)
  | Raise e => (Raise e, W)
  end.
Proof. apply (df_build_run (λ f, sort_values f c)). Qed.

Lemma df_filter_eq_run l f c p :
  heap W !! l = Some f →
  df_filter_eq l c p W =
  match filter_eq f c p with
  | Ok f' => (Ok (length (heap w) + length k), ext w (k ++ [f']) evs)
  | Raise e => (Raise e, W)
  end.
Proof. apply (df_build_run (λ f, filter_eq f c p)). Qed.

(** In-place updates of a frame allocated after [w]'s own. *)
Lemma df_setitem_run i f c vs :
  k !! i = Some f →
  df_setitem (length (heap w) + i) c vs W =
  match set_column f c vs with
  | Ok f' => (Ok (), ext w (<[i := f']> k) evs)
  | Raise e => (Raise e, W)
  end.
Proof.
  intros H. unfold df_setitem.
  rewrite run_bind, (get_frame_new _ _ _ _ _ H), run_bind, run_lift.
  destruct (set_column f c vs); [apply put_frame_ext | done].
Qed.

Lemma df_setitem_scalar_run i f c v :
  k !! i = Some f →
  df_setitem_scalar (length (heap w) + i) c v W =
  (Ok (), ext w (<[i := set_column_scalar f c v]> k) evs).
Proof.
  intros H. unfold df_setitem_scalar.
  by rewrite run_bind, (get_frame_new _ _ _ _ _ H), put_frame_ext.
Qed.

Lemma df_loc_set_row_run i f j s :
  k !! i = Some f →
  df_loc_set_row (length (heap w) + i) j s W =
  (Ok (), ext w (<[i := set_row f j s]> k) evs).
Proof.
  intros H. unfold df_loc_set_row.
  by rewrite run_bind, (get_frame_new _ _ _ _ _ H), put_frame_ext.
Qed.
End derived_runs.

(** Side conditions of the lemmas above: a lookup in an extended heap. *)

Ltac hlookup :=
  solve [ eassumption
        | apply lookup_ext_old; eassumption
        | rewrite lookup_ext_new; first [reflexivity | eassumption]
        | reflexivity ].

Lemma put_frame_old w k evs l f :
  l < length (heap w) →
  put_frame l f (ext w k evs) =
  (Ok (), ext (with_heap w (<[l := f]> (heap w))) k evs).
Proof.
  intros H. unfold put_frame, ext, with_heap; simpl.
  by rewrite insert_app_l.
Qed.

(** A run that starts in [w] starts in [ext w [] []]. *)
Lemma run_from_ext {A} (m : M A) w r : m (ext w [] []) = r → m w = r.
Proof. by rewrite ext_nil. Qed.

Lemma run_at_ext {A} (m : M A) w : m w = m (ext w [] []).
Proof. by rewrite ext_nil. Qed.

Lemma bind_Ok {A B} (a : A) (f : A → result B) : bind (Ok a) f = f a.
Proof. done. Qed.

Lemma bind_Raise {A B} e (f : A → result B) : bind (Raise e) f = Raise e.
Proof. done. Qed.

(** One step of a run: unfold the sequencing, run the operation at its
    head, and split on the outcome of the pure operation it waits on. *)

Ltac run_op :=
  first
    [ erewrite df_has_column_run by hlookup
    | erewrite df_getitem_run by hlookup
    | erewrite df_len_run by hlookup
    | erewrite df_loc_row_run by hlookup
    | erewrite df_loc_cell_run by hlookup
    | erewrite df_copy_run by hlookup
    | erewrite df_reset_index_run by hlookup
    | erewrite df_select_run by hlookup
    | erewrite df_iloc_run by hlookup
    | erewrite df_sort_values_run by hlookup
    | erewrite df_filter_eq_run by hlookup
    | erewrite df_setitem_run by hlookup
    | erewrite df_setitem_scalar_run by hlookup
    | erewrite df_loc_set_row_run by hlookup
    | rewrite st_warning_ext
    | rewrite st_error_ext
    | rewrite run_lift
    | rewrite run_ret ].

Ltac run_simpl :=
  cbn [length app Nat.add lookup list_lookup insert list_insert fst snd];
  rewrite ?bind_Ok, ?bind_Raise.

Ltac pure_op r :=
  lazymatch r with
  | context [if _ then _ else _] => fail
  | context [bind _ _] => fail
  | has_column _ _ => idtac
  | get_column _ _ => idtac
  | set_column _ _ _ => idtac
  | select_columns _ _ => idtac
  | iloc_rows _ _ => idtac
  | loc_row _ _ => idtac
  | loc_cell _ _ _ => idtac
  | sort_values _ _ => idtac
  | skeleton _ => idtac
  | filter_eq _ _ _ => idtac
  | series_mul_scalar _ _ => idtac
  | series_div _ _ => idtac
  | series_mean _ => idtac
  | update_lags _ _ _ => idtac
  | fallback_value _ _ => idtac
  | notna _ => idtac
  | existsb _ _ => idtac
  | bool_decide _ => idtac
  | Qeq_bool _ _ => idtac
  | ?m _ => is_var m
  end.

Ltac split_on r :=
  pure_op r;
  first [ match goal with H : r = _ |- _ => rewrite H end
        | destruct r eqn:? ];
  run_simpl.

Ltac run_split :=
  match goal with
  | |- context [if ?b then _ else _] => split_on b
  | |- context [bind ?r _] => split_on r
  | |- context [match ?r with Ok _ => _ | Raise _ => _ end] => split_on r
  | |- context [let '(_, _) := ?p in _] => is_var p; destruct p; run_simpl
  | |- ∃ _, _ => eexists
  end.

Ltac run_step :=
  first [ progress (rewrite ?run_bind; run_op; run_simpl) | run_split ].

(** ** The Feature Resolver *)

Lemma add_column_elem cols c x : x ∈ add_column cols c ↔ x ∈ cols ∨ x = c.
Proof.
  unfold add_column. case_bool_decide.
  - intuition congruence.
  - rewrite elem_of_app, list_elem_of_singleton. done.
Qed.

Lemma fill_missing_columns f fc c :
  c ∈ columns (fill_missing f fc) ↔ c ∈ columns f ∨ c ∈ fc.
Proof.
  unfold fill_missing. revert f. induction fc as [|x fc IH]; intros f; simpl.
  - rewrite elem_of_nil. tauto.
  - rewrite IH, elem_of_cons. unfold has_column. case_bool_decide; simpl.
    + intuition congruence.
    + rewrite add_column_elem. tauto.
Qed.

Lemma select_fill_missing f fc :
  select_columns (fill_missing f fc) fc = Ok (resolve f fc).
Proof.
  unfold select_columns.
  destruct (find _ fc) as [c|] eqn:Hfind; [|done].
  apply find_some in Hfind as [Hin Hc].
  apply negb_true_iff, bool_decide_eq_false in Hc.
  destruct Hc. apply fill_missing_columns. right. by apply list_elem_of_In.
Qed.

Lemma fill_loop_run w k evs i f fc :
  k !! i = Some f →
  for_each (λ col,
      has ← df_has_column (length (heap w) + i) col;
      if negb has then
        if startswith col one_hot_prefixes
        then df_setitem_scalar (length (heap w) + i) col zero
        else df_setitem_scalar (length (heap w) + i) col zero
      else mret ())
    fc (ext w k evs)
  = (Ok (), ext w (<[i := fill_missing f fc]> k) evs).
Proof.
  unfold for_each, fill_missing.
  revert k f. induction fc as [|c fc IH]; intros k f Hk; cbn [for_fold foldl].
  - by rewrite list_insert_id.
  - rewrite run_bind, run_bind.
    erewrite df_has_column_run by hlookup.
    destruct (has_column f c) eqn:Hc; cbn [negb].
    + by apply IH.
    + destruct (startswith c one_hot_prefixes);
        (erewrite df_setitem_scalar_run by eassumption;
         erewrite IH;
         [ by rewrite list_insert_insert_eq
         | apply list_lookup_insert_eq; by eapply lookup_lt_Some ]).
Qed.

Lemma prepare_prediction_data_run w df f fc :
  heap w !! df = Some f →
  prepare_prediction_data df fc w =
  (Ok (length (heap w) + 2),
   ext w [fill_missing f fc; resolve f fc; resolve f fc] []).
Proof.
  intros H. apply run_from_ext. unfold prepare_prediction_data.
  erewrite run_bind_ok by (apply df_copy_run; hlookup). simpl.
  erewrite run_bind_ok by (by apply fill_loop_run). simpl.
  erewrite run_bind_ok
    by (erewrite df_select_run by hlookup; by rewrite select_fill_missing).
  simpl. by erewrite df_copy_run by hlookup.
Qed.

Lemma fill_missing_length f fc :
  length (rows (fill_missing f fc)) = length (rows f).
Proof.
  unfold fill_missing. revert f. induction fc as [|x fc IH]; intros f; [done|].
  cbn [foldl]. rewrite IH. destruct (has_column f x); [done|].
  unfold set_column_scalar; simpl. by rewrite length_fmap.
Qed.

Lemma fill_missing_lookup f fc i r :
  rows f !! i = Some r →
  ∃ r', rows (fill_missing f fc) !! i = Some r' ∧
        ∀ c, r' !! c = if decide (c ∈ columns f) then r !! c
                       else if decide (c ∈ fc) then Some zero else r !! c.
Proof.
  unfold fill_missing. revert f r.
  induction fc as [|x fc IH]; intros f r Hr; cbn [foldl].
  - exists r. split; [done|]. intros c.
    destruct (decide (c ∈ columns f)); [done|].
    case_decide as Hnil; [inversion Hnil | done].
  - destruct (has_column f x) eqn:Hx;
      [apply bool_decide_eq_true in Hx | apply bool_decide_eq_false in Hx].
    + destruct (IH f r Hr) as (r' & Hr' & Hc). exists r'. split; [done|].
      intros c. rewrite Hc. destruct (decide (c ∈ columns f)); [done|].
      assert (c ≠ x) by congruence.
      destruct (decide (c ∈ fc)).
      * by rewrite decide_True by (by right).
      * rewrite decide_False; [done|]. rewrite elem_of_cons. tauto.
    + destruct (IH (set_column_scalar f x zero) (<[x := zero]> r)) as (r' & Hr' & Hc).
      { simpl. by rewrite list_lookup_fmap, Hr. }
      exists r'. split; [done|]. intros c. rewrite Hc. simpl.
      unfold add_column. rewrite bool_decide_eq_false_2 by done.
      destruct (decide (c = x)) as [->|Hne].
      * rewrite decide_True by (apply elem_of_app; right; by left).
        rewrite lookup_insert_eq, (decide_False _ _ Hx).
        by rewrite decide_True by (by left).
      * rewrite lookup_insert_ne by done.
        destruct (decide (c ∈ columns f)) as [Hin|Hin].
        -- by rewrite decide_True by (apply elem_of_app; by left).
        -- rewrite decide_False.
           2:{ rewrite elem_of_app, list_elem_of_singleton. tauto. }
           destruct (decide (c ∈ fc)).
           ++ by rewrite decide_True by (by right).
           ++ rewrite decide_False; [done|]. rewrite elem_of_cons. tauto.
Qed.

Lemma resolve_length f fc : length (rows (resolve f fc)) = length (rows f).
Proof. unfold resolve; simpl. by rewrite length_fmap, fill_missing_length. Qed.

Lemma resolve_lookup f fc i r :
  rows f !! i = Some r →
  ∃ x, rows (resolve f fc) !! i = Some x ∧
       ∀ c, x !! c = if decide (c ∈ fc)
                     then (if decide (c ∈ columns f) then r !! c else Some zero)
                     else None.
Proof.
  intros Hr. destruct (fill_missing_lookup f fc i r Hr) as (r' & Hr' & Hc).
  exists (filter (λ kv : string * cell, kv.1 ∈ fc) r'). split.
  { unfold resolve; simpl. by rewrite list_lookup_fmap, Hr'. }
  intros c. rewrite map_lookup_filter, Hc.
  destruct (decide (c ∈ fc)) as [Hin|Hin].
  - destruct (decide (c ∈ columns f)).
    + destruct (r !! c); simpl; [|done]. by rewrite option_guard_True.
    + simpl. by rewrite option_guard_True.
  - destruct (decide (c ∈ columns f)).
    + destruct (r !! c); simpl; [|done]. by rewrite option_guard_False.
    + destruct (r !! c); simpl; [|done]. by rewrite option_guard_False.
Qed.

(** ** The Scenario Transformer *)

Lemma apply_discount_run w df f d :
  heap w !! df = Some f →
  match discount_frame f d with
  | Ok f' =>
      apply_discount_to_dataframe df d w = (Ok (length (heap w) + 0), ext w [f'] [])
  | Raise e =>
      ∃ f'', apply_discount_to_dataframe df d w = (Raise e, ext w [f''] [])
  end.
Proof.
  intros H. unfold discount_frame.
  rewrite (run_at_ext (apply_discount_to_dataframe df d) w).
  unfold apply_discount_to_dataframe.
  rewrite run_bind. run_op. run_simpl.
  repeat run_step; reflexivity.
Qed.

Lemma apply_competition_run w df f adj :
  heap w !! df = Some f →
  match competition_frame f adj with
  | Ok f' =>
      apply_competition_scenario df adj w = (Ok (length (heap w) + 0), ext w [f'] [])
  | Raise e =>
      ∃ f'', apply_competition_scenario df adj w = (Raise e, ext w [f''] [])
  end.
Proof.
  intros H. unfold competition_frame.
  rewrite (run_at_ext (apply_competition_scenario df adj) w).
  unfold apply_competition_scenario.
  rewrite run_bind. run_op. run_simpl.
  destruct (Qeq_bool adj 0); [done|].
  unfold comp_cols, for_each, scale_column. cbn [for_fold foldl].
  repeat run_step; reflexivity.
Qed.

(** ** The Recursive Forecaster *)

Lemma run_try {A} (body : M A) (handler : exn → M A) w :
  try_except body handler w =
  match body w with
  | (Ok a, w') => (Ok a, w')
  | (Raise e, w') => handler e w'
  end.
Proof. done. Qed.

Lemma fallback_prediction_run w l F idx :
  heap w !! l = Some F →
  fallback_prediction l idx w = (fallback_value F idx, w).
Proof.
  intros H. unfold fallback_prediction, fallback_value.
  repeat run_step; congruence.
Qed.

Lemma prepare_prediction_data_ext w k evs l f fc :
  heap (ext w k evs) !! l = Some f →
  prepare_prediction_data l fc (ext w k evs) =
  (Ok (length (heap w) + (length k + 2)),
   ext w (k ++ [fill_missing f fc; resolve f fc; resolve f fc]) evs).
Proof.
  intros H. rewrite (prepare_prediction_data_run _ _ _ _ H).
  by rewrite ext_ext, heap_ext, length_app, Nat.add_assoc, app_nil_r.
Qed.

Lemma upd_ext w k evs l f :
  l < length (heap w) → upd (ext w k evs) l f = ext (upd w l f) k evs.
Proof.
  intros H. unfold upd, ext, with_heap; simpl. by rewrite insert_app_l.
Qed.

Lemma upd_ext_new w k evs i f :
  upd (ext w k evs) (length (heap w) + i) f = ext w (<[i := f]> k) evs.
Proof. unfold upd, ext, with_heap; simpl. by rewrite insert_app_r. Qed.

Lemma upd_upd w l f g : upd (upd w l f) l g = upd w l g.
Proof. unfold upd, with_heap; simpl. by rewrite list_insert_insert_eq. Qed.

Lemma upd_id w l f : heap w !! l = Some f → upd w l f = w.
Proof.
  intros H. destruct w as [h p s]. unfold upd, with_heap; simpl in *.
  by rewrite list_insert_id.
Qed.

Lemma lookup_upd w l f : l < length (heap w) → heap (upd w l f) !! l = Some f.
Proof. intros H. simpl. by apply list_lookup_insert_eq. Qed.

Lemma length_heap_upd w l f : length (heap (upd w l f)) = length (heap w).
Proof. simpl. apply length_insert. Qed.

Lemma df_loc_set_row_old w k evs l F j s :
  heap w !! l = Some F →
  df_loc_set_row l j s (ext w k evs) = (Ok (), ext (upd w l (set_row F j s)) k evs).
Proof.
  intros H. unfold df_loc_set_row.
  rewrite run_bind, (get_frame_old _ _ _ _ _ H).
  rewrite put_frame_old by (by eapply lookup_lt_Some). done.
Qed.

Ltac run_op' :=
  first
    [ run_op
    | erewrite get_frame_run by hlookup
    | erewrite prepare_prediction_data_ext by hlookup
    | erewrite fallback_prediction_run by hlookup
    | erewrite df_loc_set_row_old by hlookup
    | rewrite run_try ].

Ltac run_step' :=
  first [ progress (rewrite ?run_bind; run_op'; run_simpl) | run_split ].

Lemma simulate_day_run w df_sim F model fc P H idx :
  heap w !! df_sim = Some F →
  match day model fc (mkRun F P H) idx with
  | Ok (s', evs) =>
      ∃ junk,
        simulate_day df_sim model fc (P, H) idx w =
        (Ok (rs_predictions s', rs_lag_history s'),
         ext (upd w df_sim (rs_frame s')) junk evs)
  | Raise e =>
      ∃ junk evs, simulate_day df_sim model fc (P, H) idx w = (Raise e, ext w junk evs)
  end.
Proof.
  intros Hdf. unfold day, predict_day. cbn [rs_frame rs_predictions rs_lag_history].
  rewrite (run_at_ext (simulate_day df_sim model fc (P, H) idx) w).
  unfold simulate_day.
  repeat run_step'.
  all: cbn [rs_frame rs_predictions rs_lag_history];
    rewrite ?(upd_id _ _ _ Hdf); reflexivity.
Qed.

Lemma days_run model fc df_sim idxs : ∀ w s,
  heap w !! df_sim = Some (rs_frame s) →
  match days model fc s idxs with
  | Ok (s', evs) =>
      ∃ junk,
        for_fold (simulate_day df_sim model fc)
                 (rs_predictions s, rs_lag_history s) idxs w =
        (Ok (rs_predictions s', rs_lag_history s'),
         ext (upd w df_sim (rs_frame s')) junk evs)
  | Raise e =>
      ∃ F' junk evs,
        for_fold (simulate_day df_sim model fc)
                 (rs_predictions s, rs_lag_history s) idxs w =
        (Raise e, ext (upd w df_sim F') junk evs)
  end.
Proof.
  induction idxs as [|idx idxs IH]; intros w s Hdf; cbn [days for_fold].
  - exists []. rewrite (upd_id _ _ _ Hdf). by rewrite ext_nil.
  - assert (Hlt : df_sim < length (heap w)) by (by eapply lookup_lt_Some).
    pose proof (simulate_day_run w df_sim (rs_frame s) model fc
                  (rs_predictions s) (rs_lag_history s) idx Hdf) as Hday.
    destruct s as [F P H]. cbn [rs_frame rs_predictions rs_lag_history] in *.
    destruct (day model fc (mkRun F P H) idx) as [[s1 evs1]|e]; run_simpl.
    2:{ destruct Hday as (junk & evs & Hday). exists F, junk, evs.
        rewrite (run_bind_raise _ _ _ _ _ Hday). by rewrite (upd_id _ _ _ Hdf). }
    destruct Hday as (junk1 & Hday). rewrite (run_bind_ok _ _ _ _ _ Hday).
    specialize (IH (ext (upd w df_sim (rs_frame s1)) junk1 evs1) s1).
    destruct (days model fc s1 idxs) as [[s2 evs2]|e]; run_simpl.
    + destruct IH as (junk2 & IH).
      { apply lookup_ext_old. by apply lookup_upd. }
      exists (junk1 ++ junk2). rewrite IH.
      rewrite upd_ext by (by rewrite length_heap_upd).
      by rewrite upd_upd, ext_ext.
    + destruct IH as (F' & junk2 & evs2 & IH).
      { apply lookup_ext_old. by apply lookup_upd. }
      exists F', (junk1 ++ junk2), (evs1 ++ evs2). rewrite IH.
      rewrite upd_ext by (by rewrite length_heap_upd).
      by rewrite upd_upd, ext_ext.
Qed.

Lemma simulate_recursive_predictions_run w df f model fc d adj :
  heap w !! df = Some f →
  match forecast model fc f with
  | Ok (F, evs) =>
      ∃ S junk,
        simulate_recursive_predictions df model fc d adj w =
        (Ok (length (heap w) + 2), ext w ([f; S; F] ++ junk) evs)
  | Raise e =>
      ∃ junk evs,
        simulate_recursive_predictions df model fc d adj w =
        (Raise e, ext w junk evs)
  end.
Proof.
  intros Hdf. unfold forecast, skeleton.
  rewrite (run_at_ext (simulate_recursive_predictions df model fc d adj) w).
  unfold simulate_recursive_predictions.
  destruct (sort_values f "fecha") as [S|e] eqn:HS; run_simpl.
  2:{ exists [f], []. repeat run_step'. reflexivity. }
  repeat (progress (rewrite ?run_bind; run_op'; run_simpl; rewrite ?HS; run_simpl)).
  pose proof (days_run model fc (length (heap w) + 2) (seq 0 (length (rows S)))
                (ext w [f; S; S] []) (mkRun S [] [])) as Hdays.
  cbn [rs_frame rs_predictions rs_lag_history] in Hdays.
  rewrite lookup_ext_new in Hdays. specialize (Hdays eq_refl).
  destruct (days model fc (mkRun S [] []) (seq 0 (length (rows S))))
    as [[s evs]|e]; run_simpl.
  - destruct Hdays as (junk & Hdays).
    rewrite upd_ext_new, ext_ext in Hdays. cbn [insert list_insert app] in Hdays.
    rewrite run_bind, Hdays.
    destruct (set_column (rs_frame s) "predicciones" (rs_predictions s))
      as [F|e] eqn:HF; run_simpl.
    + exists S, junk. repeat run_step'. reflexivity.
    + do 2 eexists. repeat run_step'. reflexivity.
  - destruct Hdays as (F' & junk & evs & Hdays).
    rewrite upd_ext_new, ext_ext in Hdays.
    do 2 eexists. rewrite run_bind, Hdays. reflexivity.
Qed.

(** ** The Lag State Updater *)
Lemma lag_col_inj d d' : lag_col d = lag_col d' → d = d'.
Proof.
  unfold lag_col. intros H.
  apply (inj (String.app "unidades_vendidas_lag")) in H.
  by apply (inj pretty) in H.
Qed.

Lemma lag_col_1 : lag_col 1 = "unidades_vendidas_lag1".
Proof. reflexivity. Qed.

(** Two labels that differ within the fixed part of their text. *)
Ltac label_neq :=
  let H := fresh in
  unfold lag_col, ma7_col; intros H; simpl in H;
  repeat (injection H as _ H); discriminate.

Lemma lag_col_not_ma7 d : lag_col d ≠ ma7_col.
Proof. label_neq. Qed.

Lemma lag_col_not_target d : lag_col d ≠ "unidades_vendidas".
Proof. label_neq. Qed.

Lemma shift_lag_lookup row d c :
  shift_lag row d !! c =
  if decide (c = lag_col d)
  then match row !! lag_col (d - 1) with
       | Some v => Some v
       | None => row !! c
       end
  else row !! c.
Proof.
  unfold shift_lag. destruct (row !! lag_col (d - 1)) as [v|].
  - rewrite lookup_insert. repeat case_decide; congruence.
  - by case_decide.
Qed.

Lemma foldl_shift_other ds : ∀ row c,
  (∀ d, d ∈ ds → c ≠ lag_col d) →
  foldl shift_lag row ds !! c = row !! c.
Proof.
  induction ds as [|x ds IH]; intros row c Hc; [done|]. cbn [foldl].
  rewrite IH by (intros d Hd; apply Hc; by right).
  rewrite shift_lag_lookup, decide_False; [done|]. apply Hc. by left.
Qed.

Lemma foldl_shift_lookup ds : ∀ row d,
  StronglySorted gt ds → d ∈ ds →
  foldl shift_lag row ds !! lag_col d =
  match row !! lag_col (d - 1) with
  | Some v => Some v
  | None => row !! lag_col d
  end.
Proof.
  induction ds as [|x ds IH]; intros row d Hs Hd; [by apply elem_of_nil in Hd|].
  apply StronglySorted_inv in Hs as [Hs Hx]. rewrite Forall_forall in Hx.
  cbn [foldl]. apply elem_of_cons in Hd as [->|Hd].
  - rewrite foldl_shift_other.
    + by rewrite shift_lag_lookup, decide_True.
    + intros d Hd E. apply lag_col_inj in E. subst.
      specialize (Hx d Hd). lia.
  - rewrite IH by done. specialize (Hx d Hd).
    rewrite !shift_lag_lookup, !decide_False; [done| |].
    + intros E. apply lag_col_inj in E. lia.
    + intros E. apply lag_col_inj in E. lia.
Qed.

Lemma lag_distances_sorted : StronglySorted gt lag_distances.
Proof. unfold lag_distances. repeat constructor; lia. Qed.

Lemma elem_of_lag_distances d : d ∈ lag_distances ↔ 2 ≤ d ≤ 7.
Proof.
  unfold lag_distances. rewrite !elem_of_cons, elem_of_nil. lia.
Qed.

Lemma push7_length {A} (h : list A) p : length h ≤ 7 → length (push7 h p) ≤ 7.
Proof.
  intros H. unfold push7. case_bool_decide; [rewrite length_drop|];
    rewrite length_app in *; simpl in *; lia.
Qed.

Lemma last7_length {A} (l : list A) : length (last7 l) ≤ 7.
Proof. unfold last7. rewrite length_drop. lia. Qed.

Lemma push7_last7 {A} (l : list A) p : push7 (last7 l) p = last7 (l ++ [p]).
Proof.
  unfold push7, last7. rewrite !length_app, length_drop. simpl.
  case_bool_decide as Hlen.
  - rewrite drop_app_le by (rewrite length_drop; lia).
    rewrite drop_drop. rewrite drop_app_le by lia. f_equal. f_equal. lia.
  - rewrite (drop_app_le l) by lia. f_equal. f_equal. lia.
Qed.

Lemma push7_fmap {A B} (g : A → B) (h : list A) p :
  g <$> push7 h p = push7 (g <$> h) (g p).
Proof.
  unfold push7. rewrite !length_app, length_fmap. simpl.
  case_bool_decide; by rewrite ?fmap_drop, fmap_app.
Qed.

Lemma as_floats_fmap xs : as_floats (Float <$> xs) = Ok xs.
Proof.
  unfold as_floats. induction xs as [|x xs IH]; [done|].
  cbn [fmap list_fmap traverse as_float]. rewrite bind_Ok.
  by rewrite IH.
Qed.

Lemma np_mean_fmap xs : np_mean (Float <$> xs) = Ok (num_mean xs).
Proof. unfold np_mean. by rewrite as_floats_fmap. Qed.

Lemma update_lags_inv row p h row' h' :
  update_lags row p h = Ok (row', h') →
  h' = push7 h p ∧
  ∃ m, np_mean (push7 h p) = Ok m ∧ row' = lagged_row row p m.
Proof.
  unfold update_lags, push7, lagged_row, lag_distances.
  destruct (np_mean _) as [m|e]; rewrite ?bind_Ok, ?bind_Raise; [|done].
  intros [= <- <-]. eauto.
Qed.

Lemma update_lags_floats row x xs :
  update_lags row (Float x) (Float <$> xs) =
  Ok (lagged_row row (Float x) (num_mean (push7 xs x)), Float <$> push7 xs x).
Proof.
  unfold update_lags, lagged_row, lag_distances.
  fold (push7 (Float <$> xs) (Float x)).
  by rewrite <- push7_fmap, np_mean_fmap, bind_Ok.
Qed.

Lemma lagged_row_lag row p m d :
  2 ≤ d ≤ 7 →
  lagged_row row p m !! lag_col d =
  match row !! lag_col (d - 1) with
  | Some v => Some v
  | None => row !! lag_col d
  end.
Proof.
  intros Hd. unfold lagged_row.
  rewrite lookup_insert_ne by (apply not_eq_sym, lag_col_not_ma7).
  rewrite <- lag_col_1, lookup_insert_ne
    by (intros E; apply lag_col_inj in E; lia).
  apply foldl_shift_lookup; [apply lag_distances_sorted|].
  by apply elem_of_lag_distances.
Qed.

Lemma lagged_row_lag1 row p m : lagged_row row p m !! lag_col 1 = Some p.
Proof.
  unfold lagged_row.
  rewrite lookup_insert_ne by (apply not_eq_sym, lag_col_not_ma7).
  by rewrite lag_col_1, lookup_insert_eq.
Qed.

Lemma lagged_row_ma7 row p m : lagged_row row p m !! ma7_col = Some (Float m).
Proof. unfold lagged_row. by rewrite lookup_insert_eq. Qed.

Lemma lagged_row_other row p m c :
  (∀ d, 1 ≤ d ≤ 7 → c ≠ lag_col d) → c ≠ ma7_col →
  lagged_row row p m !! c = row !! c.
Proof.
  intros Hc Hma. unfold lagged_row.
  rewrite lookup_insert_ne by done.
  rewrite <- lag_col_1, lookup_insert_ne by (apply not_eq_sym, Hc; lia).
  apply foldl_shift_other. intros d Hd. apply Hc.
  apply elem_of_lag_distances in Hd. lia.
Qed.

(** ** Rows of a frame *)
Lemma reindex_lookup cols s c :
  reindex cols s !! c = if decide (c ∈ cols) then Some (cell_of s c) else None.
Proof.
  unfold reindex. induction cols as [|x cols IH].
  - rewrite fmap_nil, list_to_map_nil, lookup_empty.
    by rewrite decide_False by apply not_elem_of_nil.
  - rewrite fmap_cons, list_to_map_cons, lookup_insert. destruct (decide (x = c)) as [->|Hne].
    + by rewrite decide_True by (by left).
    + rewrite IH. destruct (decide (c ∈ cols)).
      * by rewrite decide_True by (by right).
      * rewrite decide_False; [done|]. rewrite elem_of_cons. intros [?|?]; congruence.
Qed.

Lemma cell_of_reindex cols s c : c ∈ cols → cell_of (reindex cols s) c = cell_of s c.
Proof. intros H. unfold cell_of at 1. by rewrite reindex_lookup, decide_True. Qed.

Lemma set_row_lookup F i s j :
  i < length (rows F) →
  rows (set_row F i s) !! j =
  if decide (i = j) then Some (reindex (columns F) s) else rows F !! j.
Proof.
  intros Hi. unfold set_row; cbn [rows].
  rewrite bool_decide_eq_true_2 by done.
  rewrite list_lookup_insert. repeat case_decide; first [done | lia | tauto].
Qed.

Lemma set_row_length F i s :
  i < length (rows F) → length (rows (set_row F i s)) = length (rows F).
Proof.
  intros Hi. unfold set_row; cbn [rows].
  rewrite bool_decide_eq_true_2 by done. apply length_insert.
Qed.

(** ** The day loop *)
Lemma days_app model fc l1 : ∀ s l2,
  days model fc s (l1 ++ l2) =
  '(s1, e1) ← days model fc s l1;
  '(s2, e2) ← days model fc s1 l2;
  Ok (s2, e1 ++ e2).
Proof.
  induction l1 as [|x l1 IH]; intros s l2; cbn [days app].
  - rewrite bind_Ok. destruct (days model fc s l2) as [[s2 e2]|e]; done.
  - destruct (day model fc s x) as [[s1 e1]|e]; rewrite ?bind_Ok, ?bind_Raise; [|done].
    rewrite IH.
    destruct (days model fc s1 l1) as [[s2 e2]|e]; rewrite ?bind_Ok, ?bind_Raise; [|done].
    destruct (days model fc s2 l2) as [[s3 e3]|e]; rewrite ?bind_Ok, ?bind_Raise; [|done].
    by rewrite app_assoc.
Qed.

Lemma days_snoc model fc s k idx s' evs :
  days model fc s (k ++ [idx]) = Ok (s', evs) →
  ∃ s1 e1 e2,
    days model fc s k = Ok (s1, e1) ∧ day model fc s1 idx = Ok (s', e2) ∧
    evs = e1 ++ e2.
Proof.
  rewrite days_app.
  destruct (days model fc s k) as [[s1 e1]|e]; rewrite ?bind_Ok, ?bind_Raise; [|done].
  cbn [days].
  destruct (day model fc s1 idx) as [[s2 e2]|e] eqn:Hday;
    rewrite ?bind_Ok, ?bind_Raise; [|done].
  intros Heq. exists s1, e1, e2. rewrite app_nil_r in Heq. by simplify_eq.
Qed.

(** What one turn of the loop does to the state. *)
Lemma day_inv model fc s idx s' evs :
  day model fc s idx = Ok (s', evs) →
  ∃ pred,
    predict_day model fc (rs_frame s) idx = Ok (pred, evs) ∧
    rs_predictions s' = rs_predictions s ++ [pred] ∧
    if bool_decide (idx < length (rows (rs_frame s)) - 1) then
      ∃ r0 m,
        rows (rs_frame s) !! (idx + 1) = Some r0 ∧
        np_mean (push7 (rs_lag_history s) pred) = Ok m ∧
        rs_frame s' = set_row (rs_frame s) (idx + 1) (lagged_row r0 pred m) ∧
        rs_lag_history s' = push7 (rs_lag_history s) pred
    else rs_frame s' = rs_frame s ∧ rs_lag_history s' = rs_lag_history s.
Proof.
  unfold day.
  destruct (predict_day model fc (rs_frame s) idx) as [[pred e1]|e];
    rewrite ?bind_Ok, ?bind_Raise; [|done].
  case_bool_decide as Hlast.
  - unfold loc_row.
    destruct (rows (rs_frame s) !! (idx + 1)) as [r0|] eqn:Hr0;
      rewrite ?bind_Ok, ?bind_Raise; [|done].
    destruct (update_lags r0 pred (rs_lag_history s)) as [[r1 h1]|e] eqn:Hup;
      rewrite ?bind_Ok, ?bind_Raise; [|done].
    intros [= <- <-]. exists pred. split; [done|]. split; [done|].
    apply update_lags_inv in Hup as (-> & m & Hm & ->).
    exists r0, m. done.
  - intros [= <- <-]. exists pred. done.
Qed.

Lemma run_inv_start S : run_inv S 0 (mkRun S [] []).
Proof.
  split; cbn [rs_frame rs_predictions rs_lag_history]; try done.
  intros j Hj. lia.
Qed.

Lemma run_inv_step model fc S k s s' evs :
  k < length (rows S) →
  run_inv S k s →
  day model fc s k = Ok (s', evs) →
  run_inv S (k + 1) s'.
Proof.
  intros Hk [Hcols Hlen HP HH Hun Hwr] Hday.
  apply day_inv in Hday as (pred & _ & HP' & Hstep).
  rewrite Hlen in Hstep.
  assert (Htake : ∀ j, j ≤ k →
            take j (rs_predictions s ++ [pred]) = take j (rs_predictions s)).
  { intros j Hj. apply take_app_le. lia. }
  case_bool_decide as Hlast.
  - destruct Hstep as (r0 & m & Hr0 & Hm & HF & HH').
    assert (Hin : k + 1 < length (rows (rs_frame s))) by lia.
    rewrite Nat.min_l in HH by lia.
    rewrite take_ge in HH by lia.
    rewrite HH, push7_last7 in Hm.
    split.
    + by rewrite HF.
    + rewrite HF, set_row_length by done. done.
    + rewrite HP', length_app. simpl. lia.
    + rewrite HH', HH, push7_last7, HP'. f_equal.
      rewrite Nat.min_l by lia. rewrite take_ge; [done|].
      rewrite length_app. simpl. lia.
    + intros j Hj. rewrite HF, set_row_lookup by done.
      rewrite decide_False by lia. apply Hun. lia.
    + intros j Hj Hjn. rewrite HF, set_row_lookup by done. rewrite HP'.
      destruct (decide (k + 1 = j)) as [<-|Hne].
      * exists r0, pred, m.
        rewrite Hun in Hr0 by lia. split; [done|].
        split; [|split].
        -- rewrite lookup_app_r by lia.
           replace (k + 1 - 1 - length (rs_predictions s)) with 0 by lia. done.
        -- rewrite take_ge; [done|]. rewrite length_app. simpl. lia.
        -- by rewrite Hcols.
      * destruct (Hwr j) as (r & p & mj & Hr & Hp & Hmj & Hrow); [lia|done|].
        exists r, p, mj. rewrite Htake by lia.
        rewrite lookup_app_l by lia. done.
  - destruct Hstep as [HF HH'].
    assert (k = length (rows S) - 1) as Hk' by lia.
    split.
    + by rewrite HF.
    + by rewrite HF.
    + rewrite HP', length_app. simpl. lia.
    + rewrite HH', HH, HP'. f_equal.
      rewrite !Nat.min_r by lia. rewrite <- Hk'. by rewrite Htake.
    + intros j Hj. rewrite HF. apply Hun. lia.
    + intros j Hj Hjn. rewrite HF, HP'.
      destruct (Hwr j) as (r & p & mj & Hr & Hp & Hmj & Hrow); [lia|done|].
      exists r, p, mj. rewrite Htake by lia.
      rewrite lookup_app_l by lia. done.
Qed.

Lemma days_inv model fc S k : ∀ s evs,
  k ≤ length (rows S) →
  days model fc (mkRun S [] []) (seq 0 k) = Ok (s, evs) →
  run_inv S k s.
Proof.
  induction k as [|k IH]; intros s evs Hk Hdays.
  - cbn in Hdays. injection Hdays as <- <-. apply run_inv_start.
  - rewrite seq_S in Hdays. cbn [Nat.add] in Hdays.
    apply days_snoc in Hdays as (s1 & e1 & e2 & Hdays & Hday & _).
    replace (Datatypes.S k) with (k + 1) by lia.
    eapply run_inv_step; [lia| |done]. eapply IH; [lia|done].
Qed.

Lemma get_column_cells F c :
  get_column F c = if has_column F c then Ok (column_cells F c) else Raise (KeyError c).
Proof. done. Qed.

Lemma loc_cell_cells F i c :
  loc_cell F i c =
  match column_cells F c !! i with
  | Some v => if has_column F c then Ok v else Raise (KeyError c)
  | None => Raise (KeyError (pretty i))
  end.
Proof.
  unfold loc_cell, loc_row, column_cells. rewrite list_lookup_fmap.
  by destruct (rows F !! i).
Qed.

Lemma fallback_value_ext F G idx :
  has_column F target = has_column G target →
  column_cells F target = column_cells G target →
  fallback_value F idx = fallback_value G idx.
Proof.
  intros Hc Hcells. unfold fallback_value. fold target.
  by rewrite !get_column_cells, !loc_cell_cells, Hc, Hcells.
Qed.

Lemma label_not_lag c :
  c = target ∨ c = "fecha" ∨ c = "predicciones" →
  (∀ d, c ≠ lag_col d) ∧ c ≠ ma7_col.
Proof.
  intros [ -> | [ -> | -> ] ]; (split; [intros d|]); apply not_eq_sym; label_neq.
Qed.

Lemma run_inv_cells S k s c :
  run_inv S k s →
  (∀ d, c ≠ lag_col d) → c ≠ ma7_col → c ∈ columns S →
  column_cells (rs_frame s) c = column_cells S c.
Proof.
  intros [Hcols Hlen HP HH Hun Hwr] Hlag Hma Hc.
  unfold column_cells. apply list_eq. intros j. rewrite !list_lookup_fmap.
  destruct (decide (j = 0 ∨ k < j)) as [Hj|Hj]; [by rewrite Hun|].
  destruct (decide (j < length (rows S))) as [Hjn|Hjn].
  - destruct (Hwr j) as (r0 & p & m & Hr0 & _ & _ & Hrow); [lia|done|].
    rewrite Hrow, Hr0. cbn [fmap option_fmap option_map]. f_equal.
    rewrite cell_of_reindex by done. unfold cell_of.
    by rewrite lagged_row_other by (intros; apply Hlag || done).
  - rewrite !lookup_ge_None_2 by lia. done.
Qed.

Lemma run_inv_fallback S k s idx :
  run_inv S k s → fallback_value (rs_frame s) idx = fallback_value S idx.
Proof.
  intros Hinv. pose proof (inv_columns _ _ _ Hinv) as Hcols.
  assert (Hhas : has_column (rs_frame s) target = has_column S target).
  { unfold has_column. by rewrite Hcols. }
  destruct (has_column S target) eqn:Htarget.
  - apply fallback_value_ext; [by rewrite Hhas, Htarget|].
    destruct (label_not_lag target) as [Hlag Hma]; [by left|].
    apply (run_inv_cells S k s target Hinv Hlag Hma).
    by apply bool_decide_eq_true in Htarget.
  - unfold fallback_value. fold target. by rewrite Hhas, Htarget.
Qed.

Lemma days_app_inv model fc s l1 l2 s2 evs :
  days model fc s (l1 ++ l2) = Ok (s2, evs) →
  ∃ s1 e1 e2,
    days model fc s l1 = Ok (s1, e1) ∧ days model fc s1 l2 = Ok (s2, e2) ∧
    evs = e1 ++ e2.
Proof.
  rewrite days_app.
  destruct (days model fc s l1) as [[s1 e1]|e]; rewrite ?bind_Ok, ?bind_Raise; [|done].
  destruct (days model fc s1 l2) as [[s3 e3]|e] eqn:H2;
    rewrite ?bind_Ok, ?bind_Raise; [|done].
  intros Heq. exists s1, e1, e3. by simplify_eq.
Qed.

Lemma days_cons_inv model fc s idx l s2 evs :
  days model fc s (idx :: l) = Ok (s2, evs) →
  ∃ s1 e1 e2,
    day model fc s idx = Ok (s1, e1) ∧ days model fc s1 l = Ok (s2, e2) ∧
    evs = e1 ++ e2.
Proof.
  cbn [days].
  destruct (day model fc s idx) as [[s1 e1]|e]; rewrite ?bind_Ok, ?bind_Raise; [|done].
  destruct (days model fc s1 l) as [[s3 e3]|e] eqn:H2;
    rewrite ?bind_Ok, ?bind_Raise; [|done].
  intros Heq. exists s1, e1, e3. by simplify_eq.
Qed.

Lemma days_predictions model fc l : ∀ s s' evs,
  days model fc s l = Ok (s', evs) →
  ∃ ps, rs_predictions s' = rs_predictions s ++ ps.
Proof.
  induction l as [|idx l IH]; intros s s' evs Hdays.
  - cbn in Hdays. simplify_eq. exists []. by rewrite app_nil_r.
  - apply days_cons_inv in Hdays as (s1 & e1 & e2 & Hday & Hdays & _).
    apply day_inv in Hday as (pred & _ & HP & _).
    apply IH in Hdays as (ps & Hps).
    exists (pred :: ps). rewrite Hps, HP. by rewrite <- app_assoc.
Qed.

(** The run seen from day [k]: the state in which day [k] is predicted,
    the prediction made there, and what of both is left at the end. *)
Lemma days_at model fc S s evs k :
  days model fc (mkRun S [] []) (seq 0 (length (rows S))) = Ok (s, evs) →
  k < length (rows S) →
  ∃ sk ek p e,
    days model fc (mkRun S [] []) (seq 0 k) = Ok (sk, ek) ∧
    run_inv S k sk ∧
    predict_day model fc (rs_frame sk) k = Ok (p, e) ∧
    rs_predictions s !! k = Some p ∧
    rs_predictions sk = take k (rs_predictions s) ∧
    rows (rs_frame s) !! k = rows (rs_frame sk) !! k ∧
    (∀ x, x ∈ e → x ∈ evs).
Proof.
  intros Hdays Hk.
  pose proof (days_inv _ _ _ _ _ _ (Nat.le_refl _) Hdays) as Hinv.
  replace (length (rows S)) with (k + (1 + (length (rows S) - k - 1)))
    in Hdays by lia.
  rewrite seq_app in Hdays.
  apply days_app_inv in Hdays as (sk & ek & e' & Hk_days & Hrest & ->).
  cbn [Nat.add seq] in Hrest.
  apply days_cons_inv in Hrest as (s1 & e & e3 & Hday & Hrest & ->).
  pose proof (days_inv _ _ _ _ _ _ (Nat.lt_le_incl _ _ Hk) Hk_days) as Hinvk.
  apply day_inv in Hday as (p & Hpred & HP1 & _).
  apply days_predictions in Hrest as (ps & HP).
  rewrite HP1 in HP.
  pose proof (inv_predictions _ _ _ Hinvk) as Hlenk.
  assert (Htake : rs_predictions sk = take k (rs_predictions s)).
  { rewrite HP, <- app_assoc. by rewrite take_app_length'. }
  exists sk, ek, p, e. split_and!; try done.
  - rewrite HP, <- app_assoc, lookup_app_r by lia.
    by replace (k - length (rs_predictions sk)) with 0 by lia.
  - destruct (decide (k = 0)) as [->|Hk0].
    + rewrite (inv_untouched _ _ _ Hinv) by (by left).
      by rewrite (inv_untouched _ _ _ Hinvk) by (by left).
    + destruct (inv_written _ _ _ Hinv k) as (r0 & q & m & Hr0 & Hq & Hm & ->);
        [lia|done|].
      destruct (inv_written _ _ _ Hinvk k) as (r0' & q' & m' & Hr0' & Hq' & Hm' & ->);
        [lia|done|].
      rewrite Htake in Hq', Hm'.
      rewrite lookup_take_lt in Hq' by lia.
      rewrite take_take, Nat.min_id in Hm'. congruence.
  - intros x Hx. rewrite !elem_of_app. tauto.
Qed.

Lemma forecast_inv model fc f F evs :
  forecast model fc f = Ok (F, evs) →
  ∃ S s,
    skeleton f = Ok S ∧
    days model fc (mkRun S [] []) (seq 0 (length (rows S))) = Ok (s, evs) ∧
    set_column (rs_frame s) "predicciones" (rs_predictions s) = Ok F.
Proof.
  unfold forecast.
  destruct (skeleton f) as [S|e]; rewrite ?bind_Ok, ?bind_Raise; [|done].
  destruct (days _ _ _ _) as [[s evs']|e] eqn:Hd;
    rewrite ?bind_Ok, ?bind_Raise; [|done].
  cbn beta iota.
  destruct (set_column _ _ _) as [F'|e] eqn:HF; rewrite ?bind_Ok, ?bind_Raise; [|done].
  intros Heq. exists S, s. by simplify_eq.
Qed.

Lemma set_column_lookup F c vs F' j :
  set_column F c vs = Ok F' →
  rows F' !! j =
  match rows F !! j, vs !! j with
  | Some r, Some v => Some (<[c := v]> r)
  | _, _ => None
  end.
Proof.
  unfold set_column. case_bool_decide as Hlen; [|done].
  intros [= <-]. cbn [rows]. rewrite lookup_zip_with.
  destruct (rows F !! j); [|done]. by destruct (vs !! j).
Qed.

Lemma set_column_columns F c vs F' :
  set_column F c vs = Ok F' → columns F' = add_column (columns F) c.
Proof.
  unfold set_column. case_bool_decide; [|done]. by intros [= <-].
Qed.

Lemma floats_fmap l : Forall is_float l → ∃ xs, l = Float <$> xs.
Proof.
  induction 1 as [|c l [x ->] _ [xs ->]].
  - by exists [].
  - by exists (x :: xs).
Qed.

Lemma Forall_is_float_fmap (xs : list num) : Forall is_float (Float <$> xs).
Proof. apply Forall_fmap, Forall_forall. intros x _. by exists x. Qed.

Lemma filter_notna_floats (xs : list num) :
  filter (λ c, notna c = true) (Float <$> xs) =
  Float <$> omap known_value (Float <$> xs).
Proof.
  induction xs as [|x xs IH]; [done|].
  rewrite fmap_cons, filter_cons. cbn [omap list_omap known_value].
  destruct x as [q|b|]; cbn [notna].
  - rewrite decide_True by done. by rewrite IH.
  - rewrite decide_True by done. by rewrite IH.
  - rewrite decide_False by done. by rewrite IH.
Qed.

Lemma existsb_notna_floats (xs : list num) :
  existsb notna (Float <$> xs) =
  match omap known_value (Float <$> xs) with
  | [] => false
  | _ => true
  end.
Proof.
  induction xs as [|x xs IH]; [done|].
  rewrite fmap_cons. cbn [existsb omap list_omap known_value].
  destruct x as [q|b|]; cbn [notna orb]; done.
Qed.

Lemma existsb_notna_lookup col k v :
  existsb notna col = false → col !! k = Some v → notna v = false.
Proof.
  intros Hex Hk. apply not_true_iff_false. intros Hv.
  apply not_true_iff_false in Hex. apply Hex.
  apply existsb_exists. exists v. split; [|done].
  apply list_elem_of_In. by eapply list_elem_of_lookup_2.
Qed.

Lemma fallback_value_spec S k :
  k < length (rows S) →
  Forall is_float (column_cells S target) →
  fallback_value S k = Ok (spec_fallback S k).
Proof.
  intros Hk Hfl. unfold fallback_value, spec_fallback, known_targets. fold target.
  rewrite !get_column_cells, loc_cell_cells.
  destruct (has_column S target); [|done]. rewrite !bind_Ok.
  destruct (floats_fmap _ Hfl) as [xs Hxs]. rewrite Hxs.
  destruct (lookup_lt_is_Some_2 (Float <$> xs) k) as [v Hv].
  { rewrite <- Hxs. unfold column_cells. by rewrite length_fmap. }
  rewrite Hv, existsb_notna_floats.
  destruct (omap _ (Float <$> xs)) as [|y ys] eqn:Hknown.
  - pose proof (existsb_notna_floats xs) as Hex. rewrite Hknown in Hex.
    by rewrite (existsb_notna_lookup _ _ _ Hex Hv).
  - rewrite bind_Ok. destruct (notna v); [done|].
    unfold series_mean. rewrite filter_notna_floats, Hknown.
    by rewrite np_mean_fmap, !bind_Ok.
Qed.

Lemma spec_fallback_float S k :
  Forall is_float (column_cells S target) → is_float (spec_fallback S k).
Proof.
  intros Hfl. unfold spec_fallback.
  assert (Hmean : is_float match known_targets S with
                           | [] => zero
                           | _ :: _ => Float (num_mean (known_targets S))
                           end).
  { destruct (known_targets S); by eexists. }
  destruct (has_column S target); [|by destruct (known_targets S); eexists].
  destruct (column_cells S target !! k) as [v|] eqn:Hv;
    [|by destruct (known_targets S); eexists].
  destruct (notna v); [|by destruct (known_targets S); eexists].
  rewrite Forall_forall in Hfl. apply Hfl.
  by eapply list_elem_of_lookup_2.
Qed.

Lemma last7_floats (l : list cell) : Forall is_float l → Forall is_float (last7 l).
Proof. intros H. unfold last7. by apply Forall_drop. Qed.

Lemma iloc_rows_one F k r :
  rows F !! k = Some r →
  iloc_rows F [k] = Ok {| columns := columns F; rows := [r] |}.
Proof. intros H. unfold iloc_rows. cbn [traverse]. by rewrite H. Qed.

(** A prediction is a number whenever the historical targets are. *)
Lemma predict_day_total model fc S k s :
  Forall is_float (column_cells S target) →
  run_inv S k s → k < length (rows S) →
  ∃ p e, predict_day model fc (rs_frame s) k = Ok (p, e) ∧ is_float p.
Proof.
  intros Hfl Hinv Hk. unfold predict_day.
  destruct (lookup_lt_is_Some_2 (rows (rs_frame s)) k) as [r Hr].
  { by rewrite (inv_length _ _ _ Hinv). }
  rewrite (iloc_rows_one _ _ _ Hr), bind_Ok.
  destruct (model _) as [p|e].
  - eexists _, _. split; [done|]. by eexists.
  - rewrite (run_inv_fallback _ _ _ _ Hinv), (fallback_value_spec _ _ Hk Hfl), bind_Ok.
    eexists _, _. split; [done|]. by apply spec_fallback_float.
Qed.

Lemma day_total model fc S k s :
  Forall is_float (column_cells S target) →
  run_inv S k s → k < length (rows S) →
  Forall is_float (rs_predictions s) →
  ∃ s' e, day model fc s k = Ok (s', e) ∧ Forall is_float (rs_predictions s').
Proof.
  intros Hfl Hinv Hk HP. unfold day.
  destruct (predict_day_total model fc S k s Hfl Hinv Hk) as (p & e & -> & [x ->]).
  rewrite bind_Ok. cbn beta iota.
  assert (HP' : Forall is_float (rs_predictions s ++ [Float x])).
  { apply Forall_app. split; [done|]. apply Forall_singleton. by eexists. }
  case_bool_decide as Hlast.
  - rewrite (inv_length _ _ _ Hinv) in Hlast.
    destruct (lookup_lt_is_Some_2 (rows (rs_frame s)) (k + 1)) as [r Hr].
    { rewrite (inv_length _ _ _ Hinv). lia. }
    unfold loc_row. rewrite Hr, bind_Ok.
    destruct (floats_fmap (rs_lag_history s)) as [xs Hxs].
    { rewrite (inv_history _ _ _ Hinv). by apply last7_floats, Forall_take. }
    rewrite Hxs, update_lags_floats, bind_Ok. cbn beta iota.
    eexists _, _. split; [done|]. done.
  - eexists _, _. split; [done|]. done.
Qed.

Lemma days_total model fc S k :
  Forall is_float (column_cells S target) →
  k ≤ length (rows S) →
  ∃ s evs,
    days model fc (mkRun S [] []) (seq 0 k) = Ok (s, evs) ∧
    Forall is_float (rs_predictions s).
Proof.
  intros Hfl. induction k as [|k IH]; intros Hk.
  - eexists _, _. split; [done|]. done.
  - destruct IH as (s & evs & Hdays & HP); [lia|].
    pose proof (days_inv _ _ _ _ _ _ (Nat.lt_le_incl _ _ Hk) Hdays) as Hinv.
    destruct (day_total model fc S k s Hfl Hinv Hk HP) as (s' & e & Hday & HP').
    exists s', (evs ++ e). split; [|done].
    rewrite seq_S, days_app, Hdays, bind_Ok. cbn beta iota. cbn [days Nat.add].
    rewrite Hday, !bind_Ok. cbn beta iota. by rewrite app_nil_r.
Qed.

(** A run over numeric historical targets does not fail. *)
Lemma forecast_total model fc f S :
  skeleton f = Ok S →
  Forall is_float (column_cells S target) →
  ∃ F evs, forecast model fc f = Ok (F, evs).
Proof.
  intros HS Hfl. unfold forecast. rewrite HS, bind_Ok.
  destruct (days_total model fc S (length (rows S)) Hfl (Nat.le_refl _))
    as (s & evs & Hdays & _).
  rewrite Hdays, bind_Ok. cbn beta iota.
  pose proof (days_inv _ _ _ _ _ _ (Nat.le_refl _) Hdays) as Hinv.
  unfold set_column.
  rewrite bool_decide_eq_true_2.
  - rewrite bind_Ok. by eexists _, _.
  - by rewrite (inv_predictions _ _ _ Hinv), (inv_length _ _ _ Hinv).
Qed.

(** ** Runs that only allocate *)
Lemma extends_refl w : extends w w [].
Proof. exists []. by rewrite ext_nil. Qed.

Lemma extends_ext w k evs : extends w (ext w k evs) evs.
Proof. by exists k. Qed.

Lemma extends_trans w w1 w2 e1 e2 :
  extends w w1 e1 → extends w1 w2 e2 → extends w w2 (e1 ++ e2).
Proof. intros [k1 ->] [k2 ->]. exists (k1 ++ k2). apply ext_ext. Qed.

Lemma extends_lookup w w' evs l g :
  extends w w' evs → heap w !! l = Some g → heap w' !! l = Some g.
Proof. intros [k ->] H. by apply lookup_ext_old. Qed.

Lemma extends_page w w' evs : extends w w' evs → page w' = page w ++ evs.
Proof. by intros [k ->]. Qed.

Lemma extends_session w w' evs : extends w w' evs → session w' = session w.
Proof. by intros [k ->]. Qed.

Lemma returns_bind (m : M loc) (k : loc → M loc) w r
    (h : DataFrame → result (DataFrame * list event)) :
  returns m w r →
  (∀ l w' F, heap w' !! l = Some F → returns (k l) w' (h F)) →
  returns (l ← m; k l) w
          ('(F, e1) ← r; '(G, e2) ← h F; Ok (G, e1 ++ e2)).
Proof.
  intros Hm Hk. destruct r as [[F e1]|e]; cbn [returns] in Hm.
  - destruct Hm as (l & w1 & Hrun & Hl & Hext). rewrite bind_Ok. cbn beta iota.
    specialize (Hk l w1 F Hl).
    destruct (h F) as [[G e2]|e]; cbn [returns] in Hk |- *.
    + destruct Hk as (l2 & w2 & Hrun2 & Hl2 & Hext2).
      rewrite bind_Ok. cbn beta iota. exists l2, w2.
      rewrite (run_bind_ok _ _ _ _ _ Hrun). eauto using extends_trans.
    + destruct Hk as (w2 & e2 & Hrun2 & Hext2).
      rewrite bind_Raise. exists w2, (e1 ++ e2).
      rewrite (run_bind_ok _ _ _ _ _ Hrun). eauto using extends_trans.
  - destruct Hm as (w1 & e1 & Hrun & Hext). rewrite bind_Raise.
    exists w1, e1. by rewrite (run_bind_raise _ _ _ _ _ Hrun).
Qed.

Lemma df_copy_returns w df f :
  heap w !! df = Some f → returns (df_copy df) w (Ok (f, [])).
Proof.
  intros H. exists (length (heap w) + 0), (ext w [f] []). split_and!.
  - rewrite (run_at_ext (df_copy df) w). by erewrite df_copy_run by hlookup.
  - by rewrite lookup_ext_new.
  - apply extends_ext.
Qed.

Lemma apply_discount_returns w df f d :
  heap w !! df = Some f →
  returns (apply_discount_to_dataframe df d) w
          (f' ← discount_frame f d; Ok (f', [])).
Proof.
  intros H. pose proof (apply_discount_run w df f d H) as Hrun.
  destruct (discount_frame f d) as [f'|e]; rewrite ?bind_Ok, ?bind_Raise.
  - exists (length (heap w) + 0), (ext w [f'] []). split_and!; [done| |].
    + by rewrite lookup_ext_new.
    + apply extends_ext.
  - destruct Hrun as (f'' & Hrun). exists (ext w [f''] []), [].
    split; [done|]. apply extends_ext.
Qed.

Lemma apply_competition_returns w df f adj :
  heap w !! df = Some f →
  returns (apply_competition_scenario df adj) w
          (f' ← competition_frame f adj; Ok (f', [])).
Proof.
  intros H. pose proof (apply_competition_run w df f adj H) as Hrun.
  destruct (competition_frame f adj) as [f'|e]; rewrite ?bind_Ok, ?bind_Raise.
  - exists (length (heap w) + 0), (ext w [f'] []). split_and!; [done| |].
    + by rewrite lookup_ext_new.
    + apply extends_ext.
  - destruct Hrun as (f'' & Hrun). exists (ext w [f''] []), [].
    split; [done|]. apply extends_ext.
Qed.

Lemma simulate_returns w df f model fc d adj :
  heap w !! df = Some f →
  returns (simulate_recursive_predictions df model fc d adj) w
          (forecast model fc f).
Proof.
  intros H.
  pose proof (simulate_recursive_predictions_run w df f model fc d adj H) as Hrun.
  destruct (forecast model fc f) as [[F evs]|e].
  - destruct Hrun as (S & junk & Hrun).
    exists (length (heap w) + 2), (ext w ([f; S; F] ++ junk) evs). split_and!; [done| |].
    + by rewrite lookup_ext_new.
    + apply extends_ext.
  - destruct Hrun as (junk & evs & Hrun). exists (ext w junk evs), evs.
    split; [done|]. apply extends_ext.
Qed.

Lemma simulate_scenario_returns w df f model fc d adj :
  heap w !! df = Some f →
  returns (simulate_scenario df model fc d adj) w
          (scenario_forecast model fc d adj f).
Proof.
  intros H. unfold simulate_scenario.
  pose proof (λ l w' F (Hl : heap w' !! l = Some F),
              returns_bind _
                (λ c, apply_competition_scenario c adj) _ _
                (λ f1, f2 ← competition_frame f1 adj; Ok (f2, []))
                (apply_discount_returns w' l F (inject_Z d) Hl)
                (λ l w' F Hl, apply_competition_returns w' l F _ Hl)) as H1.
  pose proof (returns_bind _ _ _ _ _ (df_copy_returns w df f H) H1) as H2.
  pose proof (returns_bind _
                (λ c, simulate_recursive_predictions c model fc (inject_Z d) adj)
                _ _ (forecast model fc) H2
                (λ l w' F Hl, simulate_returns w' l F _ _ _ _ Hl)) as H3.
  clear H1 H2.
  eapply (eq_rect _ (returns _ w) H3).
  unfold scenario_forecast. rewrite bind_Ok. cbn beta iota.
  destruct (discount_frame f (inject_Z d)) as [f1|e]; rewrite ?bind_Ok, ?bind_Raise;
    [|done]. cbn beta iota. rewrite ?bind_Ok. cbn beta iota.
  destruct (competition_frame f1 adj) as [f2|e]; rewrite ?bind_Ok, ?bind_Raise;
    [|done]. cbn beta iota. rewrite ?bind_Ok. cbn beta iota.
  destruct (forecast model fc f2) as [[F evs]|e]; rewrite ?bind_Ok, ?bind_Raise;
    done.
Qed.

Lemma predict_day_inv model fc F k p e :
  predict_day model fc F k = Ok (p, e) →
  ∃ r,
    rows F !! k = Some r ∧
    match model (resolve {| columns := columns F; rows := [r] |} fc) with
    | Ok v => p = Float (py_max0 v) ∧ e = []
    | Raise ex =>
        fallback_value F k = Ok p ∧
        e = [StWarning (PredictionErrorAtDay (k + 1) ex)]
    end.
Proof.
  unfold predict_day, iloc_rows. cbn [traverse].
  destruct (rows F !! k) as [r|]; rewrite ?bind_Ok, ?bind_Raise; [|done].
  intros H. exists r. split; [done|].
  destruct (model _) as [v|ex].
  - by simplify_eq.
  - destruct (fallback_value F k) as [v|ex']; rewrite ?bind_Ok, ?bind_Raise in H;
      by simplify_eq.
Qed.

(** Every event a run shows is the warning of a prediction failure. *)
Lemma days_events model fc l : ∀ s s' evs,
  days model fc s l = Ok (s', evs) →
  ∀ ev, ev ∈ evs → ∃ day ex, ev = StWarning (PredictionErrorAtDay day ex).
Proof.
  induction l as [|idx l IH]; intros s s' evs Hdays ev Hev.
  - cbn in Hdays. simplify_eq. by apply elem_of_nil in Hev.
  - apply days_cons_inv in Hdays as (s1 & e1 & e2 & Hday & Hdays & ->).
    apply elem_of_app in Hev as [Hev|Hev]; [|by eapply IH].
    apply day_inv in Hday as (pred & Hpred & _).
    apply predict_day_inv in Hpred as (r & _ & Hm).
    destruct (model _) as [v|ex].
    + destruct Hm as [_ ->]. by apply elem_of_nil in Hev.
    + destruct Hm as [_ ->]. apply list_elem_of_singleton in Hev. eauto.
Qed.

Lemma forecast_events model fc f F evs :
  forecast model fc f = Ok (F, evs) →
  ∀ ev, ev ∈ evs → ∃ day ex, ev = StWarning (PredictionErrorAtDay day ex).
Proof.
  intros H. apply forecast_inv in H as (S & s & _ & Hdays & _).
  by eapply days_events.
Qed.

Lemma filter_eq_empty f c p :
  has_column f c = true →
  (∀ r, r ∈ rows f → cell_eq_str p (cell_of r c) = false) →
  filter_eq f c p = Ok {| columns := columns f; rows := [] |}.
Proof.
  intros Hc Hno. unfold filter_eq. rewrite Hc. do 2 f_equal.
  induction (rows f) as [|r rs IH]; [done|].
  rewrite filter_cons, decide_False.
  - apply IH. intros r' Hr'. apply Hno. by right.
  - rewrite Hno; [done|]. by left.
Qed.

Lemma simulate_button_branch_empty w df f p model fc disc sc :
  heap w !! df = Some f →
  has_column f "nombre" = true →
  (∀ r, r ∈ rows f → cell_eq_str p (cell_of r "nombre") = false) →
  simulate_button_branch df p model fc disc sc w =
  (Raise StopException,
   ext w [ {| columns := columns f; rows := [] |};
           {| columns := columns f; rows := [] |} ]
       [StError (NoDataFoundForProduct p)]).
Proof.
  intros H Hc Hno. rewrite (run_at_ext (simulate_button_branch _ _ _ _ _ _) w).
  unfold simulate_button_branch, st_stop.
  rewrite !run_bind.
  erewrite df_filter_eq_run by hlookup. rewrite (filter_eq_empty _ _ _ Hc Hno).
  run_simpl. run_op. run_simpl.
  rewrite run_bind. run_op. run_simpl.
  cbn [rows length]. rewrite bool_decide_eq_true_2 by done.
  rewrite !run_bind. run_op. by run_op.
Qed.

Lemma as_floats_map {A} (a : A → num) (l : list A) :
  as_floats ((λ r, Float (a r)) <$> l) = Ok (a <$> l).
Proof.
  unfold as_floats. induction l as [|x l IH]; [done|].
  rewrite !fmap_cons. cbn [traverse as_float]. by rewrite bind_Ok, IH.
Qed.

Lemma series_mul_scalar_map {A} (a : A → num) (l : list A) k :
  series_mul_scalar ((λ r, Float (a r)) <$> l) k =
  Ok ((λ r, Float (num_mul (a r) (Fin k))) <$> l).
Proof.
  unfold series_mul_scalar. rewrite as_floats_map, bind_Ok.
  by rewrite <- list_fmap_compose.
Qed.

Lemma series_div_map {A} (a b : A → num) (l : list A) :
  series_div ((λ r, Float (a r)) <$> l) ((λ r, Float (b r)) <$> l) =
  Ok ((λ r, Float (num_div (a r) (b r))) <$> l).
Proof.
  unfold series_div. rewrite !as_floats_map, !bind_Ok.
  by rewrite zip_with_fmap_l, zip_with_fmap_r, zip_with_diag.
Qed.

Lemma column_cells_map cols h f c (a : Series → num) :
  (∀ r, r ∈ rows f → cell_of (h r) c = Float (a r)) →
  column_cells (map_rows cols h f) c = (λ r, Float (a r)) <$> rows f.
Proof.
  intros H. unfold column_cells, map_rows; cbn [rows].
  rewrite <- list_fmap_compose. apply list_fmap_ext.
  intros i r Hr. apply H. by eapply list_elem_of_lookup_2.
Qed.

Lemma is_float_cell_of f c r :
  Forall is_float (column_cells f c) → r ∈ rows f →
  cell_of r c = Float (float_of (cell_of r c)).
Proof.
  intros Hfl Hr. rewrite Forall_forall in Hfl.
  destruct (Hfl (cell_of r c)) as [x ->]; [|done].
  unfold column_cells. apply list_elem_of_fmap. eauto.
Qed.

Lemma column_cells_floats f c :
  Forall is_float (column_cells f c) →
  column_cells f c = (λ r, Float (float_of (cell_of r c))) <$> rows f.
Proof.
  intros Hfl. unfold column_cells. apply list_fmap_ext.
  intros i r Hr. eapply is_float_cell_of; [done|].
  by eapply list_elem_of_lookup_2.
Qed.

Lemma set_column_map cols h f c (u : Series → cell) :
  set_column (map_rows cols h f) c (u <$> rows f) =
  Ok (map_rows (add_column cols c) (λ r, <[c := u r]> (h r)) f).
Proof.
  unfold set_column, map_rows; cbn [rows columns].
  rewrite bool_decide_eq_true_2 by (by rewrite !length_fmap).
  do 2 f_equal. by rewrite zip_with_fmap_l, zip_with_fmap_r, zip_with_diag.
Qed.

Lemma set_column_rows f c (u : Series → cell) :
  set_column f c (u <$> rows f) =
  Ok (map_rows (add_column (columns f) c) (λ r, <[c := u r]> r) f).
Proof.
  unfold set_column, map_rows.
  rewrite bool_decide_eq_true_2 by (by rewrite !length_fmap).
  do 2 f_equal. by rewrite zip_with_fmap_r, zip_with_diag.
Qed.

Lemma set_column_scalar_map cols h f c v :
  set_column_scalar (map_rows cols h f) c v =
  map_rows (add_column cols c) (λ r, <[c := v]> (h r)) f.
Proof.
  unfold set_column_scalar, map_rows; cbn [rows columns].
  by rewrite <- list_fmap_compose.
Qed.

Lemma has_column_map cols h f c :
  has_column (map_rows cols h f) c = bool_decide (c ∈ cols).
Proof. done. Qed.

Lemma add_column_new cols c : c ∈ add_column cols c.
Proof. apply add_column_elem. by right. Qed.

Lemma cell_of_insert r c v : cell_of (<[c := v]> r) c = v.
Proof. unfold cell_of. by rewrite lookup_insert_eq. Qed.

Lemma cell_of_insert_ne r c c' v : c ≠ c' → cell_of (<[c := v]> r) c' = cell_of r c'.
Proof. intros H. unfold cell_of. by rewrite lookup_insert_ne. Qed.

(** The ratio step of both transforms, on a frame of changed rows. *)
Lemma ratio_step cols h f pa pb (a b : Series → num) :
  pa ∈ cols → pb ∈ cols →
  (∀ r, r ∈ rows f → cell_of (h r) pa = Float (a r)) →
  (∀ r, r ∈ rows f → cell_of (h r) pb = Float (b r)) →
  (venta ← get_column (map_rows cols h f) pa;
   comp ← get_column (map_rows cols h f) pb;
   ratio ← series_div venta comp;
   set_column (map_rows cols h f) "ratio_precio" ratio) =
  Ok (map_rows (add_column cols "ratio_precio")
        (λ r, <["ratio_precio" := Float (num_div (a r) (b r))]> (h r)) f).
Proof.
  intros Ha Hb Hfa Hfb.
  rewrite !get_column_cells, !has_column_map, !bool_decide_eq_true_2 by done.
  rewrite !bind_Ok.
  rewrite (column_cells_map _ _ _ _ a Hfa), (column_cells_map _ _ _ _ b Hfb).
  rewrite series_div_map, bind_Ok.
  apply (set_column_map cols h f "ratio_precio"
           (λ r, Float (num_div (a r) (b r)))).
Qed.

Lemma discount_frame_rows f d :
  has_column f "precio_base" = true →
  Forall is_float (column_cells f "precio_base") →
  (has_column f "precio_competencia" = true →
   Forall is_float (column_cells f "precio_competencia")) →
  ∃ cols,
    discount_frame f d =
    Ok (map_rows cols
          (discount_row (has_column f "descuento_porcentaje")
                        (has_column f "precio_competencia") d) f).
Proof.
  intros Hbase Hfl Hcomp. unfold discount_frame. rewrite Hbase.
  rewrite get_column_cells, Hbase, bind_Ok.
  rewrite (column_cells_floats _ _ Hfl), series_mul_scalar_map, bind_Ok.
  rewrite set_column_rows, bind_Ok. cbn zeta.
  rewrite has_column_map.
  assert (Hd : bool_decide ("descuento_porcentaje" ∈ add_column (columns f) "precio_venta")
               = has_column f "descuento_porcentaje").
  { apply bool_decide_ext. rewrite add_column_elem. intuition congruence. }
  rewrite Hd. clear Hd.
  destruct (has_column f "descuento_porcentaje") eqn:Hdesc.
  - rewrite set_column_scalar_map, has_column_map.
    assert (Hc : bool_decide ("precio_competencia" ∈
                   add_column (add_column (columns f) "precio_venta")
                              "descuento_porcentaje")
                 = has_column f "precio_competencia").
    { apply bool_decide_ext. rewrite !add_column_elem. intuition congruence. }
    rewrite Hc.
    destruct (has_column f "precio_competencia") eqn:Hcp; [|by eexists].
    eexists. erewrite ratio_step; [reflexivity| | | |].
    + rewrite !add_column_elem. auto.
    + by apply bool_decide_eq_true in Hc.
    + intros r _. rewrite cell_of_insert_ne by done. by rewrite cell_of_insert.
    + intros r Hr. rewrite !cell_of_insert_ne by done.
      apply (is_float_cell_of f); [by apply Hcomp | done].
  - rewrite has_column_map.
    assert (Hc : bool_decide ("precio_competencia" ∈
                   add_column (columns f) "precio_venta")
                 = has_column f "precio_competencia").
    { apply bool_decide_ext. rewrite !add_column_elem. intuition congruence. }
    rewrite Hc.
    destruct (has_column f "precio_competencia") eqn:Hcp; [|by eexists].
    eexists. erewrite ratio_step; [reflexivity| | | |].
    + rewrite !add_column_elem. auto.
    + by apply bool_decide_eq_true in Hc.
    + intros r _. by rewrite cell_of_insert.
    + intros r Hr. rewrite !cell_of_insert_ne by done.
      apply (is_float_cell_of f); [by apply Hcomp | done].
Qed.

Lemma discount_row_venta hd hc d r :
  discount_row hd hc d r !! "precio_venta" =
  Some (Float (num_mul (float_of (cell_of r "precio_base")) (Fin (1 - d / 100)))).
Proof.
  unfold discount_row. destruct hd, hc;
    rewrite ?(lookup_insert_ne _ "ratio_precio"), ?(lookup_insert_ne _ "descuento_porcentaje") by done;
    by rewrite lookup_insert_eq.
Qed.

Lemma discount_row_descuento hc d r :
  discount_row true hc d r !! "descuento_porcentaje" = Some (Float (Fin d)).
Proof.
  unfold discount_row. destruct hc;
    rewrite ?(lookup_insert_ne _ "ratio_precio") by done;
    by rewrite lookup_insert_eq.
Qed.

Lemma discount_row_ratio hd d r :
  discount_row hd true d r !! "ratio_precio" =
  Some (Float (num_div
                 (num_mul (float_of (cell_of r "precio_base")) (Fin (1 - d / 100)))
                 (float_of (cell_of r "precio_competencia")))).
Proof. unfold discount_row. by rewrite lookup_insert_eq. Qed.

Lemma discount_row_other hd hc d r c :
  c ≠ "precio_venta" →
  (hd = true → c ≠ "descuento_porcentaje") →
  (hc = true → c ≠ "ratio_precio") →
  discount_row hd hc d r !! c = r !! c.
Proof.
  intros Hv Hd Hc. unfold discount_row. destruct hd, hc;
    rewrite ?(lookup_insert_ne _ "ratio_precio") by (apply not_eq_sym; auto);
    rewrite ?(lookup_insert_ne _ "descuento_porcentaje") by (apply not_eq_sym; auto);
    by rewrite lookup_insert_ne by (apply not_eq_sym; auto).
Qed.

Lemma simulate_ok_inv w df f model fc d adj l w' :
  heap w !! df = Some f →
  simulate_recursive_predictions df model fc d adj w = (Ok l, w') →
  ∃ F evs,
    forecast model fc f = Ok (F, evs) ∧ heap w' !! l = Some F ∧ extends w w' evs.
Proof.
  intros Hdf Hrun. pose proof (simulate_returns w df f model fc d adj Hdf) as Hret.
  destruct (forecast model fc f) as [[F evs]|e]; cbn [returns] in Hret.
  - destruct Hret as (l' & w'' & Hrun' & Hl & Hext).
    rewrite Hrun in Hrun'. simplify_eq. eauto.
  - destruct Hret as (w'' & evs & Hrun' & _). rewrite Hrun in Hrun'. done.
Qed.

Lemma column_cells_set_column F c vs F' :
  set_column F c vs = Ok F' → column_cells F' c = vs.
Proof.
  unfold set_column. case_bool_decide as Hlen; [|done]. intros [= <-].
  unfold column_cells; cbn [rows]. apply list_eq. intros j.
  rewrite list_lookup_fmap, lookup_zip_with.
  destruct (rows F !! j) as [r|] eqn:Hr; cbn.
  - destruct (vs !! j) as [v|]; cbn; [|done]. by rewrite cell_of_insert.
  - symmetry. apply lookup_ge_None_2. apply lookup_ge_None_1 in Hr. lia.
Qed.

(** The frame a run returns: the loop's last frame with its predictions. *)
Lemma forecast_frame model fc f F evs :
  forecast model fc f = Ok (F, evs) →
  ∃ S s,
    skeleton f = Ok S ∧
    days model fc (mkRun S [] []) (seq 0 (length (rows S))) = Ok (s, evs) ∧
    column_cells F "predicciones" = rs_predictions s ∧
    length (rs_predictions s) = length (rows S) ∧
    ∀ j r, rows (rs_frame s) !! j = Some r →
      ∃ p, rs_predictions s !! j = Some p ∧
           rows F !! j = Some (<["predicciones" := p]> r).
Proof.
  intros H. apply forecast_inv in H as (S & s & HS & Hdays & HF).
  pose proof (days_inv _ _ _ _ _ _ (Nat.le_refl _) Hdays) as Hinv.
  exists S, s. split_and!; try done.
  - by eapply column_cells_set_column.
  - apply (inv_predictions _ _ _ Hinv).
  - intros j r Hr. rewrite (set_column_lookup _ _ _ _ j HF), Hr.
    destruct (lookup_lt_is_Some_2 (rs_predictions s) j) as [p Hp].
    { rewrite (inv_predictions _ _ _ Hinv), <- (inv_length _ _ _ Hinv).
      by eapply lookup_lt_Some. }
    exists p. by rewrite Hp.
Qed.

Lemma days_prefix model fc S s evs k :
  days model fc (mkRun S [] []) (seq 0 (length (rows S))) = Ok (s, evs) →
  k ≤ length (rows S) →
  ∃ sk ek,
    days model fc (mkRun S [] []) (seq 0 k) = Ok (sk, ek) ∧
    run_inv S k sk ∧
    rs_predictions sk = take k (rs_predictions s).
Proof.
  intros Hdays Hk.
  replace (length (rows S)) with (k + (length (rows S) - k)) in Hdays by lia.
  rewrite seq_app in Hdays.
  apply days_app_inv in Hdays as (sk & ek & e' & Hk_days & Hrest & ->).
  pose proof (days_inv _ _ _ _ _ _ Hk Hk_days) as Hinvk.
  apply days_predictions in Hrest as (ps & HP).
  exists sk, ek. split_and!; try done.
  rewrite HP. rewrite take_app_length'; [done|].
  by rewrite (inv_predictions _ _ _ Hinvk).
Qed.

(** Day [k] of a run, for [k ≥ 1]: its row when it is predicted is the
    row of the skeleton, advanced with the prediction of day [k-1] and
    the history up to it, and aligned on the columns; the returned
    frame holds that row with the day's prediction added. *)
Lemma forecast_row model fc f F evs S k :
  forecast model fc f = Ok (F, evs) → skeleton f = Ok S →
  1 ≤ k → k < length (rows S) →
  ∃ sk ek r0 p m pk,
    days model fc (mkRun S [] []) (seq 0 k) = Ok (sk, ek) ∧
    rows S !! k = Some r0 ∧
    column_cells F "predicciones" !! (k - 1) = Some p ∧
    np_mean (last7 (take k (column_cells F "predicciones"))) = Ok m ∧
    rows (rs_frame sk) !! k = Some (reindex (columns S) (lagged_row r0 p m)) ∧
    rows F !! k =
      Some (<["predicciones" := pk]> (reindex (columns S) (lagged_row r0 p m))).
Proof.
  intros HF HS Hk1 Hk.
  apply forecast_frame in HF as (S' & s & HS' & Hdays & HP & _ & Hrows).
  rewrite HS in HS'. simplify_eq.
  pose proof (days_inv _ _ _ _ _ _ (Nat.le_refl _) Hdays) as Hinv.
  destruct (days_prefix _ _ _ _ _ k Hdays) as (sk & ek & Hdk & Hinvk & Htake); [lia|].
  destruct (inv_written _ _ _ Hinvk k) as (r0 & p & m & Hr0 & Hp & Hm & Hrow);
    [lia|done|].
  destruct (inv_written _ _ _ Hinv k) as (r0' & p' & m' & Hr0' & Hp' & Hm' & Hrow');
    [lia|done|].
  rewrite Htake, lookup_take_lt in Hp by lia.
  rewrite Htake, take_take, Nat.min_id in Hm.
  assert (r0' = r0) as -> by congruence.
  assert (p' = p) as -> by congruence.
  assert (m' = m) as -> by congruence.
  destruct (Hrows _ _ Hrow') as (pk & _ & HFk).
  exists sk, ek, r0, p, m, pk. rewrite HP. done.
Qed.

(** A value the predictor gave is recorded clamped, hence non-negative. *)
Lemma py_max0_nonneg (pred : num) : nonneg (Float (py_max0 pred)).
Proof.
  unfold py_max0, num_gt0. destruct pred as [q|[]|]; cbn; try done.
  destruct (q ?= 0)%Q eqn:Hq; cbn; try done.
  apply Qlt_le_weak. by apply Qgt_alt.
Qed.

(** * The properties of the specification *)
(** C10 — [update_lags] edge semantics.  For every row, predicted value
    and history (of numbers): for each distance [d] from 7 down to 2 the
    returned row's [lag_d] is the given row's own [lag_{d-1}] as it was
    before the call, and the shift is skipped ([lag_d] keeps what it
    had, present or absent) when the row has no [lag_{d-1}]; [lag_1] and
    the MA7 field are always written, MA7 with the mean of the updated
    history; every other field is left as it was.  The row is the only
    row the operation takes: the current day's row is not an argument. *)
Theorem update_lags_edge_semantics (row : Series) (x : num) (xs : list num) :
  ∃ row',
    update_lags row (Float x) (Float <$> xs) = Ok (row', Float <$> push7 xs x) ∧
    (∀ d, 2 ≤ d ≤ 7 →
       row' !! lag_col d =
       match row !! lag_col (d - 1) with
       | Some v => Some v
       | None => row !! lag_col d
       end) ∧
    row' !! "unidades_vendidas_lag1" = Some (Float x) ∧
    row' !! "unidades_vendidas_ma7" = Some (Float (num_mean (push7 xs x))) ∧
    (∀ c, (∀ d, 1 ≤ d ≤ 7 → c ≠ lag_col d) → c ≠ "unidades_vendidas_ma7" →
       row' !! c = row !! c).
Proof.
  exists (lagged_row row (Float x) (num_mean (push7 xs x))). split_and!.
  - apply update_lags_floats.
  - intros d Hd. by apply lagged_row_lag.
  - rewrite <- lag_col_1. apply lagged_row_lag1.
  - apply lagged_row_ma7.
  - intros c Hc Hma. by apply lagged_row_other.
Qed.

(** C7 — Feature Resolver contract.  For every frame of rows and every
    required feature list, [prepare_prediction_data] raises nothing and
    returns a frame whose columns are exactly [feature_cols], in that
    order; in each of its rows a required column holds the input row's
    value, or 0 when the input row lacks the column (whatever the
    column's name), and no other column is kept; the input frame, like
    every other frame of the heap, is left as it was. *)
Theorem prepare_prediction_data_contract (w : world) (df : loc) (f : DataFrame)
    (feature_cols : list string) :
  heap w !! df = Some f →
  wf_frame f →
  ∃ X Xf w',
    prepare_prediction_data df feature_cols w = (Ok X, w') ∧
    heap w' !! X = Some Xf ∧
    columns Xf = feature_cols ∧
    length (rows Xf) = length (rows f) ∧
    (∀ i r, rows f !! i = Some r →
       ∃ x, rows Xf !! i = Some x ∧
            ∀ c, x !! c = if decide (c ∈ feature_cols)
                          then Some (default zero (r !! c))
                          else None) ∧
    (∀ l g, heap w !! l = Some g → heap w' !! l = Some g) ∧
    page w' = page w ∧ session w' = session w.
Proof.
  intros Hdf Hwf.
  exists (length (heap w) + 2), (resolve f feature_cols),
    (ext w [fill_missing f feature_cols; resolve f feature_cols;
            resolve f feature_cols] []).
  split_and!.
  - by apply prepare_prediction_data_run.
  - by rewrite lookup_ext_new.
  - done.
  - apply resolve_length.
  - intros i r Hr.
    destruct (resolve_lookup f feature_cols i r Hr) as (x & Hx & Hc).
    exists x. split; [done|]. intros c. rewrite Hc.
    destruct (decide (c ∈ feature_cols)); [|done].
    assert (Hin : r ∈ rows f) by (by eapply list_elem_of_lookup_2).
    destruct (decide (c ∈ columns f)) as [Hcol|Hcol].
    + apply (Hwf r Hin) in Hcol as [v ->]. done.
    + destruct (r !! c) as [v|] eqn:Hv; [|done].
      destruct Hcol. apply (Hwf r Hin). by eexists.
  - intros l g Hl. by apply lookup_ext_old.
  - cbn. apply app_nil_r.
  - done.
Qed.

(** C6 — Competition no-op identity.  For every frame,
    [apply_competition_scenario] with a zero adjustment returns a new
    frame equal to its input, and changes nothing else. *)
Theorem apply_competition_zero_identity (w : world) (df : loc) (f : DataFrame)
    (adj : Q) :
  heap w !! df = Some f →
  (adj == 0)%Q →
  ∃ df' w',
    apply_competition_scenario df adj w = (Ok df', w') ∧
    heap w' !! df' = Some f ∧
    (∀ l g, heap w !! l = Some g → heap w' !! l = Some g) ∧
    page w' = page w ∧ session w' = session w.
Proof.
  intros Hdf Hadj.
  pose proof (apply_competition_run w df f adj Hdf) as Hrun.
  unfold competition_frame in Hrun.
  rewrite (proj2 (Qeq_bool_iff adj 0) Hadj) in Hrun.
  exists (length (heap w) + 0), (ext w [f] []). split_and!.
  - done.
  - by rewrite lookup_ext_new.
  - intros l g Hl. by apply lookup_ext_old.
  - cbn. apply app_nil_r.
  - done.
Qed.

(** C5 — Discount transform.  For every frame whose price cells are
    numbers and every [discount_pct], [apply_discount_to_dataframe]
    returns a new frame.  When the frame has a base-price column, each
    row of it has selling price = base price × (1 − discount_pct/100);
    its discount percentage is [discount_pct] when that column exists;
    its price ratio is selling price / competitor price when the
    competitor-price column exists; and nothing else in the row is
    changed.  When the frame has no base-price column the returned
    frame equals the input.  With base price 100 and [discount_pct] 20
    the selling price is 80 and the ratio 80 / competitor price.  The
    input frame itself is never changed. *)
Theorem apply_discount_transform (w : world) (df : loc) (f : DataFrame) (d : Q) :
  heap w !! df = Some f →
  Forall is_float (column_cells f "precio_base") →
  Forall is_float (column_cells f "precio_competencia") →
  ∃ df' f' w',
    apply_discount_to_dataframe df d w = (Ok df', w') ∧
    heap w' !! df' = Some f' ∧
    (∀ l g, heap w !! l = Some g → heap w' !! l = Some g) ∧
    (has_column f "precio_base" = false → f' = f) ∧
    (has_column f "precio_base" = true →
     length (rows f') = length (rows f) ∧
     ∀ i r, rows f !! i = Some r →
       ∃ r', rows f' !! i = Some r' ∧
         let base := float_of (cell_of r "precio_base") in
         let comp := float_of (cell_of r "precio_competencia") in
         let venta := num_mul base (Fin (1 - d / 100)) in
         r' !! "precio_venta" = Some (Float venta) ∧
         (has_column f "descuento_porcentaje" = true →
          r' !! "descuento_porcentaje" = Some (Float (Fin d))) ∧
         (has_column f "precio_competencia" = true →
          r' !! "ratio_precio" = Some (Float (num_div venta comp))) ∧
         (∀ c, c ≠ "precio_venta" →
               (has_column f "descuento_porcentaje" = true →
                c ≠ "descuento_porcentaje") →
               (has_column f "precio_competencia" = true → c ≠ "ratio_precio") →
               r' !! c = r !! c) ∧
         (base = Fin 100 → d = 20%Q →
          venta = Fin 80 ∧
          (has_column f "precio_competencia" = true →
           r' !! "ratio_precio" = Some (Float (num_div (Fin 80) comp))))).
Proof.
  intros Hdf Hbase Hcomp.
  pose proof (apply_discount_run w df f d Hdf) as Hrun.
  destruct (has_column f "precio_base") eqn:Hb.
  - destruct (discount_frame_rows f d Hb Hbase (λ _, Hcomp)) as [cols Hrows].
    rewrite Hrows in Hrun.
    eexists _, _, _. split; [exact Hrun|]. split_and!.
    + by rewrite lookup_ext_new.
    + intros l g Hl. by apply lookup_ext_old.
    + done.
    + intros _. split; [apply length_fmap|].
      intros i r Hr. eexists. split.
      { unfold map_rows; cbn [rows]. by rewrite list_lookup_fmap, Hr. }
      cbn zeta. split_and!.
      * apply discount_row_venta.
      * intros ->. apply discount_row_descuento.
      * intros ->. apply discount_row_ratio.
      * intros c Hv Hd Hc. by apply discount_row_other.
      * intros H100 ->. rewrite H100. split; [by vm_compute|].
        intros ->. rewrite discount_row_ratio, H100. do 3 f_equal.
  - unfold discount_frame in Hrun. rewrite Hb in Hrun.
    eexists _, _, _. split; [exact Hrun|]. split_and!.
    + by rewrite lookup_ext_new.
    + intros l g Hl. by apply lookup_ext_old.
    + done.
    + done.
Qed.

(** The lags of a run, as the code leaves them.  In every forecast run
    over the date-sorted day series [S], for every day [k ≥ 1]: on day
    [k]'s row, in the loop state in which day [k] is predicted (and in
    the frame the run returns), [lag_1] is the value recorded for day
    [k-1] when the frame has a [lag_1] column; and for every [d] in
    [2,7] whose column the frame has, [lag_d] is the [lag_{d-1}] that
    day [k]'s own row held in the data (or its own [lag_d] when it had
    no [lag_{d-1}]).  The shift loop of [update_lags] is written to
    cascade the lags from day to day, but the day loop hands it the
    next day's row as the data had it, so no recorded value ever
    reaches [lag_2 .. lag_7]. *)
Theorem lag_cascade (w : world) (df : loc) (f : DataFrame) (model : Model)
    (fc : list string) (d adj : Q) (l : loc) (w' : world) :
  heap w !! df = Some f →
  simulate_recursive_predictions df model fc d adj w = (Ok l, w') →
  ∃ S F,
    skeleton f = Ok S ∧ heap w' !! l = Some F ∧
    ∀ k, 1 ≤ k → k < length (rows S) →
      ∃ sk ek rk r0 p pk,
        days model fc (mkRun S [] []) (seq 0 k) = Ok (sk, ek) ∧
        rows (rs_frame sk) !! k = Some rk ∧
        rows F !! k = Some (<["predicciones" := pk]> rk) ∧
        rows S !! k = Some r0 ∧
        column_cells F "predicciones" !! (k - 1) = Some p ∧
        (lag_col 1 ∈ columns S → rk !! lag_col 1 = Some p) ∧
        (∀ dd, 2 ≤ dd ≤ 7 → lag_col dd ∈ columns S →
           rk !! lag_col dd =
           Some (match r0 !! lag_col (dd - 1) with
                 | Some v => v
                 | None => cell_of r0 (lag_col dd)
                 end)).
Proof.
  intros Hdf Hrun.
  destruct (simulate_ok_inv _ _ _ _ _ _ _ _ _ Hdf Hrun) as (F & evs & HF & Hl & _).
  destruct (forecast_inv _ _ _ _ _ HF) as (S & _ & HS & _).
  exists S, F. split_and!; try done.
  intros k Hk1 Hk.
  destruct (forecast_row _ _ _ _ _ _ k HF HS Hk1 Hk)
    as (sk & ek & r0 & p & m & pk & Hdays & Hr0 & Hp & _ & Hrow & HFk).
  exists sk, ek, (reindex (columns S) (lagged_row r0 p m)), r0, p, pk.
  split_and!; try done.
  - intros Hcol. rewrite reindex_lookup, decide_True by done.
    unfold cell_of. by rewrite lagged_row_lag1.
  - intros dd Hdd Hcol. rewrite reindex_lookup, decide_True by done.
    unfold cell_of at 1. rewrite lagged_row_lag by done.
    by destruct (r0 !! lag_col (dd - 1)).
Qed.

(** C8 — Lag-history bound and rolling average.  Each day transition
    ([update_lags]) appends the predicted value to the history and, when
    the length then exceeds 7, drops the oldest entry, so a history of
    at most 7 values stays one; the row it returns carries the mean of
    that history as its rolling average.  Throughout every forecast run
    the history holds at most 7 values: when day [k] is about to be
    predicted it is the 7 most recent of the predictions made for the
    days before [k]; and day [k]'s rolling-average feature, when the
    frame has that column, is the mean of exactly those values, which
    include neither the prediction of day [k] nor a later one. *)
Theorem lag_history_bound_and_rolling_average (w : world) (df : loc)
    (f : DataFrame) (model : Model) (fc : list string) (d adj : Q)
    (l : loc) (w' : world) :
  heap w !! df = Some f →
  simulate_recursive_predictions df model fc d adj w = (Ok l, w') →
  (∀ row p h row' h',
     update_lags row p h = Ok (row', h') →
     h' = (if bool_decide (7 < length (h ++ [p])) then drop 1 (h ++ [p])
           else h ++ [p]) ∧
     (length h ≤ 7 → length h' ≤ 7) ∧
     ∃ m, np_mean h' = Ok m ∧ row' !! "unidades_vendidas_ma7" = Some (Float m)) ∧
  ∃ S F,
    skeleton f = Ok S ∧ heap w' !! l = Some F ∧
    ∀ k, k ≤ length (rows S) →
      ∃ sk ek,
        days model fc (mkRun S [] []) (seq 0 k) = Ok (sk, ek) ∧
        length (rs_lag_history sk) ≤ 7 ∧
        rs_lag_history sk =
          last7 (take (min k (length (rows S) - 1)) (column_cells F "predicciones")) ∧
        (1 ≤ k → k < length (rows S) →
         "unidades_vendidas_ma7" ∈ columns S →
         ∃ rk m,
           rows (rs_frame sk) !! k = Some rk ∧
           np_mean (last7 (take k (column_cells F "predicciones"))) = Ok m ∧
           rk !! "unidades_vendidas_ma7" = Some (Float m)).
Proof.
  intros Hdf Hrun. split.
  { intros row p h row' h' Hup.
    apply update_lags_inv in Hup as (-> & m & Hm & ->).
    split_and!; [done|apply push7_length|].
    exists m. split; [done|]. apply lagged_row_ma7. }
  destruct (simulate_ok_inv _ _ _ _ _ _ _ _ _ Hdf Hrun) as (F & evs & HF & Hl & _).
  destruct (forecast_frame _ _ _ _ _ HF) as (S & s & HS & Hdays & HP & _).
  exists S, F. split_and!; try done.
  intros k Hk.
  destruct (days_prefix _ _ _ _ _ k Hdays Hk) as (sk & ek & Hdk & Hinvk & Htake).
  exists sk, ek. rewrite HP.
  assert (HH : rs_lag_history sk =
               last7 (take (min k (length (rows S) - 1)) (rs_predictions s))).
  { rewrite (inv_history _ _ _ Hinvk), Htake, take_take. do 2 f_equal. lia. }
  split_and!; try done.
  - rewrite HH. apply last7_length.
  - intros Hk1 Hkn Hcol.
    destruct (forecast_row _ _ _ _ _ _ k HF HS Hk1 Hkn)
      as (sk' & ek' & r0 & p & m & pk & Hdays' & _ & _ & Hm & Hrow & _).
    rewrite Hdk in Hdays'. simplify_eq. rewrite HP in Hm.
    eexists _, m. split_and!; try done.
    rewrite reindex_lookup, decide_True by done.
    unfold cell_of. fold ma7_col. by rewrite (lagged_row_ma7 r0 p m).
Qed.


(** C9 — Purity and scenario independence.  [apply_discount_to_dataframe],
    [apply_competition_scenario] and [simulate_recursive_predictions]
    change no frame that exists when they are called (their input
    included): each works on frames it allocates, and what it returns
    is a function of the input frame's contents alone.  Hence running
    scenario A and then scenario B on the same base frame leaves the
    base frame as it was and gives for B the very frame, events or
    exception that running B alone gives. *)
Theorem scenario_independence (w : world) (base : loc) (f : DataFrame)
    (model : Model) (fc : list string) :
  heap w !! base = Some f →
  (∀ d, returns (apply_discount_to_dataframe base d) w
                (f' ← discount_frame f d; Ok (f', []))) ∧
  (∀ adj, returns (apply_competition_scenario base adj) w
                  (f' ← competition_frame f adj; Ok (f', []))) ∧
  (∀ d adj, returns (simulate_recursive_predictions base model fc d adj) w
                    (forecast model fc f)) ∧
  ∀ dA aA dB aB,
    let wA := (simulate_scenario base model fc dA aA w).2 in
    heap wA !! base = Some f ∧
    (∀ l g, heap w !! l = Some g → heap wA !! l = Some g) ∧
    returns (simulate_scenario base model fc dB aB) wA
            (scenario_forecast model fc dB aB f) ∧
    returns (simulate_scenario base model fc dB aB) w
            (scenario_forecast model fc dB aB f).
Proof.
  intros Hdf. split_and!.
  - intros d. by apply apply_discount_returns.
  - intros adj. by apply apply_competition_returns.
  - intros d adj. by apply simulate_returns.
  - intros dA aA dB aB wA.
    assert (Hext : ∃ evs, extends w wA evs).
    { pose proof (simulate_scenario_returns w base f model fc dA aA Hdf) as Hret.
      subst wA. destruct (scenario_forecast model fc dA aA f) as [[F evs]|e];
        cbn [returns] in Hret.
      - destruct Hret as (l & w' & -> & _ & Hext). eauto.
      - destruct Hret as (w' & evs & -> & Hext). eauto. }
    destruct Hext as [evs Hext].
    assert (HA : heap wA !! base = Some f) by (by eapply extends_lookup).
    split_and!.
    + done.
    + intros l g Hl. by eapply extends_lookup.
    + by apply simulate_scenario_returns.
    + by apply simulate_scenario_returns.
Qed.

(** C4 — Empty product selection.  When no row of the data matches the
    requested product, the "Simulate Sales" branch stops before any
    transform or forecast: it shows the one error "No data found for
    product", stores nothing in the session, and allocates only the
    two empty selections, so no prediction series exists.  That report
    is an error, while every event a forecast shows is the warning of a
    prediction failure: the two are never the same event. *)
Theorem empty_selection_is_refused (w : world) (df_inference : loc)
    (f : DataFrame) (selected_product : string) (model : Model)
    (fc : list string) (discount_slider : Z) (scenario : scenario_option) :
  heap w !! df_inference = Some f →
  has_column f "nombre" = true →
  (∀ r, r ∈ rows f → cell_eq_str selected_product (cell_of r "nombre") = false) →
  ∃ w',
    simulate_button_branch df_inference selected_product model fc
      discount_slider scenario w = (Raise StopException, w') ∧
    page w' = page w ++ [StError (NoDataFoundForProduct selected_product)] ∧
    session w' = session w ∧
    (∀ l g, heap w' !! l = Some g → heap w !! l = Some g ∨ rows g = []) ∧
    (∀ model' fc' g F evs,
       forecast model' fc' g = Ok (F, evs) →
       (∀ ev, ev ∈ evs → ∃ day e, ev = StWarning (PredictionErrorAtDay day e)) ∧
       StError (NoDataFoundForProduct selected_product) ∉ evs).
Proof.
  intros Hdf Hc Hno. eexists. split.
  { by apply simulate_button_branch_empty. }
  split_and!; try done.
  - intros l g Hl. cbn [heap ext] in Hl.
    apply lookup_app_Some in Hl as [Hl|[_ Hl]]; [by left|right].
    set (i := l - length (heap w)) in *.
    destruct i as [|[|i]]; cbn in Hl; by simplify_eq.
  - intros model' fc' g F evs HF.
    pose proof (forecast_events _ _ _ _ _ HF) as Hev.
    split; [done|]. intros Hin. apply Hev in Hin as (day & e & Heq). done.
Qed.

Lemma wf_frameb_correct (f : DataFrame) : wf_frameb f = true → wf_frame f.
Proof.
  unfold wf_frameb, wf_frame. rewrite forallb_forall.
  intros Hall r Hr c.
  apply list_elem_of_In, Hall, andb_prop in Hr as [Hcols Hkeys].
  rewrite forallb_forall in Hcols, Hkeys. split.
  - intros [v Hv]. apply elem_of_map_to_list, list_elem_of_In, Hkeys in Hv.
    by apply bool_decide_eq_true in Hv.
  - intros Hc. apply list_elem_of_In, Hcols in Hc.
    by apply bool_decide_eq_true in Hc.
Qed.

(** C2 — Non-negativity does not hold on the fallback path.  The value
    the predictor gives is clamped with [max(0, pred)] before it is
    recorded, so that a predictor answering −3 has 0 recorded; the value
    taken when the predictor raises is recorded as it is.  On a one-day
    series whose historical target is −3, a raising predictor has −3
    recorded as the day's prediction. *)
Theorem fallback_value_is_not_clamped :
  let w := one_frame_world returns_day in
  let failed := simulate_recursive_predictions 0 failing_model [] 0 0 w in
  let answered := simulate_recursive_predictions 0 (constant_model (-3)) [] 0 0 w in
  (∀ pred, nonneg (Float (py_max0 pred))) ∧
  ∃ F F',
    failed.1 = Ok 3 ∧ heap failed.2 !! 3 = Some F ∧
    answered.1 = Ok 3 ∧ heap answered.2 !! 3 = Some F' ∧
    column_cells F' "predicciones" = [Float (Fin 0)] ∧
    column_cells F "predicciones" = [Float (Fin (-3))] ∧
    page failed.2 = [StWarning (PredictionErrorAtDay 1 (Exception "predict failed"))] ∧
    ¬ Forall nonneg (column_cells F "predicciones").
Proof.
  cbv zeta. split; [apply py_max0_nonneg|].
  eexists _, _. split_and!; try (vm_compute; reflexivity).
  intros H. apply Forall_cons in H as [H _]. vm_compute in H. by apply H.
Qed.

(** ** The properties at sample inputs *)

(** The Feature Resolver on [two_days], asked for one column the frame has
    and one it lacks. *)
Lemma prepare_prediction_data_contract_witness :
  let w := one_frame_world two_days in
  let feature_cols := ["unidades_vendidas_lag1"; "precio_base"] in
  heap w !! 0 = Some two_days ∧
  wf_frame two_days ∧
  ∃ X Xf w',
    prepare_prediction_data 0 feature_cols w = (Ok X, w') ∧
    heap w' !! X = Some Xf ∧
    columns Xf = feature_cols ∧
    length (rows Xf) = length (rows two_days) ∧
    (∀ i r, rows two_days !! i = Some r →
       ∃ x, rows Xf !! i = Some x ∧
            ∀ c, x !! c = if decide (c ∈ feature_cols)
                          then Some (default zero (r !! c))
                          else None) ∧
    (∀ l g, heap w !! l = Some g → heap w' !! l = Some g) ∧
    page w' = page w ∧ session w' = session w.
Proof.
  cbv zeta.
  assert (Hwf : wf_frame two_days) by (apply wf_frameb_correct; vm_compute; reflexivity).
  split; [reflexivity|]. split; [exact Hwf|].
  exact (prepare_prediction_data_contract (one_frame_world two_days) 0 two_days
           ["unidades_vendidas_lag1"; "precio_base"] eq_refl Hwf).
Defined.

(** The zero-adjustment scenario on [priced_day]. *)
Lemma apply_competition_zero_identity_witness :
  let w := one_frame_world priced_day in
  heap w !! 0 = Some priced_day ∧
  (0 == 0)%Q ∧
  ∃ df' w',
    apply_competition_scenario 0 0 w = (Ok df', w') ∧
    heap w' !! df' = Some priced_day ∧
    (∀ l g, heap w !! l = Some g → heap w' !! l = Some g) ∧
    page w' = page w ∧ session w' = session w.
Proof.
  cbv zeta. split; [reflexivity|]. split; [reflexivity|].
  exact (apply_competition_zero_identity (one_frame_world priced_day) 0 priced_day
           0 eq_refl (Qeq_refl 0)).
Defined.

(** A discount of 20 on [priced_day], whose base price is 100. *)
Lemma apply_discount_transform_witness :
  let w := one_frame_world priced_day in
  let f := priced_day in
  let d := 20%Q in
  heap w !! 0 = Some f ∧
  Forall is_float (column_cells f "precio_base") ∧
  Forall is_float (column_cells f "precio_competencia") ∧
  ∃ df' f' w',
    apply_discount_to_dataframe 0 d w = (Ok df', w') ∧
    heap w' !! df' = Some f' ∧
    (∀ l g, heap w !! l = Some g → heap w' !! l = Some g) ∧
    (has_column f "precio_base" = false → f' = f) ∧
    (has_column f "precio_base" = true →
     length (rows f') = length (rows f) ∧
     ∀ i r, rows f !! i = Some r →
       ∃ r', rows f' !! i = Some r' ∧
         let base := float_of (cell_of r "precio_base") in
         let comp := float_of (cell_of r "precio_competencia") in
         let venta := num_mul base (Fin (1 - d / 100)) in
         r' !! "precio_venta" = Some (Float venta) ∧
         (has_column f "descuento_porcentaje" = true →
          r' !! "descuento_porcentaje" = Some (Float (Fin d))) ∧
         (has_column f "precio_competencia" = true →
          r' !! "ratio_precio" = Some (Float (num_div venta comp))) ∧
         (∀ c, c ≠ "precio_venta" →
               (has_column f "descuento_porcentaje" = true →
                c ≠ "descuento_porcentaje") →
               (has_column f "precio_competencia" = true → c ≠ "ratio_precio") →
               r' !! c = r !! c) ∧
         (base = Fin 100 → d = 20%Q →
          venta = Fin 80 ∧
          (has_column f "precio_competencia" = true →
           r' !! "ratio_precio" = Some (Float (num_div (Fin 80) comp))))).
Proof.
  cbv zeta.
  assert (Hbase : Forall is_float (column_cells priced_day "precio_base"))
    by (repeat constructor; eexists; reflexivity).
  assert (Hcomp : Forall is_float (column_cells priced_day "precio_competencia"))
    by (repeat constructor; eexists; reflexivity).
  split; [reflexivity|]. split; [exact Hbase|]. split; [exact Hcomp|].
  exact (apply_discount_transform (one_frame_world priced_day) 0 priced_day 20
           eq_refl Hbase Hcomp).
Defined.

(** The forecast of [two_days] with a predictor that answers 1. *)
Lemma lag_cascade_witness :
  let w := one_frame_world two_days in
  let model := constant_model 1 in
  let fc := lag_features in
  let w' := (simulate_recursive_predictions 0 model fc 0 0 w).2 in
  heap w !! 0 = Some two_days ∧
  simulate_recursive_predictions 0 model fc 0 0 w = (Ok 3, w') ∧
  ∃ S F,
    skeleton two_days = Ok S ∧ heap w' !! 3 = Some F ∧
    ∀ k, 1 ≤ k → k < length (rows S) →
      ∃ sk ek rk r0 p pk,
        days model fc (mkRun S [] []) (seq 0 k) = Ok (sk, ek) ∧
        rows (rs_frame sk) !! k = Some rk ∧
        rows F !! k = Some (<["predicciones" := pk]> rk) ∧
        rows S !! k = Some r0 ∧
        column_cells F "predicciones" !! (k - 1) = Some p ∧
        (lag_col 1 ∈ columns S → rk !! lag_col 1 = Some p) ∧
        (∀ dd, 2 ≤ dd ≤ 7 → lag_col dd ∈ columns S →
           rk !! lag_col dd =
           Some (match r0 !! lag_col (dd - 1) with
                 | Some v => v
                 | None => cell_of r0 (lag_col dd)
                 end)).
Proof.
  cbv zeta.
  assert (Hrun : simulate_recursive_predictions 0 (constant_model 1) lag_features
                   0 0 (one_frame_world two_days)
                 = (Ok 3, (simulate_recursive_predictions 0 (constant_model 1)
                             lag_features 0 0 (one_frame_world two_days)).2))
    by (vm_compute; reflexivity).
  split; [reflexivity|]. split; [exact Hrun|].
  exact (lag_cascade (one_frame_world two_days) 0 two_days (constant_model 1)
           lag_features 0 0 3 _ eq_refl Hrun).
Defined.

(** C1 — The lag cascade is not carried from day to day.  The shift
    loop of [update_lags] ("lag_n becomes lag_n+1") works on the row it
    is given, and the day loop gives it a copy of the next day's row as
    the data had it, not the row of the day just predicted.  With two
    days and a predictor that answers 1: day 0's row holds [lag_1] = 5
    and day 1's row holds [lag_1] = 9 in the data; day 1 is predicted
    with [lag_2] = 9, its own stale [lag_1], where the cascade of the
    specification asks for day 0's [lag_1] = 5.  The returned frame
    holds the same values. *)
Lemma lag_cascade_previous_row_counterexample :
  let model := constant_model 1 in
  let run := simulate_recursive_predictions 0 model lag_features
               0 0 (one_frame_world two_days) in
  let S := two_days_sorted in
  skeleton two_days = Ok S ∧
  run.1 = Ok 3 ∧
  frame_cell S 0 (lag_col 1) = Some (Float (Fin 5)) ∧
  frame_cell S 1 (lag_col 1) = Some (Float (Fin 9)) ∧
  match days model lag_features (mkRun S [] []) (seq 0 1) with
  | Ok (s1, _) =>
      frame_cell (rs_frame s1) 0 (lag_col 1) = Some (Float (Fin 5)) ∧
      frame_cell (rs_frame s1) 1 (lag_col 2) = Some (Float (Fin 9)) ∧
      frame_cell (rs_frame s1) 1 (lag_col 2) ≠ frame_cell S 0 (lag_col 1)
  | Raise _ => False
  end ∧
  heap_cell run.2 3 0 (lag_col 1) = Some (Float (Fin 5)) ∧
  heap_cell run.2 3 1 (lag_col 2) = Some (Float (Fin 9)) ∧
  heap_cell run.2 3 1 (lag_col 2) ≠ heap_cell run.2 3 0 (lag_col 1).
Proof.
  cbv zeta. split_and!; try (vm_compute; reflexivity).
  - vm_compute. split_and!; [reflexivity..|]. intros H. discriminate H.
  - vm_compute. intros H. discriminate H.
Qed.

(** The lag history in the forecast of [two_days] with a predictor that
    answers 1. *)
Lemma lag_history_bound_and_rolling_average_witness :
  let w := one_frame_world two_days in
  let model := constant_model 1 in
  let fc := lag_features in
  let w' := (simulate_recursive_predictions 0 model fc 0 0 w).2 in
  heap w !! 0 = Some two_days ∧
  simulate_recursive_predictions 0 model fc 0 0 w = (Ok 3, w') ∧
  (∀ row p h row' h',
     update_lags row p h = Ok (row', h') →
     h' = (if bool_decide (7 < length (h ++ [p])) then drop 1 (h ++ [p])
           else h ++ [p]) ∧
     (length h ≤ 7 → length h' ≤ 7) ∧
     ∃ m, np_mean h' = Ok m ∧ row' !! "unidades_vendidas_ma7" = Some (Float m)) ∧
  ∃ S F,
    skeleton two_days = Ok S ∧ heap w' !! 3 = Some F ∧
    ∀ k, k ≤ length (rows S) →
      ∃ sk ek,
        days model fc (mkRun S [] []) (seq 0 k) = Ok (sk, ek) ∧
        length (rs_lag_history sk) ≤ 7 ∧
        rs_lag_history sk =
          last7 (take (min k (length (rows S) - 1)) (column_cells F "predicciones")) ∧
        (1 ≤ k → k < length (rows S) →
         "unidades_vendidas_ma7" ∈ columns S →
         ∃ rk m,
           rows (rs_frame sk) !! k = Some rk ∧
           np_mean (last7 (take k (column_cells F "predicciones"))) = Ok m ∧
           rk !! "unidades_vendidas_ma7" = Some (Float m)).
Proof.
  cbv zeta.
  assert (Hrun : simulate_recursive_predictions 0 (constant_model 1) lag_features
                   0 0 (one_frame_world two_days)
                 = (Ok 3, (simulate_recursive_predictions 0 (constant_model 1)
                             lag_features 0 0 (one_frame_world two_days)).2))
    by (vm_compute; reflexivity).
  split; [reflexivity|]. split; [exact Hrun|].
  exact (lag_history_bound_and_rolling_average (one_frame_world two_days) 0
           two_days (constant_model 1) lag_features 0 0 3 _ eq_refl Hrun).
Defined.


(** Two scenarios run one after the other on [two_days]. *)
Lemma scenario_independence_witness :
  let w := one_frame_world two_days in
  let base := 0 in
  let f := two_days in
  let model := constant_model 1 in
  let fc := lag_features in
  heap w !! base = Some f ∧
  (∀ d, returns (apply_discount_to_dataframe base d) w
                (f' ← discount_frame f d; Ok (f', []))) ∧
  (∀ adj, returns (apply_competition_scenario base adj) w
                  (f' ← competition_frame f adj; Ok (f', []))) ∧
  (∀ d adj, returns (simulate_recursive_predictions base model fc d adj) w
                    (forecast model fc f)) ∧
  ∀ dA aA dB aB,
    let wA := (simulate_scenario base model fc dA aA w).2 in
    heap wA !! base = Some f ∧
    (∀ l g, heap w !! l = Some g → heap wA !! l = Some g) ∧
    returns (simulate_scenario base model fc dB aB) wA
            (scenario_forecast model fc dB aB f) ∧
    returns (simulate_scenario base model fc dB aB) w
            (scenario_forecast model fc dB aB f).
Proof.
  cbv zeta. split; [reflexivity|].
  exact (scenario_independence (one_frame_world two_days) 0 two_days
           (constant_model 1) lag_features eq_refl).
Defined.

(** The product "Gadget" requested from data that holds only "Widget". *)
Lemma empty_selection_is_refused_witness :
  let w := one_frame_world priced_day in
  let f := priced_day in
  let selected_product := "Gadget" in
  let model := constant_model 1 in
  let fc := lag_features in
  heap w !! 0 = Some f ∧
  has_column f "nombre" = true ∧
  (∀ r, r ∈ rows f → cell_eq_str selected_product (cell_of r "nombre") = false) ∧
  ∃ w',
    simulate_button_branch 0 selected_product model fc 20 Actual w
      = (Raise StopException, w') ∧
    page w' = page w ++ [StError (NoDataFoundForProduct selected_product)] ∧
    session w' = session w ∧
    (∀ l g, heap w' !! l = Some g → heap w !! l = Some g ∨ rows g = []) ∧
    (∀ model' fc' g F evs,
       forecast model' fc' g = Ok (F, evs) →
       (∀ ev, ev ∈ evs → ∃ day e, ev = StWarning (PredictionErrorAtDay day e)) ∧
       StError (NoDataFoundForProduct selected_product) ∉ evs).
Proof.
  cbv zeta.
  assert (Hno : ∀ r, r ∈ rows priced_day →
                  cell_eq_str "Gadget" (cell_of r "nombre") = false)
    by (apply Forall_forall; repeat constructor).
  split; [reflexivity|]. split; [reflexivity|]. split; [exact Hno|].
  exact (empty_selection_is_refused (one_frame_world priced_day) 0 priced_day
           "Gadget" (constant_model 1) lag_features 20 Actual eq_refl eq_refl Hno).
Defined.

(** * Further properties of the program *)
(** ** Date order *)
Lemma insert_by_key_perm x l : insert_by_key x l ≡ₚ x :: l.
Proof.
  induction l as [|y l IH]; cbn [insert_by_key]; [done|].
  destruct (key_leb x.1 y.1); [done|].
  rewrite IH. apply Permutation_swap.
Qed.

Lemma sort_by_key_perm l : sort_by_key l ≡ₚ l.
Proof.
  unfold sort_by_key. induction l as [|x l IH]; cbn [foldr]; [done|].
  by rewrite insert_by_key_perm, IH.
Qed.

Lemma key_leb_total a b : key_leb a b = false → key_leb b a = true.
Proof.
  destruct a as [x|], b as [y|]; cbn; try done.
  intros H. apply bool_decide_eq_false in H. apply bool_decide_eq_true. lia.
Qed.

Lemma key_leb_trans a b c :
  key_leb a b = true → key_leb b c = true → key_leb a c = true.
Proof.
  destruct a as [x|], b as [y|], c as [z|]; cbn; try done.
  rewrite !bool_decide_eq_true. lia.
Qed.

Lemma insert_by_key_sorted x l :
  StronglySorted (λ a b, key_leb a.1 b.1 = true) l →
  StronglySorted (λ a b, key_leb a.1 b.1 = true) (insert_by_key x l).
Proof.
  induction 1 as [|y l Hl IH Hy]; cbn [insert_by_key].
  - repeat constructor.
  - destruct (key_leb x.1 y.1) eqn:Hxy.
    + constructor; [by constructor|]. constructor; [done|].
      eapply Forall_impl; [exact Hy|]. intros z Hz. by eapply key_leb_trans.
    + constructor; [done|].
      rewrite (insert_by_key_perm x l). constructor; [|done].
      by apply key_leb_total.
Qed.

Lemma sort_by_key_sorted l :
  StronglySorted (λ a b, key_leb a.1 b.1 = true) (sort_by_key l).
Proof.
  unfold sort_by_key. induction l as [|x l IH]; cbn [foldr].
  - constructor.
  - by apply insert_by_key_sorted.
Qed.

Lemma traverse_length {A B} (g : A → result B) l l' :
  traverse g l = Ok l' → length l' = length l.
Proof.
  revert l'. induction l as [|x l IH]; intros l'; cbn [traverse].
  - by intros [= <-].
  - destruct (g x) as [y|]; [|done]. rewrite bind_Ok.
    destruct (traverse g l) as [ys|]; [|done]. rewrite bind_Ok.
    intros [= <-]. cbn. f_equal. by apply IH.
Qed.

Lemma traverse_lookup {A B} (g : A → result B) l l' i x :
  traverse g l = Ok l' → l !! i = Some x →
  ∃ y, l' !! i = Some y ∧ g x = Ok y.
Proof.
  revert l' i. induction l as [|a l IH]; intros l' i; cbn [traverse]; [done|].
  destruct (g a) as [y|] eqn:Hy; [|done]. rewrite bind_Ok.
  destruct (traverse g l) as [ys|]; [|done]. rewrite bind_Ok.
  intros [= <-]. destruct i as [|i]; cbn.
  - intros [= <-]. eauto.
  - intros Hi. by apply IH.
Qed.

Lemma time_key_date r k : time_key (cell_of r "fecha") = Ok k → k = date_key r.
Proof.
  unfold date_key. destruct (cell_of r "fecha") as [[| |]| |]; cbn; congruence.
Qed.

(** The date-sorted input holds the rows of the input, in date order. *)
Lemma skeleton_sorted f S :
  skeleton f = Ok S →
  columns S = columns f ∧ rows S ≡ₚ rows f ∧ StronglySorted date_le (rows S).
Proof.
  unfold skeleton, sort_values, get_column.
  destruct (has_column f "fecha"); [|done]. rewrite bind_Ok.
  destruct (traverse time_key _) as [keys|] eqn:Hkeys; [|done]. rewrite bind_Ok.
  intros [= <-]. cbn [columns rows].
  pose proof (traverse_length _ _ _ Hkeys) as Hlen. rewrite length_fmap in Hlen.
  assert (Hzip : Forall (λ x : option Z * Series, x.1 = date_key x.2)
                   (zip keys (rows f))).
  { apply Forall_lookup. intros i [k r] Hi. cbn.
    apply lookup_zip_with_Some in Hi as (k' & r' & [= <- <-] & Hk & Hr).
    destruct (traverse_lookup _ _ _ i (cell_of r "fecha") Hkeys) as (y & Hy & Hty).
    { by rewrite list_lookup_fmap, Hr. }
    apply time_key_date. congruence. }
  split_and!; [done| |].
  - rewrite (sort_by_key_perm (zip keys (rows f))). by rewrite snd_zip by lia.
  - pose proof (sort_by_key_sorted (zip keys (rows f))) as Hs.
    rewrite <- (sort_by_key_perm (zip keys (rows f))) in Hzip.
    revert Hs Hzip. generalize (sort_by_key (zip keys (rows f))).
    induction 1 as [|x l Hl IH Hx]; intros Hall; cbn [fmap list_fmap]; constructor.
    + apply IH. by eapply Forall_inv_tail.
    + apply Forall_fmap, Forall_forall. intros y Hy. unfold date_le. cbn.
      pose proof (Forall_inv Hall) as Hx1.
      pose proof (proj1 (Forall_forall _ _) (Forall_inv_tail Hall) y Hy) as Hy1.
      cbn in Hx1, Hy1. rewrite <- Hx1, <- Hy1.
      by apply (proj1 (Forall_forall _ _) Hx y).
Qed.

(** ** The frame a run returns *)
Lemma run_inv_exogenous S k s c :
  run_inv S k s →
  (∀ d, 1 ≤ d ≤ 7 → c ≠ lag_col d) → c ≠ ma7_col → c ∈ columns S →
  column_cells (rs_frame s) c = column_cells S c.
Proof.
  intros [Hcols Hlen HP HH Hun Hwr] Hlag Hma Hc.
  unfold column_cells. apply list_eq. intros j. rewrite !list_lookup_fmap.
  destruct (decide (j = 0 ∨ k < j)) as [Hj|Hj]; [by rewrite Hun|].
  destruct (decide (j < length (rows S))) as [Hjn|Hjn].
  - destruct (Hwr j) as (r0 & p & m & Hr0 & _ & _ & Hrow); [lia|done|].
    rewrite Hrow, Hr0. cbn [fmap option_fmap option_map]. f_equal.
    rewrite cell_of_reindex by done. unfold cell_of.
    by rewrite lagged_row_other.
  - rewrite !lookup_ge_None_2 by lia. done.
Qed.

Lemma column_cells_set_column_ne G c vs F c' :
  set_column G c vs = Ok F → c' ≠ c → column_cells F c' = column_cells G c'.
Proof.
  intros HF Hne. pose proof HF as HF'. unfold set_column in HF'.
  case_bool_decide as Hlen; [|done]. clear HF'.
  unfold column_cells. apply list_eq. intros j. rewrite !list_lookup_fmap.
  rewrite (set_column_lookup _ _ _ _ j HF).
  destruct (rows G !! j) as [r|] eqn:Hr; [|done].
  destruct (lookup_lt_is_Some_2 vs j) as [v Hv].
  { rewrite Hlen. by eapply lookup_lt_Some. }
  rewrite Hv. cbn. by rewrite cell_of_insert_ne.
Qed.

Lemma set_column_length G c vs F :
  set_column G c vs = Ok F → length (rows F) = length (rows G).
Proof.
  unfold set_column. case_bool_decide as Hlen; [|done]. intros [= <-].
  cbn [rows]. rewrite length_zip_with. lia.
Qed.

(** The frame a forecast returns: the days of the input in date order,
    a prediction for each, the first day's row as it was, and the
    columns that are neither lags nor the rolling average as they were. *)
Lemma forecast_shape model fc f F evs :
  forecast model fc f = Ok (F, evs) →
  ∃ S,
    skeleton f = Ok S ∧
    columns F = add_column (columns f) "predicciones" ∧
    length (rows F) = length (rows f) ∧
    (∀ c, c ∈ columns f → (∀ d, 1 ≤ d ≤ 7 → c ≠ lag_col d) → c ≠ ma7_col →
          c ≠ "predicciones" → column_cells F c = column_cells S c) ∧
    (∀ r0, rows S !! 0 = Some r0 →
           ∃ p, rows F !! 0 = Some (<["predicciones" := p]> r0)).
Proof.
  intros H. pose proof H as H'.
  apply forecast_inv in H as (S & s & HS & Hdays & HF).
  destruct (forecast_frame _ _ _ _ _ H') as (S' & s' & HS' & Hdays' & _ & _ & Hrows).
  rewrite HS in HS'. simplify_eq. rewrite Hdays in Hdays'. simplify_eq.
  pose proof (days_inv _ _ _ _ _ _ (Nat.le_refl _) Hdays) as Hinv.
  destruct (skeleton_sorted _ _ HS) as (Hcols & Hperm & _).
  exists S'. split_and!; try done.
  - by rewrite (set_column_columns _ _ _ _ HF), (inv_columns _ _ _ Hinv), Hcols.
  - by rewrite (set_column_length _ _ _ _ HF), (inv_length _ _ _ Hinv), Hperm.
  - intros c Hc Hlag Hma Hp.
    rewrite (column_cells_set_column_ne _ _ _ _ c HF) by done.
    apply (run_inv_exogenous _ _ _ _ Hinv); try done. by rewrite Hcols.
  - intros r0 Hr0.
    destruct (Hrows 0 r0) as (p & _ & Hp); [|by exists p].
    rewrite (inv_untouched _ _ _ Hinv) by (by left). done.
Qed.

(** ** Runs of a predictor that answers, and the warnings of a run *)
Lemma predict_day_answered model fc S k s :
  (∀ X e, model X ≠ Raise e) →
  run_inv S k s → k < length (rows S) →
  ∃ v, predict_day model fc (rs_frame s) k = Ok (Float (py_max0 v), []).
Proof.
  intros Hok Hinv Hk. unfold predict_day.
  destruct (lookup_lt_is_Some_2 (rows (rs_frame s)) k) as [r Hr].
  { by rewrite (inv_length _ _ _ Hinv). }
  rewrite (iloc_rows_one _ _ _ Hr), bind_Ok.
  destruct (model _) as [v|e] eqn:Hm; [by exists v|]. by destruct (Hok _ _ Hm).
Qed.

Lemma clamped_is_float p : clamped p → is_float p.
Proof. intros [v ->]. by eexists. Qed.

Lemma days_answered model fc S k :
  (∀ X e, model X ≠ Raise e) →
  k ≤ length (rows S) →
  ∃ s,
    days model fc (mkRun S [] []) (seq 0 k) = Ok (s, []) ∧
    Forall clamped (rs_predictions s).
Proof.
  intros Hok. induction k as [|k IH]; intros Hk.
  - eexists. split; [done|]. done.
  - destruct IH as (s & Hdays & HP); [lia|].
    pose proof (days_inv _ _ _ _ _ _ (Nat.lt_le_incl _ _ Hk) Hdays) as Hinv.
    destruct (predict_day_answered model fc S k s Hok Hinv Hk) as [v Hv].
    assert (HP' : Forall clamped (rs_predictions s ++ [Float (py_max0 v)])).
    { apply Forall_app. split; [done|]. apply Forall_singleton. by exists v. }
    assert (Hday : ∃ s', day model fc s k = Ok (s', []) ∧
                         rs_predictions s' = rs_predictions s ++ [Float (py_max0 v)]).
    { unfold day. rewrite Hv, bind_Ok. cbn beta iota.
      case_bool_decide as Hlast.
      - rewrite (inv_length _ _ _ Hinv) in Hlast.
        destruct (lookup_lt_is_Some_2 (rows (rs_frame s)) (k + 1)) as [r Hr].
        { rewrite (inv_length _ _ _ Hinv). lia. }
        unfold loc_row. rewrite Hr, bind_Ok.
        destruct (floats_fmap (rs_lag_history s)) as [xs Hxs].
        { rewrite (inv_history _ _ _ Hinv). apply last7_floats, Forall_take.
          eapply Forall_impl; [exact HP|]. apply clamped_is_float. }
        rewrite Hxs, update_lags_floats, bind_Ok. cbn beta iota.
        by eexists.
      - by eexists. }
    destruct Hday as (s' & Hday & Hs').
    exists s'. split; [|by rewrite Hs'].
    rewrite seq_S, days_app, Hdays, bind_Ok. cbn beta iota. cbn [days Nat.add].
    rewrite Hday, !bind_Ok. cbn beta iota. done.
Qed.

Lemma clamped_nonneg p : clamped p → nonneg p.
Proof. intros [v ->]. apply py_max0_nonneg. Qed.

(** A forecast with a predictor that answers on every input. *)
Lemma forecast_answered model fc f S :
  skeleton f = Ok S →
  (∀ X e, model X ≠ Raise e) →
  ∃ F, forecast model fc f = Ok (F, []) ∧
       Forall nonneg (column_cells F "predicciones").
Proof.
  intros HS Hok. unfold forecast. rewrite HS, bind_Ok.
  destruct (days_answered model fc S (length (rows S)) Hok (Nat.le_refl _))
    as (s & Hdays & HP).
  rewrite Hdays, bind_Ok. cbn beta iota.
  pose proof (days_inv _ _ _ _ _ _ (Nat.le_refl _) Hdays) as Hinv.
  destruct (set_column (rs_frame s) "predicciones" (rs_predictions s))
    as [F|e] eqn:HF.
  - rewrite bind_Ok. exists F. split; [done|].
    rewrite (column_cells_set_column _ _ _ _ HF).
    eapply Forall_impl; [exact HP|]. apply clamped_nonneg.
  - unfold set_column in HF. rewrite bool_decide_eq_true_2 in HF; [done|].
    by rewrite (inv_predictions _ _ _ Hinv), (inv_length _ _ _ Hinv).
Qed.

Lemma days_warnings model fc S k : ∀ s evs,
  k ≤ length (rows S) →
  days model fc (mkRun S [] []) (seq 0 k) = Ok (s, evs) →
  evs = omap (λ j, (λ e, StWarning (PredictionErrorAtDay (j + 1) e))
                     <$> failure_at model fc S j) (seq 0 k).
Proof.
  induction k as [|k IH]; intros s evs Hk Hdays.
  - cbn in Hdays. by simplify_eq.
  - rewrite seq_S in Hdays. cbn [Nat.add] in Hdays.
    apply days_snoc in Hdays as (s1 & e1 & e2 & Hd1 & Hday & ->).
    rewrite seq_S, omap_app. cbn [Nat.add]. f_equal; [by eapply IH; [lia|]|].
    apply day_inv in Hday as (pred & Hpred & _).
    apply predict_day_inv in Hpred as (r & Hr & Hm).
    cbn [omap list_omap]. unfold failure_at. rewrite Hd1, (iloc_rows_one _ _ _ Hr).
    destruct (model _) as [v|ex]; destruct Hm as [_ ->]; done.
Qed.

Lemma forecast_warnings model fc f S F evs :
  skeleton f = Ok S →
  forecast model fc f = Ok (F, evs) →
  evs = warnings_of model fc S.
Proof.
  intros HS H. apply forecast_inv in H as (S' & s & HS' & Hdays & _).
  rewrite HS in HS'. simplify_eq.
  by apply (days_warnings _ _ _ _ _ _ (Nat.le_refl _) Hdays).
Qed.

(** ** The Recursive Forecaster *)
(** X1 — What a forecast returns.  A run of
    [simulate_recursive_predictions] that returns gives a frame with the
    input's days in date order (missing dates last): the input's
    columns with [predicciones] added, as many rows as the input, the
    first day's row as the data gave it, and every input column that is
    neither a lag [lag_1 .. lag_7], nor the rolling average, nor
    [predicciones], cell for cell as in the date-sorted input. *)
Theorem forecast_keeps_days_and_exogenous_columns (w : world) (df : loc)
    (f : DataFrame) (model : Model) (fc : list string) (d adj : Q)
    (l : loc) (w' : world) :
  heap w !! df = Some f →
  simulate_recursive_predictions df model fc d adj w = (Ok l, w') →
  ∃ S F,
    skeleton f = Ok S ∧ heap w' !! l = Some F ∧
    rows S ≡ₚ rows f ∧
    StronglySorted date_le (rows S) ∧
    columns F = add_column (columns f) "predicciones" ∧
    length (rows F) = length (rows f) ∧
    (∀ c, c ∈ columns f → (∀ n, 1 ≤ n ≤ 7 → c ≠ lag_col n) →
          c ≠ "unidades_vendidas_ma7" → c ≠ "predicciones" →
          column_cells F c = column_cells S c) ∧
    (∀ r0, rows S !! 0 = Some r0 →
           ∃ p, rows F !! 0 = Some (<["predicciones" := p]> r0)).
Proof.
  intros Hdf Hrun.
  destruct (simulate_ok_inv _ _ _ _ _ _ _ _ _ Hdf Hrun) as (F & evs & HF & Hl & _).
  destruct (forecast_shape _ _ _ _ _ HF) as (S & HS & Hcols & Hlen & Hex & H0).
  destruct (skeleton_sorted _ _ HS) as (_ & Hperm & Hsorted).
  exists S, F. split_and!; done.
Qed.

(** X2 — A frame without dates.  When the input has no [fecha] column,
    [simulate_recursive_predictions] raises [KeyError('fecha')] from the
    sort: only the copy of the input has been allocated, nothing is
    shown, and the predictor is not asked. *)
Theorem forecast_without_dates_raises (w : world) (df : loc) (f : DataFrame)
    (model : Model) (fc : list string) (d adj : Q) :
  heap w !! df = Some f →
  has_column f "fecha" = false →
  ∃ w',
    simulate_recursive_predictions df model fc d adj w
      = (Raise (KeyError "fecha"), w') ∧
    heap w' = heap w ++ [f] ∧ page w' = page w ∧ session w' = session w.
Proof.
  intros Hdf Hno. exists (ext w [f] []). split_and!; [|done|apply app_nil_r|done].
  rewrite (run_at_ext (simulate_recursive_predictions df model fc d adj) w).
  unfold simulate_recursive_predictions.
  assert (HS : sort_values f "fecha" = Raise (KeyError "fecha")).
  { unfold sort_values, get_column. by rewrite Hno. }
  repeat (progress (rewrite ?run_bind; run_op'; run_simpl; rewrite ?HS; run_simpl)).
  reflexivity.
Qed.

(** X3 — A series of no days.  [simulate_recursive_predictions] does not
    refuse an empty input: when the frame has a [fecha] column and no
    row, the run returns an empty frame with the [predicciones] column
    added, shows nothing, and is the same for every predictor. *)
Theorem forecast_of_no_days (w : world) (df : loc) (f : DataFrame)
    (model : Model) (fc : list string) (d adj : Q) :
  heap w !! df = Some f →
  has_column f "fecha" = true →
  rows f = [] →
  ∃ l w',
    simulate_recursive_predictions df model fc d adj w = (Ok l, w') ∧
    heap w' !! l =
      Some {| columns := add_column (columns f) "predicciones"; rows := [] |} ∧
    (∀ l0 g, heap w !! l0 = Some g → heap w' !! l0 = Some g) ∧
    page w' = page w ∧ session w' = session w.
Proof.
  intros Hdf Hc Hrows.
  pose proof (simulate_returns w df f model fc d adj Hdf) as Hret.
  assert (HF : forecast model fc f =
               Ok ({| columns := add_column (columns f) "predicciones";
                      rows := [] |}, [])).
  { unfold forecast, skeleton, sort_values, get_column.
    rewrite Hc, Hrows. reflexivity. }
  rewrite HF in Hret. destruct Hret as (l & w' & Hrun & Hl & Hext).
  exists l, w'. split_and!; try done.
  - intros l0 g. by apply extends_lookup with (evs := []).
  - rewrite (extends_page _ _ _ Hext). apply app_nil_r.
  - by apply extends_session with (evs := []).
Qed.

(** X4 — A predictor that answers.  When the predictor raises on no
    input and the input can be sorted by date, the run returns, shows no
    warning, and every value it records is non-negative. *)
Theorem answered_forecast_is_silent_and_nonnegative (w : world) (df : loc)
    (f S : DataFrame) (model : Model) (fc : list string) (d adj : Q) :
  heap w !! df = Some f →
  skeleton f = Ok S →
  (∀ X e, model X ≠ Raise e) →
  ∃ l w' F,
    simulate_recursive_predictions df model fc d adj w = (Ok l, w') ∧
    heap w' !! l = Some F ∧
    page w' = page w ∧
    length (column_cells F "predicciones") = length (rows f) ∧
    Forall nonneg (column_cells F "predicciones").
Proof.
  intros Hdf HS Hok.
  destruct (forecast_answered model fc f S HS Hok) as (F & HF & Hnn).
  pose proof (simulate_returns w df f model fc d adj Hdf) as Hret.
  rewrite HF in Hret. destruct Hret as (l & w' & Hrun & Hl & Hext).
  exists l, w', F. split_and!; try done.
  - rewrite (extends_page _ _ _ Hext). apply app_nil_r.
  - destruct (forecast_shape _ _ _ _ _ HF) as (_ & _ & _ & Hlen & _).
    unfold column_cells. by rewrite length_fmap.
Qed.

Lemma warnings_of_length model fc S :
  length (warnings_of model fc S) ≤ length (rows S).
Proof.
  unfold warnings_of.
  assert (H : ∀ l : list nat,
            length (omap (λ k, (λ e, StWarning (PredictionErrorAtDay (k + 1) e))
                                 <$> failure_at model fc S k) l) ≤ length l).
  { induction l as [|k l IH]; cbn [omap list_omap length]; [done|].
    destruct (_ <$> failure_at model fc S k); cbn [length]; lia. }
  etrans; [apply H|]. by rewrite length_seq.
Qed.

(** X5 — The warnings of a run.  A run that returns has shown exactly
    one warning for each day on whose features the predictor raised, in
    day order, with the day counted from 1 and the exception raised;
    so never more warnings than days. *)
Theorem warnings_are_the_failing_days (w : world) (df : loc) (f : DataFrame)
    (model : Model) (fc : list string) (d adj : Q) (l : loc) (w' : world) :
  heap w !! df = Some f →
  simulate_recursive_predictions df model fc d adj w = (Ok l, w') →
  ∃ S,
    skeleton f = Ok S ∧
    page w' = page w ++ warnings_of model fc S ∧
    length (warnings_of model fc S) ≤ length (rows f) ∧
    (∀ k e, StWarning (PredictionErrorAtDay (k + 1) e) ∈ warnings_of model fc S ↔
            k < length (rows f) ∧ failure_at model fc S k = Some e).
Proof.
  intros Hdf Hrun.
  destruct (simulate_ok_inv _ _ _ _ _ _ _ _ _ Hdf Hrun) as (F & evs & HF & Hl & Hext).
  destruct (forecast_inv _ _ _ _ _ HF) as (S & s & HS & _).
  destruct (skeleton_sorted _ _ HS) as (_ & Hperm & _).
  exists S. split_and!; [done| | |].
  - rewrite (extends_page _ _ _ Hext). f_equal. by eapply forecast_warnings.
  - rewrite <- Hperm. apply warnings_of_length.
  - intros k e. unfold warnings_of. rewrite list_elem_of_omap. split.
    + intros (j & Hj & Heq). apply elem_of_seq in Hj.
      destruct (failure_at model fc S j) as [e'|] eqn:Hf; [|done].
      cbn in Heq. injection Heq as Hjk ->.
      assert (j = k) as -> by lia. rewrite <- Hperm. split; [lia|done].
    + intros [Hk Hf]. exists k. rewrite Hf. split; [|done].
      apply elem_of_seq. rewrite Hperm. lia.
Qed.

(** ** The "Simulate Sales" branch *)
Lemma set_session_run s w :
  set_session s w = (Ok (), {| heap := heap w; page := page w; session := Some s |}).
Proof. done. Qed.

(** The branch up to its guard, when the product has rows. *)
Lemma simulate_button_branch_selected w df f p model fc disc sc :
  heap w !! df = Some f →
  has_column f "nombre" = true →
  rows (product_rows f p) ≠ [] →
  simulate_button_branch df p model fc disc sc w =
  (let df_product := length (heap w) + 1 in
   df_product ← apply_discount_to_dataframe df_product (inject_Z disc);
   df_product ← apply_competition_scenario df_product (scenario_adjustment_of sc);
   df_sim ← simulate_recursive_predictions df_product model fc
              (inject_Z disc) (scenario_adjustment_of sc);
   set_session {| ss_df_sim := df_sim;
                  ss_selected_product := p;
                  ss_discount := disc;
                  ss_scenario := sc |})
    (ext w [product_rows f p; product_rows f p] []).
Proof.
  intros H Hc Hne. rewrite (run_at_ext (simulate_button_branch _ _ _ _ _ _) w).
  unfold simulate_button_branch.
  rewrite !run_bind.
  erewrite df_filter_eq_run by hlookup.
  unfold filter_eq. rewrite Hc. fold (product_rows f p).
  run_simpl. run_op. run_simpl.
  rewrite run_bind. run_op. run_simpl.
  rewrite bool_decide_eq_false_2.
  2:{ intros Hlen. by apply nil_length_inv in Hlen. }
  rewrite run_bind, run_ret. cbn zeta. by rewrite !run_bind.
Qed.

(** X6 — The "Simulate Sales" branch on a product that has rows.  The
    branch forecasts the product's rows with the discount and the
    competitor adjustment applied, and stores the resulting frame, the
    product, the discount and the scenario in the session, having shown
    only the forecast's warnings.  When a transform or the forecast
    raises, the exception leaves the branch and the session is as it
    was.  In both cases no frame that existed before, the loaded data
    included, is changed. *)
Theorem simulate_button_stores_the_forecast (w : world) (df_inference : loc)
    (f : DataFrame) (selected_product : string) (model : Model)
    (fc : list string) (discount_slider : Z) (scenario : scenario_option) :
  heap w !! df_inference = Some f →
  has_column f "nombre" = true →
  rows (product_rows f selected_product) ≠ [] →
  match scenario_forecast model fc discount_slider
          (scenario_adjustment_of scenario) (product_rows f selected_product) with
  | Ok (F, evs) =>
      ∃ l w',
        simulate_button_branch df_inference selected_product model fc
          discount_slider scenario w = (Ok (), w') ∧
        session w' = Some {| ss_df_sim := l;
                             ss_selected_product := selected_product;
                             ss_discount := discount_slider;
                             ss_scenario := scenario |} ∧
        heap w' !! l = Some F ∧
        page w' = page w ++ evs ∧
        (∀ l0 g, heap w !! l0 = Some g → heap w' !! l0 = Some g)
  | Raise e =>
      ∃ w' evs,
        simulate_button_branch df_inference selected_product model fc
          discount_slider scenario w = (Raise e, w') ∧
        session w' = session w ∧
        page w' = page w ++ evs ∧
        (∀ l0 g, heap w !! l0 = Some g → heap w' !! l0 = Some g)
  end.
Proof.
  intros Hdf Hc Hne.
  rewrite (simulate_button_branch_selected _ _ _ _ _ _ _ _ Hdf Hc Hne). cbn zeta.
  set (sel := product_rows f selected_product).
  set (w1 := ext w [sel; sel] []).
  assert (Hext1 : extends w w1 []) by apply extends_ext.
  assert (Hl1 : heap w1 !! (length (heap w) + 1) = Some sel).
  { subst w1. by rewrite lookup_ext_new. }
  unfold scenario_forecast.
  pose proof (apply_discount_returns w1 _ sel (inject_Z discount_slider) Hl1) as H1.
  destruct (discount_frame sel (inject_Z discount_slider)) as [f1|e];
    rewrite ?bind_Ok, ?bind_Raise in H1 |- *; cbn [returns] in H1.
  2:{ destruct H1 as (w2 & e2 & Hrun & Hext2).
      pose proof (extends_trans _ _ _ _ _ Hext1 Hext2) as Hext.
      exists w2, e2. rewrite (run_bind_raise _ _ _ _ _ Hrun). split_and!; [done| | |].
      - by eapply extends_session.
      - by rewrite (extends_page _ _ _ Hext).
      - intros l0 g. by eapply extends_lookup. }
  destruct H1 as (l2 & w2 & Hrun2 & Hl2 & Hext2).
  rewrite (run_bind_ok _ _ _ _ _ Hrun2).
  pose proof (extends_trans _ _ _ _ _ Hext1 Hext2) as Hext12.
  pose proof (apply_competition_returns w2 l2 f1 (scenario_adjustment_of scenario) Hl2)
    as H2.
  destruct (competition_frame f1 (scenario_adjustment_of scenario)) as [f2|e];
    rewrite ?bind_Ok, ?bind_Raise in H2 |- *; cbn [returns] in H2.
  2:{ destruct H2 as (w3 & e3 & Hrun & Hext3).
      pose proof (extends_trans _ _ _ _ _ Hext12 Hext3) as Hext.
      exists w3, e3. rewrite (run_bind_raise _ _ _ _ _ Hrun). split_and!; [done| | |].
      - by eapply extends_session.
      - by rewrite (extends_page _ _ _ Hext).
      - intros l0 g. by eapply extends_lookup. }
  destruct H2 as (l3 & w3 & Hrun3 & Hl3 & Hext3).
  rewrite (run_bind_ok _ _ _ _ _ Hrun3).
  pose proof (extends_trans _ _ _ _ _ Hext12 Hext3) as Hext123.
  pose proof (simulate_returns w3 l3 f2 model fc (inject_Z discount_slider)
                (scenario_adjustment_of scenario) Hl3) as H3.
  destruct (forecast model fc f2) as [[F evs]|e]; cbn [returns] in H3.
  2:{ destruct H3 as (w4 & e4 & Hrun & Hext4).
      pose proof (extends_trans _ _ _ _ _ Hext123 Hext4) as Hext.
      exists w4, e4. rewrite (run_bind_raise _ _ _ _ _ Hrun). split_and!; [done| | |].
      - by eapply extends_session.
      - by rewrite (extends_page _ _ _ Hext).
      - intros l0 g. by eapply extends_lookup. }
  destruct H3 as (l4 & w4 & Hrun4 & Hl4 & Hext4).
  pose proof (extends_trans _ _ _ _ _ Hext123 Hext4) as Hext.
  rewrite (run_bind_ok _ _ _ _ _ Hrun4), set_session_run.
  eexists l4, _. split; [reflexivity|]. cbn [session heap page]. split_and!; try done.
  - by rewrite (extends_page _ _ _ Hext).
  - intros l0 g. by eapply extends_lookup.
Qed.

(** ** The competitor adjustment, row by row *)
Ltac elem_now :=
  unfold comp_cols, competition_inputs;
  solve [repeat first [apply list_elem_of_here | apply list_elem_of_further]].

Lemma add_column_old cols c : c ∈ cols → add_column cols c = cols.
Proof. intros H. unfold add_column. by rewrite bool_decide_eq_true_2. Qed.

Lemma map_rows_ext cols h h' f :
  (∀ r, r ∈ rows f → h r = h' r) → map_rows cols h f = map_rows cols h' f.
Proof.
  intros H. unfold map_rows. f_equal. apply list_fmap_ext.
  intros i r Hr. apply H. by eapply list_elem_of_lookup_2.
Qed.

Lemma map_rows_id f : map_rows (columns f) (λ r, r) f = f.
Proof. destruct f as [cols rs]. unfold map_rows; cbn. by rewrite list_fmap_id. Qed.

(** One turn of the loop over the competitor columns, on changed rows. *)
Lemma scale_column_map cols h f col k :
  (col ∈ cols → ∀ r, r ∈ rows f → is_float (cell_of (h r) col)) →
  scale_column k (Ok (map_rows cols h f)) col =
  Ok (map_rows cols
        (λ r, if bool_decide (col ∈ cols)
              then <[col := scale_cell k (h r) col]> (h r)
              else h r) f).
Proof.
  intros Hfl. unfold scale_column. rewrite bind_Ok, has_column_map.
  case_bool_decide as Hc; [|done].
  rewrite get_column_cells, has_column_map, bool_decide_eq_true_2, bind_Ok by done.
  rewrite (column_cells_map _ _ _ _ (λ r, float_of (cell_of (h r) col))).
  2:{ intros r Hr. by destruct (Hfl Hc r Hr) as [x ->]. }
  rewrite series_mul_scalar_map, bind_Ok.
  rewrite (set_column_map cols h f col
             (λ r, Float (num_mul (float_of (cell_of (h r) col)) (Fin k)))).
  by rewrite add_column_old.
Qed.

Lemma competition_frame_rows f adj :
  Qeq_bool adj 0 = false →
  (∀ c, c ∈ competition_inputs → has_column f c = true →
        Forall is_float (column_cells f c)) →
  competition_frame f adj =
  Ok (map_rows (competition_columns (columns f))
        (competition_row (columns f) (1 + adj / 100)) f).
Proof.
  intros Hadj Hfl. unfold competition_frame. rewrite Hadj. cbn zeta.
  set (k := (1 + adj / 100)%Q).
  assert (Hfloat : ∀ c r, c ∈ competition_inputs → c ∈ columns f → r ∈ rows f →
                     cell_of r c = Float (float_of (cell_of r c))).
  { intros c r Hc Hin Hr. apply (is_float_cell_of f); [|done].
    apply Hfl; [done|]. by apply bool_decide_eq_true. }
  assert (Hstep1 :
    (if has_column f "precio_competencia" then
       comp ← get_column f "precio_competencia";
       comp ← series_mul_scalar comp k;
       f0 ← set_column f "precio_competencia" comp;
       if has_column f0 "precio_venta" then
         venta ← get_column f0 "precio_venta";
         comp0 ← get_column f0 "precio_competencia";
         ratio ← series_div venta comp0;
         set_column f0 "ratio_precio" ratio
       else Ok f0
     else Ok f) =
    Ok (map_rows (competition_columns (columns f))
          (λ r,
             let comp := num_mul (float_of (cell_of r "precio_competencia")) (Fin k) in
             let r1 := if bool_decide ("precio_competencia" ∈ columns f)
                       then <["precio_competencia" := Float comp]> r
                       else r in
             if bool_decide ("precio_competencia" ∈ columns f)
                && bool_decide ("precio_venta" ∈ columns f)
             then <["ratio_precio" :=
                      Float (num_div (float_of (cell_of r "precio_venta")) comp)]> r1
             else r1) f)).
  { unfold competition_columns, has_column.
    case_bool_decide as Hc; cbn [andb].
    2:{ by rewrite map_rows_id. }
    fold (has_column f "precio_competencia").
    rewrite get_column_cells. unfold has_column at 1.
    rewrite bool_decide_eq_true_2, bind_Ok by done.
    rewrite (column_cells_floats f "precio_competencia").
    2:{ apply Hfl; [elem_now|by apply bool_decide_eq_true]. }
    rewrite series_mul_scalar_map, bind_Ok, set_column_rows, bind_Ok.
    rewrite (add_column_old _ _ Hc).
    fold (has_column (map_rows (columns f)
                        (λ r, <["precio_competencia" :=
                                  Float (num_mul (float_of (cell_of r "precio_competencia"))
                                           (Fin k))]> r) f) "precio_venta").
    rewrite has_column_map.
    case_bool_decide as Hv; [|done].
    erewrite (ratio_step (columns f) _ f "precio_venta" "precio_competencia"
                (λ r, float_of (cell_of r "precio_venta"))
                (λ r, num_mul (float_of (cell_of r "precio_competencia")) (Fin k)));
      [done|done|done| |].
    - intros r Hr. rewrite cell_of_insert_ne by done.
      apply Hfloat; [elem_now|done|done].
    - intros r Hr. by rewrite cell_of_insert. }
  rewrite Hstep1, bind_Ok. clear Hstep1.
  unfold comp_cols. cbn [foldl].
  assert (Hcols : ∀ c, c ∈ comp_cols →
            (c ∈ competition_columns (columns f) ↔ c ∈ columns f)).
  { intros c Hc. unfold competition_columns.
    destruct (_ && _); [|done]. rewrite add_column_elem.
    split; [|by left]. intros [H| ->]; [done|].
    unfold comp_cols in Hc. rewrite !elem_of_cons, elem_of_nil in Hc.
    by destruct Hc as [Hc|[Hc|[Hc|[]]]]. }
  rewrite scale_column_map.
  2:{ intros Hc r Hr. apply Hcols in Hc; [|elem_now].
      cbn zeta. eexists.
      repeat (case_bool_decide; cbn [andb]); rewrite ?cell_of_insert_ne by done;
        apply Hfloat; first [done | elem_now]. }
  rewrite scale_column_map.
  2:{ intros Hc r Hr. apply Hcols in Hc; [|elem_now].
      cbn zeta. eexists.
      repeat (case_bool_decide; cbn [andb]); rewrite ?cell_of_insert_ne by done;
        apply Hfloat; first [done | elem_now]. }
  rewrite scale_column_map.
  2:{ intros Hc r Hr. apply Hcols in Hc; [|elem_now].
      cbn zeta. eexists.
      repeat (case_bool_decide; cbn [andb]); rewrite ?cell_of_insert_ne by done;
        apply Hfloat; first [done | elem_now]. }
  f_equal. apply map_rows_ext. intros r Hr.
  unfold competition_row, comp_cols. cbn [foldl]. cbn zeta.
  assert (HA : "Amazon" ∈ ["Amazon"; "Decathlon"; "Deporvillage"]) by elem_now.
  assert (HD : "Decathlon" ∈ ["Amazon"; "Decathlon"; "Deporvillage"]) by elem_now.
  assert (HV : "Deporvillage" ∈ ["Amazon"; "Decathlon"; "Deporvillage"]) by elem_now.
  rewrite (bool_decide_ext _ _ (Hcols _ HA)), (bool_decide_ext _ _ (Hcols _ HD)),
    (bool_decide_ext _ _ (Hcols _ HV)).
  done.
Qed.

Ltac row_lookup :=
  repeat first
    [ rewrite lookup_insert_eq
    | rewrite lookup_insert_ne by done
    | rewrite cell_of_insert_ne by done ].

Ltac competition_cases :=
  unfold competition_row, comp_cols, scale_cell; cbn [foldl]; cbn zeta;
  repeat (case_bool_decide; cbn [andb]).

Lemma competition_row_comp cols k r :
  "precio_competencia" ∈ cols →
  competition_row cols k r !! "precio_competencia" =
  Some (scale_cell k r "precio_competencia").
Proof. intros H. competition_cases; row_lookup; done. Qed.

Lemma competition_row_ratio cols k r :
  "precio_competencia" ∈ cols → "precio_venta" ∈ cols →
  competition_row cols k r !! "ratio_precio" =
  Some (Float (num_div (float_of (cell_of r "precio_venta"))
                 (num_mul (float_of (cell_of r "precio_competencia")) (Fin k)))).
Proof. intros H1 H2. competition_cases; row_lookup; done. Qed.

Lemma competition_row_scaled cols k r c :
  c ∈ comp_cols → c ∈ cols →
  competition_row cols k r !! c = Some (scale_cell k r c).
Proof.
  intros Hc Hin. unfold comp_cols in Hc.
  rewrite !elem_of_cons, elem_of_nil in Hc.
  destruct Hc as [->|[->|[->|[]]]]; competition_cases; row_lookup; done.
Qed.

Lemma competition_row_other cols k r c :
  ("precio_competencia" ∈ cols → c ≠ "precio_competencia") →
  ("precio_competencia" ∈ cols → "precio_venta" ∈ cols → c ≠ "ratio_precio") →
  (∀ c', c' ∈ comp_cols → c' ∈ cols → c ≠ c') →
  competition_row cols k r !! c = r !! c.
Proof.
  intros H1 H2 H3.
  assert (HA : "Amazon" ∈ cols → c ≠ "Amazon") by (apply H3; elem_now).
  assert (HD : "Decathlon" ∈ cols → c ≠ "Decathlon") by (apply H3; elem_now).
  assert (HV : "Deporvillage" ∈ cols → c ≠ "Deporvillage") by (apply H3; elem_now).
  clear H3. competition_cases;
    repeat (rewrite lookup_insert_ne by (apply not_eq_sym; auto)); done.
Qed.

(** ** The discount, row by row, with the columns of its result *)
Lemma discount_frame_map f d :
  has_column f "precio_base" = true →
  Forall is_float (column_cells f "precio_base") →
  (has_column f "precio_competencia" = true →
   Forall is_float (column_cells f "precio_competencia")) →
  discount_frame f d =
  Ok (map_rows (discount_columns (columns f))
        (discount_row (has_column f "descuento_porcentaje")
                      (has_column f "precio_competencia") d) f).
Proof.
  intros Hbase Hfl Hcomp.
  destruct (discount_frame_rows f d Hbase Hfl Hcomp) as [cols Hrows].
  rewrite Hrows. do 2 f_equal.
  assert (Hc : columns (map_rows cols
                 (discount_row (has_column f "descuento_porcentaje")
                               (has_column f "precio_competencia") d) f) = cols)
    by done.
  rewrite <- Hc. clear Hc.
  revert Hrows. generalize (map_rows cols
                 (discount_row (has_column f "descuento_porcentaje")
                               (has_column f "precio_competencia") d) f).
  intros f' Hf'. unfold discount_frame in Hf'. rewrite Hbase in Hf'.
  destruct (get_column f "precio_base") as [base|]; [|done].
  rewrite bind_Ok in Hf'.
  destruct (series_mul_scalar base _) as [venta|]; [|done].
  rewrite bind_Ok in Hf'.
  destruct (set_column f "precio_venta" venta) as [f1|] eqn:Hf1; [|done].
  rewrite bind_Ok in Hf'. cbn zeta in Hf'.
  apply set_column_columns in Hf1.
  unfold discount_columns. cbn zeta.
  assert (Hcp : ∀ g, columns g = add_column (columns f) "precio_venta" →
                  has_column g "precio_competencia" =
                  bool_decide ("precio_competencia" ∈
                               add_column (columns f) "precio_venta")).
  { intros g Hg. unfold has_column. by rewrite Hg. }
  destruct (has_column f1 "descuento_porcentaje") eqn:Hd.
  - assert (Hcols : columns (set_column_scalar f1 "descuento_porcentaje"
                               (Float (Fin d))) =
                    add_column (columns f) "precio_venta").
    { cbn [set_column_scalar columns]. rewrite Hf1. apply add_column_old.
      apply bool_decide_eq_true in Hd. by rewrite Hf1 in Hd. }
    rewrite (Hcp _ Hcols) in Hf'.
    destruct (bool_decide _); [|by simplify_eq].
    destruct (get_column _ "precio_venta") as [v|]; [|done]. rewrite bind_Ok in Hf'.
    destruct (get_column _ "precio_competencia") as [c|]; [|done].
    rewrite bind_Ok in Hf'.
    destruct (series_div v c) as [ratio|]; [|done]. rewrite bind_Ok in Hf'.
    apply set_column_columns in Hf'. by rewrite Hf', Hcols.
  - rewrite (Hcp _ Hf1) in Hf'.
    destruct (bool_decide _); [|by simplify_eq].
    destruct (get_column _ "precio_venta") as [v|]; [|done]. rewrite bind_Ok in Hf'.
    destruct (get_column _ "precio_competencia") as [c|]; [|done].
    rewrite bind_Ok in Hf'.
    destruct (series_div v c) as [ratio|]; [|done]. rewrite bind_Ok in Hf'.
    apply set_column_columns in Hf'. by rewrite Hf', Hf1.
Qed.

Lemma discount_columns_elem cols c :
  c ∈ discount_columns cols ↔
  c ∈ cols ∨ c = "precio_venta" ∨
  ("precio_competencia" ∈ cols ∧ c = "ratio_precio").
Proof.
  unfold discount_columns. cbn zeta.
  case_bool_decide as H; rewrite add_column_elem in H;
    rewrite ?add_column_elem.
  - destruct H as [H|H]; [|done]. tauto.
  - split; [tauto|]. intros [?|[?|[? _]]]; tauto.
Qed.

Lemma discount_columns_idem cols :
  discount_columns (discount_columns cols) = discount_columns cols.
Proof.
  unfold discount_columns at 1. cbn zeta.
  rewrite (add_column_old (discount_columns cols) "precio_venta").
  2:{ apply discount_columns_elem. tauto. }
  case_bool_decide as H; [|done].
  apply add_column_old. apply discount_columns_elem.
  apply discount_columns_elem in H as [H|[H|[_ H]]]; [|done|done]. tauto.
Qed.

Lemma discount_row_cell hd hc d r c :
  c ≠ "precio_venta" → c ≠ "descuento_porcentaje" → c ≠ "ratio_precio" →
  cell_of (discount_row hd hc d r) c = cell_of r c.
Proof. intros. unfold cell_of. by rewrite discount_row_other. Qed.

(** A second discount replaces the first. *)
Lemma discount_row_twice hd hc d1 d2 r :
  discount_row hd hc d2 (discount_row hd hc d1 r) = discount_row hd hc d2 r.
Proof.
  unfold discount_row at 1. cbn zeta.
  rewrite !discount_row_cell by done.
  unfold discount_row. cbn zeta.
  apply map_eq. intros c.
  destruct (decide (c = "ratio_precio")) as [->|?];
    [destruct hd, hc; row_lookup; done|].
  destruct (decide (c = "descuento_porcentaje")) as [->|?];
    [destruct hd, hc; row_lookup; done|].
  destruct (decide (c = "precio_venta")) as [->|?];
    destruct hd, hc; row_lookup; done.
Qed.

Lemma Qeq_bool_false a : ¬ (a == 0)%Q → Qeq_bool a 0 = false.
Proof.
  intros H. destruct (Qeq_bool a 0) eqn:E; [|done].
  by apply Qeq_bool_iff in E.
Qed.

Lemma map_rows_map_rows cols cols' h h' f :
  map_rows cols h (map_rows cols' h' f) = map_rows cols (λ r, h (h' r)) f.
Proof. unfold map_rows; cbn [rows]. by rewrite <- list_fmap_compose. Qed.

Lemma column_cells_map_rows cols h f c :
  column_cells (map_rows cols h f) c = (λ r, cell_of (h r) c) <$> rows f.
Proof. unfold column_cells, map_rows; cbn [rows]. by rewrite <- list_fmap_compose. Qed.

Lemma competition_columns_elem cols c :
  c ≠ "ratio_precio" → (c ∈ competition_columns cols ↔ c ∈ cols).
Proof.
  intros Hc. unfold competition_columns. destruct (_ && _); [|done].
  rewrite add_column_elem. tauto.
Qed.

Lemma competition_row_is_float cols k r c :
  c ∈ competition_inputs → c ∈ cols → is_float (cell_of r c) →
  is_float (cell_of (competition_row cols k r) c).
Proof.
  intros Hc Hin Hfl. unfold competition_inputs in Hc.
  rewrite !elem_of_cons, elem_of_nil in Hc. unfold cell_of at 1.
  destruct Hc as [->|[->|[->|[->|[->|[]]]]]].
  - rewrite competition_row_comp by done. by eexists.
  - rewrite competition_row_other; [done|done|done|].
    intros c' Hc'. unfold comp_cols in Hc'.
    rewrite !elem_of_cons, elem_of_nil in Hc'.
    by destruct Hc' as [->|[->|[->|[]]]].
  - rewrite competition_row_scaled by (done || elem_now). by eexists.
  - rewrite competition_row_scaled by (done || elem_now). by eexists.
  - rewrite competition_row_scaled by (done || elem_now). by eexists.
Qed.

(** ** The Scenario Transformer *)
(** X7 — The competitor adjustment.  For a non-zero adjustment and
    numeric price columns, [apply_competition_scenario] returns a new
    frame with as many rows, in which the competitor price, when the
    frame has that column, is multiplied by [1 + adjustment/100]; the
    price ratio, when the frame also has a selling price, is the
    selling price over the adjusted competitor price; each of the
    columns [Amazon], [Decathlon], [Deporvillage] the frame has is
    multiplied by the same factor; and every other cell is as it was.
    The input frame is not changed. *)
Theorem apply_competition_transform (w : world) (df : loc) (f : DataFrame)
    (adj : Q) :
  heap w !! df = Some f →
  ¬ (adj == 0)%Q →
  (∀ c, c ∈ competition_inputs → has_column f c = true →
        Forall is_float (column_cells f c)) →
  ∃ df' f' w',
    apply_competition_scenario df adj w = (Ok df', w') ∧
    heap w' !! df' = Some f' ∧
    (∀ l g, heap w !! l = Some g → heap w' !! l = Some g) ∧
    length (rows f') = length (rows f) ∧
    ∀ i r, rows f !! i = Some r →
      ∃ r', rows f' !! i = Some r' ∧
        let k := Fin (1 + adj / 100) in
        let comp := num_mul (float_of (cell_of r "precio_competencia")) k in
        (has_column f "precio_competencia" = true →
         r' !! "precio_competencia" = Some (Float comp)) ∧
        (has_column f "precio_competencia" = true →
         has_column f "precio_venta" = true →
         r' !! "ratio_precio" =
         Some (Float (num_div (float_of (cell_of r "precio_venta")) comp))) ∧
        (∀ c, c ∈ comp_cols → has_column f c = true →
              r' !! c = Some (Float (num_mul (float_of (cell_of r c)) k))) ∧
        (∀ c, (has_column f "precio_competencia" = true →
               c ≠ "precio_competencia") →
              (has_column f "precio_competencia" = true →
               has_column f "precio_venta" = true → c ≠ "ratio_precio") →
              (∀ c', c' ∈ comp_cols → has_column f c' = true → c ≠ c') →
              r' !! c = r !! c).
Proof.
  intros Hdf Hadj Hfl.
  pose proof (apply_competition_run w df f adj Hdf) as Hrun.
  rewrite (competition_frame_rows f adj (Qeq_bool_false _ Hadj) Hfl) in Hrun.
  eexists _, _, _. split; [exact Hrun|]. split_and!.
  - by rewrite lookup_ext_new.
  - intros l g Hl. by apply lookup_ext_old.
  - apply length_fmap.
  - intros i r Hr. eexists. split.
    { unfold map_rows; cbn [rows]. by rewrite list_lookup_fmap, Hr. }
    cbn zeta. unfold has_column. setoid_rewrite bool_decide_eq_true. split_and!.
    + apply competition_row_comp.
    + apply competition_row_ratio.
    + apply competition_row_scaled.
    + apply competition_row_other.
Qed.

(** X8 — Competitor adjustments compound.  Adjusting a frame that has
    already been adjusted multiplies the adjusted prices again: after
    the adjustments [a] and then [b] (both non-zero) the competitor
    price is ((price × (1 + a/100)) × (1 + b/100)), the price ratio is
    the selling price over that, and the individual competitor columns
    are scaled twice as well.  The first frame is left as it was. *)
Theorem competition_adjustments_compound (w : world) (df : loc) (f : DataFrame)
    (a b : Q) :
  heap w !! df = Some f →
  ¬ (a == 0)%Q → ¬ (b == 0)%Q →
  (∀ c, c ∈ competition_inputs → has_column f c = true →
        Forall is_float (column_cells f c)) →
  ∃ l1 w1 l2 w2 f2,
    apply_competition_scenario df a w = (Ok l1, w1) ∧
    apply_competition_scenario l1 b w1 = (Ok l2, w2) ∧
    heap w2 !! l2 = Some f2 ∧
    heap w2 !! df = Some f ∧
    ∀ i r, rows f !! i = Some r →
      ∃ r2, rows f2 !! i = Some r2 ∧
        let ka := Fin (1 + a / 100) in
        let kb := Fin (1 + b / 100) in
        let comp :=
          num_mul (num_mul (float_of (cell_of r "precio_competencia")) ka) kb in
        (has_column f "precio_competencia" = true →
         r2 !! "precio_competencia" = Some (Float comp)) ∧
        (has_column f "precio_competencia" = true →
         has_column f "precio_venta" = true →
         r2 !! "ratio_precio" =
         Some (Float (num_div (float_of (cell_of r "precio_venta")) comp))) ∧
        (∀ c, c ∈ comp_cols → has_column f c = true →
              r2 !! c =
              Some (Float (num_mul (num_mul (float_of (cell_of r c)) ka) kb))).
Proof.
  intros Hdf Ha Hb Hfl.
  pose proof (apply_competition_run w df f a Hdf) as Hrun1.
  rewrite (competition_frame_rows f a (Qeq_bool_false _ Ha) Hfl) in Hrun1.
  set (f1 := map_rows (competition_columns (columns f))
               (competition_row (columns f) (1 + a / 100)) f) in *.
  assert (Hl1 : heap (ext w [f1] []) !! (length (heap w) + 0) = Some f1)
    by (by rewrite lookup_ext_new).
  assert (Hfl1 : ∀ c, c ∈ competition_inputs → has_column f1 c = true →
                   Forall is_float (column_cells f1 c)).
  { intros c Hc Hin. unfold f1. rewrite column_cells_map_rows.
    apply Forall_fmap, Forall_forall. intros r Hr.
    apply bool_decide_eq_true in Hin. unfold f1 in Hin.
    cbn [map_rows columns] in Hin.
    assert (Hne : c ≠ "ratio_precio").
    { unfold competition_inputs in Hc. rewrite !elem_of_cons, elem_of_nil in Hc.
      by destruct Hc as [->|[->|[->|[->|[->|[]]]]]]. }
    apply (proj1 (competition_columns_elem _ _ Hne)) in Hin.
    change (is_float (cell_of (competition_row (columns f) (1 + a / 100) r) c)).
    apply competition_row_is_float; [done|done|].
    rewrite (is_float_cell_of f c r); [by eexists| |done].
    apply Hfl; [done|]. by apply bool_decide_eq_true. }
  pose proof (apply_competition_run _ _ f1 b Hl1) as Hrun2.
  rewrite (competition_frame_rows f1 b (Qeq_bool_false _ Hb) Hfl1) in Hrun2.
  eexists _, _, _, _, _. split; [exact Hrun1|]. split; [exact Hrun2|]. split_and!.
  - by rewrite lookup_ext_new.
  - by do 2 apply lookup_ext_old.
  - intros i r Hr. eexists. split.
    { unfold f1, map_rows; cbn [rows]. by rewrite !list_lookup_fmap, Hr. }
    cbn zeta. cbn [f1 map_rows columns].
    unfold has_column. setoid_rewrite bool_decide_eq_true. split_and!.
    + intros Hc.
      rewrite competition_row_comp by (by apply competition_columns_elem).
      unfold scale_cell, cell_of at 1. by rewrite competition_row_comp.
    + intros Hc Hv.
      rewrite competition_row_ratio by (by apply competition_columns_elem).
      unfold cell_of at 1 2.
      rewrite competition_row_comp by done.
      rewrite competition_row_other; [done|done|done|].
      intros c' Hc'. unfold comp_cols in Hc'.
      rewrite !elem_of_cons, elem_of_nil in Hc'.
      by destruct Hc' as [->|[->|[->|[]]]].
    + intros c Hc Hin.
      assert (c ≠ "ratio_precio").
      { unfold comp_cols in Hc. rewrite !elem_of_cons, elem_of_nil in Hc.
        by destruct Hc as [->|[->|[->|[]]]]. }
      rewrite competition_row_scaled by (done || by apply competition_columns_elem).
      unfold scale_cell, cell_of at 1. by rewrite competition_row_scaled.
Qed.

Lemma discount_frame_twice f d1 d2 f1 :
  Forall is_float (column_cells f "precio_base") →
  Forall is_float (column_cells f "precio_competencia") →
  discount_frame f d1 = Ok f1 →
  discount_frame f1 d2 = discount_frame f d2.
Proof.
  intros Hbase Hcomp H1.
  destruct (has_column f "precio_base") eqn:Hb.
  2:{ unfold discount_frame in H1. rewrite Hb in H1. by simplify_eq. }
  rewrite (discount_frame_map f d1 Hb Hbase (λ _, Hcomp)) in H1.
  rewrite (discount_frame_map f d2 Hb Hbase (λ _, Hcomp)).
  set (hd := has_column f "descuento_porcentaje") in *.
  set (hc := has_column f "precio_competencia") in *.
  injection H1 as <-.
  assert (Hcells : ∀ c, c ≠ "precio_venta" → c ≠ "descuento_porcentaje" →
                     c ≠ "ratio_precio" →
                     column_cells (map_rows (discount_columns (columns f))
                                     (discount_row hd hc d1) f) c =
                     column_cells f c).
  { intros c H1 H2 H3. rewrite column_cells_map_rows.
    apply list_fmap_ext. intros i r _. by apply discount_row_cell. }
  assert (Hhas : ∀ c, c ≠ "precio_venta" → c ≠ "ratio_precio" →
                   has_column (map_rows (discount_columns (columns f))
                                 (discount_row hd hc d1) f) c =
                   has_column f c).
  { intros c H1 H2. apply bool_decide_ext. cbn [map_rows columns].
    rewrite discount_columns_elem. intuition congruence. }
  rewrite discount_frame_map.
  2:{ by rewrite Hhas. }
  2:{ by rewrite Hcells. }
  2:{ intros _. by rewrite Hcells. }
  rewrite !Hhas by done. fold hd hc.
  rewrite map_rows_map_rows. cbn [map_rows columns].
  rewrite discount_columns_idem. f_equal.
  apply map_rows_ext. intros r _. apply discount_row_twice.
Qed.

(** X9 — A discount replaces an earlier one.  Applying the discount
    [d2] to a frame already discounted by [d1] gives the very frame
    that applying [d2] to the original gives, for numeric price
    columns: the selling price is always computed from the base price. *)
Theorem discount_replaces_an_earlier_discount (w : world) (df : loc)
    (f : DataFrame) (d1 d2 : Q) :
  heap w !! df = Some f →
  Forall is_float (column_cells f "precio_base") →
  Forall is_float (column_cells f "precio_competencia") →
  ∃ l1 w1 l2 w2 l w' F,
    apply_discount_to_dataframe df d1 w = (Ok l1, w1) ∧
    apply_discount_to_dataframe l1 d2 w1 = (Ok l2, w2) ∧
    apply_discount_to_dataframe df d2 w = (Ok l, w') ∧
    heap w2 !! l2 = Some F ∧ heap w' !! l = Some F.
Proof.
  intros Hdf Hbase Hcomp.
  pose proof (apply_discount_run w df f d1 Hdf) as Hrun1.
  pose proof (apply_discount_run w df f d2 Hdf) as Hrun.
  assert (Hok : ∀ d, ∃ g, discount_frame f d = Ok g).
  { intros d. destruct (has_column f "precio_base") eqn:Hb.
    - rewrite (discount_frame_map f d Hb Hbase (λ _, Hcomp)). by eexists.
    - unfold discount_frame. rewrite Hb. by eexists. }
  destruct (Hok d1) as [f1 Hf1]. destruct (Hok d2) as [F HF].
  rewrite Hf1 in Hrun1. rewrite HF in Hrun.
  assert (Hl1 : heap (ext w [f1] []) !! (length (heap w) + 0) = Some f1)
    by (by rewrite lookup_ext_new).
  pose proof (apply_discount_run _ _ f1 d2 Hl1) as Hrun2.
  rewrite (discount_frame_twice f d1 d2 f1 Hbase Hcomp Hf1), HF in Hrun2.
  eexists _, _, _, _, _, _, F.
  split; [exact Hrun1|]. split; [exact Hrun2|]. split; [exact Hrun|].
  by rewrite !lookup_ext_new.
Qed.

(** ** The KPI metrics *)
Lemma calculate_metrics_run w l F :
  heap w !! l = Some F → calculate_metrics l w = (metrics_of F, w).
Proof.
  intros H. unfold calculate_metrics, metrics_of.
  rewrite run_bind, (df_getitem_run w l F "predicciones" H).
  destruct (get_column F "predicciones") as [pred|e] eqn:Hp; [|done].
  rewrite bind_Ok; cbn beta iota.
  rewrite run_bind, run_lift.
  destruct (series_sum pred) as [tu|e]; [|by rewrite ?bind_Raise].
  rewrite !bind_Ok; cbn beta iota.
  rewrite run_bind, (df_getitem_run w l F "predicciones" H), Hp; cbn beta iota.
  rewrite run_bind, (df_getitem_run w l F "precio_venta" H).
  destruct (get_column F "precio_venta") as [venta|e] eqn:Hv;
    [|by rewrite ?bind_Raise].
  rewrite bind_Ok; cbn beta iota.
  rewrite run_bind, run_lift.
  destruct (series_mul pred venta) as [rev|e]; [|by rewrite ?bind_Raise].
  rewrite bind_Ok; cbn beta iota.
  rewrite run_bind, run_lift.
  destruct (series_sum rev) as [tr|e]; [|by rewrite ?bind_Raise].
  rewrite !bind_Ok; cbn beta iota.
  rewrite run_bind, (df_getitem_run w l F "precio_venta" H), Hv; cbn beta iota.
  rewrite run_bind, run_lift.
  destruct (series_mean venta) as [ap|e]; [|by rewrite ?bind_Raise].
  rewrite bind_Ok; cbn beta iota.
  rewrite run_bind, (df_has_column_run w l F "descuento_porcentaje" H).
  cbn beta iota. rewrite run_bind.
  destruct (has_column F "descuento_porcentaje").
  - rewrite run_bind, (df_getitem_run w l F "descuento_porcentaje" H).
    destruct (get_column F "descuento_porcentaje") as [desc|e];
      [|by rewrite ?bind_Raise].
    rewrite bind_Ok, run_lift.
    destruct (series_mean desc) as [ad|e]; [|by rewrite ?bind_Raise].
    by rewrite bind_Ok.
  - by rewrite run_ret, bind_Ok.
Qed.

Lemma num_add_nonneg x y :
  nonneg (Float x) → nonneg (Float y) → nonneg (Float (num_add x y)).
Proof.
  destruct x as [p|[]|], y as [q|[]|]; cbn; try done.
  intros Hp Hq. rewrite Qred_correct.
  apply Qle_trans with (0 + 0)%Q; [by compute|]. by apply Qplus_le_compat.
Qed.

Lemma num_sum_nonneg xs :
  Forall (λ x, nonneg (Float x)) xs → nonneg (Float (num_sum xs)).
Proof.
  unfold num_sum. assert (H0 : nonneg (Float (Fin 0))) by (cbn; apply Qle_refl).
  revert H0. generalize (Fin 0). induction xs as [|x xs IH]; intros acc Hacc Hall.
  - done.
  - inversion_clear Hall as [|? ? Hx Hxs]. cbn [foldl].
    apply IH; [|done]. by apply num_add_nonneg.
Qed.

Lemma nonneg_float c : nonneg c → ∃ x, c = Float x ∧ notna c = true.
Proof. destruct c as [[| |]| |]; cbn; try done; eauto. Qed.

(** The sum of a column of non-negative numbers. *)
Lemma series_sum_nonneg col :
  Forall nonneg col →
  ∃ t, series_sum col = Ok t ∧ nonneg (Float t) ∧
       col = Float <$> (float_of <$> col) ∧ t = num_sum (float_of <$> col).
Proof.
  intros Hnn.
  assert (Hcol : col = Float <$> (float_of <$> col)).
  { rewrite <- list_fmap_compose. rewrite <- (list_fmap_id col) at 1.
    apply list_fmap_ext. intros i c Hc.
    apply (proj1 (Forall_lookup _ _) Hnn) in Hc.
    apply nonneg_float in Hc as (x & -> & _). done. }
  assert (Hfil : filter (λ c, notna c = true) col = col).
  { clear Hcol. induction Hnn as [|c col Hc Hall IH]; [done|].
    rewrite filter_cons. apply nonneg_float in Hc as (x & -> & Hx).
    rewrite decide_True by done. by rewrite IH. }
  exists (num_sum (float_of <$> col)). unfold series_sum. rewrite Hfil.
  split_and!; [|  |done|done].
  - rewrite Hcol at 1. by rewrite as_floats_fmap.
  - apply num_sum_nonneg. apply Forall_fmap. eapply Forall_impl; [exact Hnn|].
    intros c Hc. apply nonneg_float in Hc as Hx. destruct Hx as (x & -> & _). done.
Qed.

Lemma skeleton_column f S c :
  skeleton f = Ok S → column_cells S c ≡ₚ column_cells f c.
Proof.
  intros HS. destruct (skeleton_sorted _ _ HS) as (_ & Hperm & _).
  unfold column_cells. by rewrite Hperm.
Qed.

Lemma as_floats_floats col :
  Forall is_float col → as_floats col = Ok (float_of <$> col).
Proof.
  intros H. destruct (floats_fmap col H) as [xs ->].
  rewrite as_floats_fmap. f_equal. rewrite <- list_fmap_compose.
  rewrite <- (list_fmap_id xs) at 1. by apply list_fmap_ext.
Qed.

Lemma Forall_filter_keep {A} (P Q : A → Prop) `{∀ x, Decision (Q x)} l :
  Forall P l → Forall P (filter Q l).
Proof.
  induction 1 as [|x l Hx Hl IH]; [done|].
  rewrite filter_cons. case_decide; [by constructor|done].
Qed.

Lemma series_sum_floats col :
  Forall is_float col → ∃ t, series_sum col = Ok t.
Proof.
  intros H. unfold series_sum.
  rewrite as_floats_floats by (by apply Forall_filter_keep). by eexists.
Qed.

Lemma series_mean_floats col :
  Forall is_float col → ∃ t, series_mean col = Ok t.
Proof.
  intros H. unfold series_mean, np_mean.
  rewrite as_floats_floats by (by apply Forall_filter_keep). by eexists.
Qed.

Lemma series_mul_floats a b :
  Forall is_float a → Forall is_float b →
  ∃ c, series_mul a b = Ok c ∧ Forall is_float c.
Proof.
  intros Ha Hb. unfold series_mul.
  rewrite !as_floats_floats, !bind_Ok by done.
  eexists. split; [done|].
  apply Forall_lookup. intros i x Hx.
  apply lookup_zip_with_Some in Hx as (p & q & -> & _). by eexists.
Qed.

(** The metrics of a frame whose predictions are non-negative and whose
    prices and discounts are numbers. *)
Lemma metrics_of_nonneg F :
  has_column F "predicciones" = true →
  Forall nonneg (column_cells F "predicciones") →
  has_column F "precio_venta" = true →
  Forall is_float (column_cells F "precio_venta") →
  (has_column F "descuento_porcentaje" = true →
   Forall is_float (column_cells F "descuento_porcentaje")) →
  ∃ m, metrics_of F = Ok m ∧
       total_units m = num_sum (float_of <$> column_cells F "predicciones") ∧
       nonneg (Float (total_units m)) ∧
       (has_column F "descuento_porcentaje" = false → avg_discount m = Fin 0).
Proof.
  intros Hp Hnn Hv Hfl Hd. unfold metrics_of.
  rewrite !get_column_cells, Hp, Hv, bind_Ok.
  destruct (series_sum_nonneg _ Hnn) as (t & Ht & Htnn & Hcol & ->).
  rewrite Ht, !bind_Ok.
  assert (Hpf : Forall is_float (column_cells F "predicciones")).
  { rewrite Hcol. apply Forall_is_float_fmap. }
  destruct (series_mul_floats _ _ Hpf Hfl) as (rev & -> & Hrev). rewrite bind_Ok.
  destruct (series_sum_floats _ Hrev) as (tr & ->). rewrite !bind_Ok.
  destruct (series_mean_floats _ Hfl) as (ap & ->). rewrite bind_Ok.
  destruct (has_column F "descuento_porcentaje") eqn:Hdesc.
  - rewrite bind_Ok.
    destruct (series_mean_floats _ (Hd eq_refl)) as (ad & ->). rewrite bind_Ok.
    eexists. split; [done|]. cbn. done.
  - rewrite bind_Ok. eexists. split; [done|]. cbn. done.
Qed.

Lemma metrics_of_missing F :
  (has_column F "predicciones" = false →
   metrics_of F = Raise (KeyError "predicciones")) ∧
  (has_column F "predicciones" = true →
   Forall is_float (column_cells F "predicciones") →
   has_column F "precio_venta" = false →
   metrics_of F = Raise (KeyError "precio_venta")).
Proof.
  unfold metrics_of. rewrite !get_column_cells. split.
  - intros Hp. by rewrite Hp.
  - intros Hp Hfl Hv. rewrite Hp, Hv, bind_Ok.
    destruct (series_sum_floats _ Hfl) as (t & ->). by rewrite !bind_Ok.
Qed.

(** X10 — The metrics need both columns.  [calculate_metrics] raises
    [KeyError('predicciones')] on a frame without predictions and, on a
    frame with numeric predictions, [KeyError('precio_venta')] when
    there is no selling-price column; it never changes the state. *)
Theorem calculate_metrics_needs_both_columns (w : world) (l : loc)
    (F : DataFrame) :
  heap w !! l = Some F →
  (has_column F "predicciones" = false →
   calculate_metrics l w = (Raise (KeyError "predicciones"), w)) ∧
  (has_column F "predicciones" = true →
   Forall is_float (column_cells F "predicciones") →
   has_column F "precio_venta" = false →
   calculate_metrics l w = (Raise (KeyError "precio_venta"), w)) ∧
  (calculate_metrics l w).2 = w.
Proof.
  intros H. rewrite (calculate_metrics_run w l F H).
  destruct (metrics_of_missing F) as [H1 H2]. split_and!.
  - intros Hp. by rewrite H1.
  - intros Hp Hfl Hv. by rewrite H2.
  - done.
Qed.

(** X11 — The metrics of a forecast.  After a forecast made by a
    predictor that raises on no input, [calculate_metrics] raises
    [KeyError('precio_venta')] when the input has no selling-price
    column (as when it has no base price for the discount to start
    from); when the input's selling prices (and discounts, if it has
    that column) are numbers, it returns metrics whose total of units
    is the sum of the predictions of all days and is non-negative, and
    whose average discount is 0 when there is no discount column. *)
Theorem metrics_of_an_answered_forecast (w : world) (df : loc)
    (f S : DataFrame) (model : Model) (fc : list string) (d adj : Q) :
  heap w !! df = Some f →
  skeleton f = Ok S →
  (∀ X e, model X ≠ Raise e) →
  ∃ l w' F,
    simulate_recursive_predictions df model fc d adj w = (Ok l, w') ∧
    heap w' !! l = Some F ∧
    (has_column f "precio_venta" = false →
     calculate_metrics l w' = (Raise (KeyError "precio_venta"), w')) ∧
    (has_column f "precio_venta" = true →
     Forall is_float (column_cells f "precio_venta") →
     (has_column f "descuento_porcentaje" = true →
      Forall is_float (column_cells f "descuento_porcentaje")) →
     ∃ m,
       calculate_metrics l w' = (Ok m, w') ∧
       total_units m = num_sum (float_of <$> column_cells F "predicciones") ∧
       nonneg (Float (total_units m)) ∧
       (has_column f "descuento_porcentaje" = false → avg_discount m = Fin 0)).
Proof.
  intros Hdf HS Hok.
  destruct (forecast_answered model fc f S HS Hok) as (F & HF & Hnn).
  pose proof (simulate_returns w df f model fc d adj Hdf) as Hret.
  rewrite HF in Hret. destruct Hret as (l & w' & Hrun & Hl & Hext).
  exists l, w', F. split_and!; try done.
  all: rewrite (calculate_metrics_run w' l F Hl).
  all: destruct (forecast_shape _ _ _ _ _ HF) as (S' & HS' & Hcols & _ & Hex & _).
  all: rewrite HS in HS'; simplify_eq.
  all: assert (Hhas : ∀ c, c ≠ "predicciones" → has_column F c = has_column f c)
         by (intros c Hc; apply bool_decide_ext; rewrite Hcols, add_column_elem;
             tauto).
  all: assert (Hp : has_column F "predicciones" = true)
         by (apply bool_decide_eq_true; rewrite Hcols; apply add_column_new).
  all: assert (Hpf : Forall is_float (column_cells F "predicciones"))
         by (eapply Forall_impl; [exact Hnn|];
             intros c Hc; apply nonneg_float in Hc as (x & -> & _); by eexists).
  - intros Hv. destruct (metrics_of_missing F) as [_ H2].
    rewrite H2; [done|done|done|]. by rewrite Hhas.
  - intros Hv Hfl Hd.
    assert (Hcol : ∀ c, has_column f c = true → c ≠ "predicciones" →
                     (∀ n, 1 ≤ n ≤ 7 → c ≠ lag_col n) → c ≠ ma7_col →
                     Forall is_float (column_cells f c) →
                     Forall is_float (column_cells F c)).
    { intros c Hc Hne Hlag Hma Hc'. rewrite Hex; try done.
      - eapply Permutation_Forall; [|exact Hc'].
        symmetry. by apply skeleton_column.
      - by apply bool_decide_eq_true in Hc. }
    destruct (metrics_of_nonneg F) as (m & Hm & Htu & Htnn & Had); try done.
    + by rewrite Hhas.
    + apply Hcol; try done; intros n _; apply not_eq_sym; label_neq.
    + rewrite Hhas by done. intros Hdesc.
      apply Hcol; try done; try (by apply Hd);
        intros n _; apply not_eq_sym; label_neq.
    + exists m. rewrite Hm. split_and!; try done.
      intros Hdesc. apply Had. by rewrite Hhas.
Qed.

Lemma metrics_of_values F :
  has_column F "predicciones" = true →
  Forall nonneg (column_cells F "predicciones") →
  has_column F "precio_venta" = true →
  Forall is_float (column_cells F "precio_venta") →
  (has_column F "descuento_porcentaje" = true →
   Forall is_float (column_cells F "descuento_porcentaje")) →
  ∃ m, metrics_of F = Ok m ∧
       series_mean (column_cells F "precio_venta") = Ok (avg_price m) ∧
       (has_column F "descuento_porcentaje" = true →
        series_mean (column_cells F "descuento_porcentaje") = Ok (avg_discount m)).
Proof.
  intros Hp Hnn Hv Hfl Hd. unfold metrics_of.
  rewrite !get_column_cells, Hp, Hv, bind_Ok.
  destruct (series_sum_nonneg _ Hnn) as (t & Ht & Htnn & Hcol & ->).
  rewrite Ht, !bind_Ok.
  assert (Hpf : Forall is_float (column_cells F "predicciones")).
  { rewrite Hcol. apply Forall_is_float_fmap. }
  destruct (series_mul_floats _ _ Hpf Hfl) as (rev & -> & Hrev). rewrite bind_Ok.
  destruct (series_sum_floats _ Hrev) as (tr & ->). rewrite !bind_Ok.
  destruct (series_mean_floats _ Hfl) as (ap & Hap). rewrite Hap, bind_Ok.
  destruct (has_column F "descuento_porcentaje") eqn:Hdesc.
  - rewrite bind_Ok.
    destruct (series_mean_floats _ (Hd eq_refl)) as (ad & Had).
    rewrite Had, bind_Ok. eexists. split; [done|]. cbn. done.
  - rewrite bind_Ok. eexists. split; [done|]. cbn. done.
Qed.

(** X12 — The metrics of no days.  On a frame that has the prediction
    and selling-price columns and no row, [calculate_metrics] returns
    0 for both totals and NaN for the average price; the average
    discount is NaN when the frame has a discount column and 0 when it
    has none. *)
Theorem calculate_metrics_of_no_days (w : world) (l : loc) (F : DataFrame) :
  heap w !! l = Some F →
  rows F = [] →
  has_column F "predicciones" = true →
  has_column F "precio_venta" = true →
  calculate_metrics l w =
  (Ok {| total_units := Fin 0;
         total_revenue := Fin 0;
         avg_price := NaN;
         avg_discount :=
           if has_column F "descuento_porcentaje" then NaN else Fin 0 |}, w).
Proof.
  intros H Hrows Hp Hv. rewrite (calculate_metrics_run w l F H).
  unfold metrics_of. rewrite !get_column_cells, Hp, Hv.
  unfold column_cells. rewrite Hrows.
  by destruct (has_column F "descuento_porcentaje").
Qed.

(** The mean of a column that holds the number [d] in every row. *)
Lemma num_sum_constant (d : Q) (n : nat) (a : Q) :
  ∃ q, foldl num_add (Fin a) (replicate n (Fin d)) = Fin q ∧
       (q == a + inject_Z (Z.of_nat n) * d)%Q.
Proof.
  revert a. induction n as [|n IH]; intros a.
  - exists a. split; [done|]. cbn. ring.
  - cbn [replicate foldl num_add].
    destruct (IH (Qred (a + d))) as (q & -> & Hq). exists q. split; [done|].
    rewrite Hq, Qred_correct, Nat2Z.inj_succ. unfold Z.succ.
    rewrite inject_Z_plus. ring.
Qed.

Lemma series_mean_constant (d : Q) (col : list cell) :
  col ≠ [] → Forall (λ c, c = Float (Fin d)) col →
  ∃ q, series_mean col = Ok (Fin q) ∧ (q == d)%Q.
Proof.
  intros Hne Hall.
  assert (Hcol : col = Float <$> replicate (length col) (Fin d)).
  { clear Hne. induction Hall as [|c col -> _ IH]; [done|]. cbn. by rewrite <- IH. }
  assert (Hn : length col ≠ 0) by (by destruct col).
  unfold series_mean, np_mean.
  assert (Hfil : filter (λ c, notna c = true) col = col).
  { clear Hcol Hn Hne. induction Hall as [|c col -> _ IH]; [done|].
    rewrite filter_cons, decide_True by done. by rewrite IH. }
  rewrite Hfil, Hcol, as_floats_fmap, bind_Ok. unfold num_mean, num_sum.
  rewrite length_replicate.
  destruct (num_sum_constant d (length col) 0) as (q & -> & Hq).
  cbn [num_div].
  assert (Hpos : (0 < inject_Z (Z.of_nat (length col)))%Q).
  { unfold Qlt; cbn. lia. }
  destruct (inject_Z (Z.of_nat (length col)) ?= 0)%Q eqn:Hcmp.
  - apply Qeq_alt in Hcmp. rewrite Hcmp in Hpos. by apply Qlt_irrefl in Hpos.
  - apply Qlt_alt in Hcmp. destruct (Qlt_irrefl 0). by eapply Qlt_trans.
  - eexists. split; [done|]. rewrite Qred_correct, Hq. field.
    intros H0. rewrite H0 in Hpos. by apply Qlt_irrefl in Hpos.
Qed.

(** ** The metrics of a scenario *)
Lemma skeleton_map_rows f S cols h :
  skeleton f = Ok S →
  (∀ c, c ∈ columns f → c ∈ cols) →
  (∀ r, r ∈ rows f → cell_of (h r) "fecha" = cell_of r "fecha") →
  ∃ S', skeleton (map_rows cols h f) = Ok S'.
Proof.
  unfold skeleton, sort_values. rewrite !get_column_cells, has_column_map.
  intros HS Hcols Hh.
  destruct (has_column f "fecha") eqn:Hc; [|done].
  apply bool_decide_eq_true in Hc.
  rewrite bool_decide_eq_true_2 by auto. rewrite bind_Ok in HS |- *.
  assert (Hcol : column_cells (map_rows cols h f) "fecha" = column_cells f "fecha").
  { rewrite column_cells_map_rows. apply list_fmap_ext. intros i r Hr.
    apply Hh. by eapply list_elem_of_lookup_2. }
  rewrite Hcol. destruct (traverse time_key _); [|done]. rewrite bind_Ok.
  by eexists.
Qed.

Lemma competition_frame_shape f adj :
  (∀ c, c ∈ competition_inputs → has_column f c = true →
        Forall is_float (column_cells f c)) →
  ∃ cols h,
    competition_frame f adj = Ok (map_rows cols h f) ∧
    (∀ c, c ∈ columns f → c ∈ cols) ∧
    (∀ r c, c ≠ "precio_competencia" → c ≠ "ratio_precio" → c ∉ comp_cols →
            cell_of (h r) c = cell_of r c).
Proof.
  intros Hfl. destruct (Qeq_bool adj 0) eqn:Hadj.
  - exists (columns f), (λ r, r). unfold competition_frame.
    rewrite Hadj, map_rows_id. done.
  - exists (competition_columns (columns f)),
      (competition_row (columns f) (1 + adj / 100)).
    split_and!.
    + by apply competition_frame_rows.
    + intros c Hc. unfold competition_columns.
      destruct (_ && _); [|done]. apply add_column_elem. by left.
    + intros r c H1 H2 H3. unfold cell_of.
      rewrite competition_row_other; [done|done|done|].
      intros c' Hc' _ ->. done.
Qed.

(** X13 — The average discount of a scenario.  One turn of the scenario
    comparison (copy, discount, competitor adjustment, forecast) on
    data with a base price and a discount column, followed by
    [calculate_metrics], reports as average discount the discount of
    the slider: the discount column holds it in every row and neither
    the adjustment nor the forecast touches that column.  (Numeric
    price columns, at least one row, dates that can be sorted, and a
    predictor that raises on no input are assumed.) *)
Theorem scenario_average_discount_is_the_slider (w : world) (df : loc)
    (f S : DataFrame) (model : Model) (fc : list string)
    (discount_slider : Z) (adjustment : Q) :
  heap w !! df = Some f →
  skeleton f = Ok S →
  rows f ≠ [] →
  has_column f "precio_base" = true →
  has_column f "descuento_porcentaje" = true →
  (∀ c, c ∈ price_inputs → has_column f c = true →
        Forall is_float (column_cells f c)) →
  (∀ X e, model X ≠ Raise e) →
  ∃ l w' m q,
    simulate_scenario df model fc discount_slider adjustment w = (Ok l, w') ∧
    calculate_metrics l w' = (Ok m, w') ∧
    avg_discount m = Fin q ∧ (q == inject_Z discount_slider)%Q.
Proof.
  intros Hdf HS Hne Hbase Hdesc Hfl Hok.
  pose proof (simulate_scenario_returns w df f model fc discount_slider
                adjustment Hdf) as Hret.
  set (d := inject_Z discount_slider) in *.
  set (hc := has_column f "precio_competencia").
  set (h1 := discount_row true hc d).
  set (f1 := map_rows (discount_columns (columns f)) h1 f).
  assert (Hf1 : discount_frame f d = Ok f1).
  { pose proof (discount_frame_map f d Hbase) as H. rewrite Hdesc in H.
    apply H.
    - apply Hfl; [|done]. unfold price_inputs. elem_now.
    - apply Hfl. unfold price_inputs. elem_now. }
  assert (Hh1 : ∀ r c, c ≠ "precio_venta" → c ≠ "descuento_porcentaje" →
                  c ≠ "ratio_precio" → cell_of (h1 r) c = cell_of r c).
  { intros r c ???. by apply discount_row_cell. }
  assert (Hfl1 : ∀ c, c ∈ competition_inputs → has_column f1 c = true →
                   Forall is_float (column_cells f1 c)).
  { intros c Hc Hin. unfold f1. rewrite column_cells_map_rows.
    apply Forall_fmap, Forall_forall. intros r Hr.
    change (is_float (cell_of (h1 r) c)).
    apply bool_decide_eq_true in Hin. unfold f1 in Hin.
    cbn [map_rows columns] in Hin. apply discount_columns_elem in Hin.
    unfold competition_inputs in Hc. rewrite !elem_of_cons, elem_of_nil in Hc.
    destruct Hc as [->|[->|[->|[->|[->|[]]]]]].
    - rewrite Hh1 by done. destruct Hin as [Hin|[?|[_ ?]]]; [|done|done].
      rewrite (is_float_cell_of f _ r); [by eexists| |done].
      apply Hfl; [unfold price_inputs; elem_now|by apply bool_decide_eq_true].
    - unfold cell_of, h1. rewrite discount_row_venta. by eexists.
    - rewrite Hh1 by done. destruct Hin as [Hin|[?|[_ ?]]]; [|done|done].
      rewrite (is_float_cell_of f _ r); [by eexists| |done].
      apply Hfl; [unfold price_inputs; elem_now|by apply bool_decide_eq_true].
    - rewrite Hh1 by done. destruct Hin as [Hin|[?|[_ ?]]]; [|done|done].
      rewrite (is_float_cell_of f _ r); [by eexists| |done].
      apply Hfl; [unfold price_inputs; elem_now|by apply bool_decide_eq_true].
    - rewrite Hh1 by done. destruct Hin as [Hin|[?|[_ ?]]]; [|done|done].
      rewrite (is_float_cell_of f _ r); [by eexists| |done].
      apply Hfl; [unfold price_inputs; elem_now|by apply bool_decide_eq_true]. }
  destruct (competition_frame_shape f1 adjustment Hfl1)
    as (cols2 & h2 & Hf2 & Hcols2 & Hh2).
  unfold f1 in Hf2 at 2. rewrite map_rows_map_rows in Hf2.
  set (f2 := map_rows cols2 (λ r, h2 (h1 r)) f) in *.
  assert (Hnot : ∀ c, c = "fecha" ∨ c = "precio_venta" ∨ c = "descuento_porcentaje" →
                   c ≠ "precio_competencia" ∧ c ≠ "ratio_precio" ∧ c ∉ comp_cols).
  { intros c Hc. unfold comp_cols. rewrite !elem_of_cons, elem_of_nil.
    destruct Hc as [ -> | [ -> | -> ] ]; split_and!; try done;
      by intros [?|[?|[?|[]]]]. }
  assert (Hin2 : ∀ c, c ∈ columns f → c ∈ cols2).
  { intros c Hc. apply Hcols2. unfold f1. cbn [map_rows columns].
    apply discount_columns_elem. by left. }
  destruct (skeleton_map_rows f S cols2 (λ r, h2 (h1 r)) HS Hin2) as [S2 HS2].
  { intros r _. destruct (Hnot "fecha") as (?&?&?); [by left|].
    rewrite Hh2 by done. by apply Hh1. }
  fold f2 in HS2.
  destruct (forecast_answered model fc f2 S2 HS2 Hok) as (F & HF & Hnn).
  assert (Hsf : scenario_forecast model fc discount_slider adjustment f = Ok (F, [])).
  { unfold scenario_forecast. fold d. by rewrite Hf1, bind_Ok, Hf2, bind_Ok. }
  rewrite Hsf in Hret. destruct Hret as (l & w' & Hrun & Hl & Hext).
  destruct (forecast_shape _ _ _ _ _ HF) as (S' & HS' & HcolsF & HlenF & Hex & _).
  rewrite HS2 in HS'. simplify_eq.
  assert (Hlen2 : length (rows f2) = length (rows f)) by apply length_fmap.
  assert (Hcol : ∀ c (P : cell → Prop),
            c = "precio_venta" ∨ c = "descuento_porcentaje" →
            c ∈ cols2 →
            (∀ r, P (cell_of (h1 r) c)) →
            has_column F c = true ∧ Forall P (column_cells F c)).
  { intros c P Hc Hin HP.
    destruct (Hnot c) as (?&?&?); [by right|].
    split.
    { apply bool_decide_eq_true. rewrite HcolsF. apply add_column_elem. by left. }
    rewrite Hex; [|done| | |].
    - eapply Permutation_Forall; [symmetry; by apply skeleton_column|].
      unfold f2. rewrite column_cells_map_rows.
      apply Forall_fmap, Forall_forall. intros r _.
      change (P (cell_of (h2 (h1 r)) c)). rewrite Hh2 by done. apply HP.
    - intros n _. destruct Hc as [->| ->]; apply not_eq_sym; label_neq.
    - destruct Hc as [->| ->]; done.
    - destruct Hc as [->| ->]; done. }
  assert (Hv2 : "precio_venta" ∈ cols2).
  { apply Hcols2. unfold f1. cbn [map_rows columns].
    apply discount_columns_elem. tauto. }
  assert (Hd2 : "descuento_porcentaje" ∈ cols2).
  { apply Hin2. by apply bool_decide_eq_true in Hdesc. }
  destruct (Hcol "precio_venta" is_float) as [HvF HvFl]; [by left|done| |].
  { intros r. unfold cell_of, h1. rewrite discount_row_venta. by eexists. }
  destruct (Hcol "descuento_porcentaje" (λ c, c = Float (Fin d)))
    as [HdF HdFl]; [by right|done| |].
  { intros r. unfold cell_of, h1. by rewrite discount_row_descuento. }
  destruct (metrics_of_values F) as (m & Hm & _ & Hd); try done.
  { apply bool_decide_eq_true. rewrite HcolsF. apply add_column_new. }
  { intros _. eapply Forall_impl; [exact HdFl|]. intros c ->. by eexists. }
  destruct (series_mean_constant d (column_cells F "descuento_porcentaje"))
    as (q & Hq & Hqd); [|done|].
  { intros Hnil. apply (f_equal length) in Hnil.
    unfold column_cells in Hnil. rewrite length_fmap, HlenF, Hlen2 in Hnil.
    cbn in Hnil. by destruct (rows f). }
  exists l, w', m, q. split_and!; [done| | |done].
  - by rewrite (calculate_metrics_run w' l F Hl), Hm.
  - specialize (Hd HdF). rewrite Hq in Hd. by simplify_eq.
Qed.

(** ** Non-negative histories *)
Lemma num_mean_nonneg xs :
  xs ≠ [] → Forall (λ x, nonneg (Float x)) xs → nonneg (Float (num_mean xs)).
Proof.
  intros Hne Hall. unfold num_mean.
  pose proof (num_sum_nonneg xs Hall) as Hsum.
  assert (Hpos : (0 < inject_Z (Z.of_nat (length xs)))%Q).
  { unfold Qlt; cbn. destruct xs; [done|]. cbn [length]. lia. }
  assert (Hcmp : (inject_Z (Z.of_nat (length xs)) ?= 0)%Q = Gt).
  { by apply Qgt_alt. }
  destruct (num_sum xs) as [q|[]|]; cbn in Hsum; try done; cbn [num_div].
  - rewrite Hcmp. cbn. rewrite Qred_correct.
    apply Qmult_le_0_compat; [done|]. apply Qinv_le_0_compat.
    by apply Qlt_le_weak.
  - by rewrite Hcmp.
Qed.

Lemma missing_or_nonneg_float c : missing_or_nonneg c → is_float c.
Proof.
  intros [->|H]; [by eexists|]. apply nonneg_float in H as (x & -> & _).
  by eexists.
Qed.

Lemma known_targets_nonneg S :
  Forall missing_or_nonneg (column_cells S target) →
  Forall (λ x, nonneg (Float x)) (known_targets S).
Proof.
  intros H. unfold known_targets. destruct (has_column S target); [|done].
  induction H as [|c l Hc Hl IH]; [done|].
  cbn [omap list_omap]. destruct (known_value c) as [x|] eqn:Hx; [|done].
  constructor; [|done].
  destruct Hc as [->|Hc]; [done|].
  destruct c as [[| |]| |]; cbn in Hx, Hc |- *; by simplify_eq.
Qed.

Lemma spec_fallback_nonneg S k :
  Forall missing_or_nonneg (column_cells S target) →
  nonneg (spec_fallback S k).
Proof.
  intros H. unfold spec_fallback. cbn zeta.
  assert (Hmean : nonneg (match known_targets S with
                          | [] => zero
                          | _ :: _ => Float (num_mean (known_targets S))
                          end)).
  { pose proof (known_targets_nonneg S H) as Hk.
    destruct (known_targets S) as [|x xs] eqn:E; [cbn; apply Qle_refl|].
    by apply num_mean_nonneg. }
  destruct (known_targets S) as [|x xs] eqn:E.
  - destruct (has_column S target); [|done].
    destruct (column_cells S target !! k) as [v|] eqn:Hv; [|done].
    destruct (notna v) eqn:Hn; [|done].
    apply (proj1 (Forall_lookup _ _) H) in Hv as [->|Hv]; done.
  - destruct (has_column S target); [|done].
    destruct (column_cells S target !! k) as [v|] eqn:Hv; [|done].
    destruct (notna v) eqn:Hn; [|done].
    apply (proj1 (Forall_lookup _ _) H) in Hv as [->|Hv]; done.
Qed.

(** A forecast over a history that is non-negative where known. *)
Lemma forecast_nonneg model fc f S :
  skeleton f = Ok S →
  Forall missing_or_nonneg (column_cells S target) →
  ∃ F evs, forecast model fc f = Ok (F, evs) ∧
           Forall nonneg (column_cells F "predicciones").
Proof.
  intros HS Hnn.
  assert (Hfl : Forall is_float (column_cells S target)).
  { eapply Forall_impl; [exact Hnn|]. apply missing_or_nonneg_float. }
  destruct (forecast_total model fc f S HS Hfl) as (F & evs & HF).
  exists F, evs. split; [done|].
  destruct (forecast_frame _ _ _ _ _ HF) as (S' & s & HS' & Hdays & HP & Hlen & _).
  rewrite HS in HS'. simplify_eq. rewrite HP.
  apply Forall_lookup. intros k p Hp.
  assert (Hk : k < length (rows S')).
  { rewrite <- Hlen. by eapply lookup_lt_Some. }
  destruct (days_at _ _ _ _ _ k Hdays Hk)
    as (sk & ek & p' & e & _ & Hinvk & Hpred & Hp' & _).
  rewrite Hp in Hp'. simplify_eq.
  apply predict_day_inv in Hpred as (rk & _ & Hmodel).
  destruct (model _) as [v|ex].
  - destruct Hmodel as [-> _]. apply py_max0_nonneg.
  - destruct Hmodel as [Hfb _].
    rewrite (run_inv_fallback _ _ _ _ Hinvk), (fallback_value_spec _ _ Hk Hfl) in Hfb.
    simplify_eq. by apply spec_fallback_nonneg.
Qed.

(** X14 — Non-negativity over a non-negative history.  When every
    historical target of the date-sorted input is missing or a
    non-negative number, the run returns whatever the predictor does,
    and every value it records is non-negative: a value the predictor
    gave is clamped, and a fallback value is a historical target, the
    mean of the known ones, or 0. *)
Theorem forecast_is_nonnegative_over_nonnegative_history (w : world) (df : loc)
    (f S : DataFrame) (model : Model) (fc : list string) (d adj : Q) :
  heap w !! df = Some f →
  skeleton f = Ok S →
  Forall missing_or_nonneg (column_cells S "unidades_vendidas") →
  ∃ l w' F,
    simulate_recursive_predictions df model fc d adj w = (Ok l, w') ∧
    heap w' !! l = Some F ∧
    length (column_cells F "predicciones") = length (rows f) ∧
    Forall nonneg (column_cells F "predicciones").
Proof.
  intros Hdf HS Hnn.
  destruct (forecast_nonneg model fc f S HS Hnn) as (F & evs & HF & HFnn).
  pose proof (simulate_returns w df f model fc d adj Hdf) as Hret.
  rewrite HF in Hret. destruct Hret as (l & w' & Hrun & Hl & Hext).
  exists l, w', F. split_and!; try done.
  destruct (forecast_shape _ _ _ _ _ HF) as (_ & _ & _ & Hlen & _).
  unfold column_cells. by rewrite length_fmap.
Qed.

(** X15 — A fallback that is not a number.  The [try] of the day loop
    covers the prediction only.  When the predictor raises on the first
    of at least two days and that day's historical target is text, the
    fallback records the text, and [update_lags] then raises
    [TypeError] from [np.mean]: the run raises it and returns no frame. *)
Theorem text_fallback_aborts_the_run (w : world) (df : loc) (f S : DataFrame)
    (model : Model) (fc : list string) (d adj : Q)
    (r0 : Series) (s : string) (e : exn) :
  heap w !! df = Some f →
  skeleton f = Ok S →
  has_column S "unidades_vendidas" = true →
  1 < length (rows S) →
  rows S !! 0 = Some r0 →
  r0 !! "unidades_vendidas" = Some (Str s) →
  model (resolve {| columns := columns S; rows := [r0] |} fc) = Raise e →
  ∃ w',
    simulate_recursive_predictions df model fc d adj w = (Raise TypeError, w') ∧
    (∀ l g, heap w !! l = Some g → heap w' !! l = Some g).
Proof.
  intros Hdf HS Hc Hlen Hr0 Hs Hm.
  pose proof (simulate_returns w df f model fc d adj Hdf) as Hret.
  assert (HF : forecast model fc f = Raise TypeError).
  { unfold forecast. rewrite HS, bind_Ok.
    destruct (rows S) as [|x [|y rs]] eqn:Hrows; cbn in Hlen; try lia.
    cbn in Hr0. simplify_eq.
    cbn [length seq days]. unfold day at 1. unfold predict_day.
    cbn [rs_frame rs_predictions rs_lag_history].
    rewrite (iloc_rows_one S 0 r0) by (by rewrite Hrows).
    rewrite bind_Ok, Hm.
    assert (Hfb : fallback_value S 0 = Ok (Str s)).
    { assert (Hcell : cell_of r0 "unidades_vendidas" = Str s)
        by (unfold cell_of; by rewrite Hs).
      unfold fallback_value. rewrite Hc, get_column_cells, Hc, bind_Ok.
      rewrite loc_cell_cells, Hc. unfold column_cells. rewrite Hrows.
      cbn [fmap list_fmap existsb lookup list_lookup].
      rewrite Hcell. cbn [notna orb]. rewrite bind_Ok. by cbn [notna]. }
    rewrite Hfb, !bind_Ok. cbn beta iota.
    rewrite Hrows. cbn [length Nat.sub]. rewrite bool_decide_eq_true_2 by lia.
    unfold loc_row. rewrite Hrows. cbn [Nat.add lookup list_lookup].
    rewrite bind_Ok. unfold update_lags. cbn zeta.
    cbn [app length]. rewrite bool_decide_eq_false_2 by lia.
    unfold np_mean, as_floats. cbn [traverse as_float]. by rewrite !bind_Raise. }
  rewrite HF in Hret. destruct Hret as (w' & evs & Hrun & Hext).
  exists w'. split; [done|]. intros l g. by eapply extends_lookup.
Qed.

(** ** The further properties at sample inputs *)
(** The forecast of [two_days] with a predictor that answers 1: its shape. *)
Lemma forecast_keeps_days_and_exogenous_columns_witness :
  let w := one_frame_world two_days in
  let df := 0 in
  let f := two_days in
  let model := constant_model 1 in
  let fc := lag_features in
  let d := 0%Q in
  let adj := 0%Q in
  let l := 3 in
  let w' := (simulate_recursive_predictions 0 (constant_model 1) lag_features 0 0 (one_frame_world two_days)).2 in
  (heap w !! df = Some f) ∧
  (simulate_recursive_predictions df model fc d adj w = (Ok l, w')) ∧
  ∃ S F,
    skeleton f = Ok S ∧ heap w' !! l = Some F ∧
    rows S ≡ₚ rows f ∧
    StronglySorted date_le (rows S) ∧
    columns F = add_column (columns f) "predicciones" ∧
    length (rows F) = length (rows f) ∧
    (∀ c, c ∈ columns f → (∀ n, 1 ≤ n ≤ 7 → c ≠ lag_col n) →
          c ≠ "unidades_vendidas_ma7" → c ≠ "predicciones" →
          column_cells F c = column_cells S c) ∧
    (∀ r0, rows S !! 0 = Some r0 →
           ∃ p, rows F !! 0 = Some (<["predicciones" := p]> r0)).
Proof.
  intros w df f model fc d adj l w'.
  assert (H1 : heap w !! df = Some f).
  { reflexivity. }
  assert (H2 : simulate_recursive_predictions df model fc d adj w = (Ok l, w')).
  { vm_compute; reflexivity. }
  split; [exact H1|].
  split; [exact H2|].
  exact (forecast_keeps_days_and_exogenous_columns w df f model fc d adj l w' H1 H2).
Defined.

(** [priced_day] has no [fecha] column. *)
Lemma forecast_without_dates_raises_witness :
  let w := one_frame_world priced_day in
  let df := 0 in
  let f := priced_day in
  let model := constant_model 1 in
  let fc := lag_features in
  let d := 0%Q in
  let adj := 0%Q in
  (heap w !! df = Some f) ∧
  (has_column f "fecha" = false) ∧
  ∃ w',
    simulate_recursive_predictions df model fc d adj w
      = (Raise (KeyError "fecha"), w') ∧
    heap w' = heap w ++ [f] ∧ page w' = page w ∧ session w' = session w.
Proof.
  intros w df f model fc d adj.
  assert (H1 : heap w !! df = Some f).
  { reflexivity. }
  assert (H2 : has_column f "fecha" = false).
  { reflexivity. }
  split; [exact H1|].
  split; [exact H2|].
  exact (forecast_without_dates_raises w df f model fc d adj H1 H2).
Defined.

(** The forecast of [no_days]. *)
Lemma forecast_of_no_days_witness :
  let w := one_frame_world no_days in
  let df := 0 in
  let f := no_days in
  let model := failing_model in
  let fc := lag_features in
  let d := 0%Q in
  let adj := 0%Q in
  (heap w !! df = Some f) ∧
  (has_column f "fecha" = true) ∧
  (rows f = []) ∧
  ∃ l w',
    simulate_recursive_predictions df model fc d adj w = (Ok l, w') ∧
    heap w' !! l =
      Some {| columns := add_column (columns f) "predicciones"; rows := [] |} ∧
    (∀ l0 g, heap w !! l0 = Some g → heap w' !! l0 = Some g) ∧
    page w' = page w ∧ session w' = session w.
Proof.
  intros w df f model fc d adj.
  assert (H1 : heap w !! df = Some f).
  { reflexivity. }
  assert (H2 : has_column f "fecha" = true).
  { reflexivity. }
  assert (H3 : rows f = []).
  { reflexivity. }
  split; [exact H1|].
  split; [exact H2|].
  split; [exact H3|].
  exact (forecast_of_no_days w df f model fc d adj H1 H2 H3).
Defined.

(** The forecast of [two_days] with a predictor that answers −1. *)
Lemma answered_forecast_is_silent_and_nonnegative_witness :
  let w := one_frame_world two_days in
  let df := 0 in
  let f := two_days in
  let S := two_days_sorted in
  let model := constant_model (-1) in
  let fc := lag_features in
  let d := 0%Q in
  let adj := 0%Q in
  (heap w !! df = Some f) ∧
  (skeleton f = Ok S) ∧
  ((∀ X e, model X ≠ Raise e)) ∧
  ∃ l w' F,
    simulate_recursive_predictions df model fc d adj w = (Ok l, w') ∧
    heap w' !! l = Some F ∧
    page w' = page w ∧
    length (column_cells F "predicciones") = length (rows f) ∧
    Forall nonneg (column_cells F "predicciones").
Proof.
  intros w df f S model fc d adj.
  assert (H1 : heap w !! df = Some f).
  { reflexivity. }
  assert (H2 : skeleton f = Ok S).
  { vm_compute; reflexivity. }
  assert (H3 : (∀ X e, model X ≠ Raise e)).
  { intros X e H. discriminate H. }
  split; [exact H1|].
  split; [exact H2|].
  split; [exact H3|].
  exact (answered_forecast_is_silent_and_nonnegative w df f S model fc d adj H1 H2 H3).
Defined.

(** The warnings of the forecast of [two_days] with a predictor that
    always raises. *)
Lemma warnings_are_the_failing_days_witness :
  let w := one_frame_world two_days in
  let df := 0 in
  let f := two_days in
  let model := failing_model in
  let fc := lag_features in
  let d := 0%Q in
  let adj := 0%Q in
  let l := 3 in
  let w' := (simulate_recursive_predictions 0 failing_model lag_features 0 0 (one_frame_world two_days)).2 in
  (heap w !! df = Some f) ∧
  (simulate_recursive_predictions df model fc d adj w = (Ok l, w')) ∧
  ∃ S,
    skeleton f = Ok S ∧
    page w' = page w ++ warnings_of model fc S ∧
    length (warnings_of model fc S) ≤ length (rows f) ∧
    (∀ k e, StWarning (PredictionErrorAtDay (k + 1) e) ∈ warnings_of model fc S ↔
            k < length (rows f) ∧ failure_at model fc S k = Some e).
Proof.
  intros w df f model fc d adj l w'.
  assert (H1 : heap w !! df = Some f).
  { reflexivity. }
  assert (H2 : simulate_recursive_predictions df model fc d adj w = (Ok l, w')).
  { vm_compute; reflexivity. }
  split; [exact H1|].
  split; [exact H2|].
  exact (warnings_are_the_failing_days w df f model fc d adj l w' H1 H2).
Defined.

(** The product "Widget" of [shop_days], discounted by 20 with the
    competitors 5% cheaper. *)
Lemma simulate_button_stores_the_forecast_witness :
  let w := one_frame_world shop_days in
  let df_inference := 0 in
  let f := shop_days in
  let selected_product := "Widget" in
  let model := constant_model 1 in
  let fc := lag_features in
  let discount_slider := 20%Z in
  let scenario := CompetitorsMinus5 in
  (heap w !! df_inference = Some f) ∧
  (has_column f "nombre" = true) ∧
  (rows (product_rows f selected_product) ≠ []) ∧
  match scenario_forecast model fc discount_slider
          (scenario_adjustment_of scenario) (product_rows f selected_product) with
  | Ok (F, evs) =>
      ∃ l w',
        simulate_button_branch df_inference selected_product model fc
          discount_slider scenario w = (Ok (), w') ∧
        session w' = Some {| ss_df_sim := l;
                             ss_selected_product := selected_product;
                             ss_discount := discount_slider;
                             ss_scenario := scenario |} ∧
        heap w' !! l = Some F ∧
        page w' = page w ++ evs ∧
        (∀ l0 g, heap w !! l0 = Some g → heap w' !! l0 = Some g)
  | Raise e =>
      ∃ w' evs,
        simulate_button_branch df_inference selected_product model fc
          discount_slider scenario w = (Raise e, w') ∧
        session w' = session w ∧
        page w' = page w ++ evs ∧
        (∀ l0 g, heap w !! l0 = Some g → heap w' !! l0 = Some g)
  end.
Proof.
  intros w df_inference f selected_product model fc discount_slider scenario.
  assert (H1 : heap w !! df_inference = Some f).
  { reflexivity. }
  assert (H2 : has_column f "nombre" = true).
  { reflexivity. }
  assert (H3 : rows (product_rows f selected_product) ≠ []).
  { intros H. apply (f_equal length) in H. vm_compute in H. discriminate H. }
  split; [exact H1|].
  split; [exact H2|].
  split; [exact H3|].
  exact (simulate_button_stores_the_forecast w df_inference f selected_product model fc discount_slider scenario H1 H2 H3).
Defined.

(** The competitors of [shop_days] 5% cheaper. *)
Lemma apply_competition_transform_witness :
  let w := one_frame_world shop_days in
  let df := 0 in
  let f := shop_days in
  let adj := (-5)%Q in
  (heap w !! df = Some f) ∧
  (¬ (adj == 0)%Q) ∧
  ((∀ c, c ∈ competition_inputs → has_column f c = true →
    Forall is_float (column_cells f c))) ∧
  ∃ df' f' w',
    apply_competition_scenario df adj w = (Ok df', w') ∧
    heap w' !! df' = Some f' ∧
    (∀ l g, heap w !! l = Some g → heap w' !! l = Some g) ∧
    length (rows f') = length (rows f) ∧
    ∀ i r, rows f !! i = Some r →
      ∃ r', rows f' !! i = Some r' ∧
        let k := Fin (1 + adj / 100) in
        let comp := num_mul (float_of (cell_of r "precio_competencia")) k in
        (has_column f "precio_competencia" = true →
         r' !! "precio_competencia" = Some (Float comp)) ∧
        (has_column f "precio_competencia" = true →
         has_column f "precio_venta" = true →
         r' !! "ratio_precio" =
         Some (Float (num_div (float_of (cell_of r "precio_venta")) comp))) ∧
        (∀ c, c ∈ comp_cols → has_column f c = true →
              r' !! c = Some (Float (num_mul (float_of (cell_of r c)) k))) ∧
        (∀ c, (has_column f "precio_competencia" = true →
               c ≠ "precio_competencia") →
              (has_column f "precio_competencia" = true →
               has_column f "precio_venta" = true → c ≠ "ratio_precio") →
              (∀ c', c' ∈ comp_cols → has_column f c' = true → c ≠ c') →
              r' !! c = r !! c).
Proof.
  intros w df f adj.
  assert (H1 : heap w !! df = Some f).
  { reflexivity. }
  assert (H2 : ¬ (adj == 0)%Q).
  { intros H. vm_compute in H. discriminate H. }
  assert (H3 : (∀ c, c ∈ competition_inputs → has_column f c = true →
      Forall is_float (column_cells f c))).
  { intros c Hc _. unfold competition_inputs in Hc.
    rewrite !elem_of_cons, elem_of_nil in Hc.
    destruct Hc as [ -> | [ -> | [ -> | [ -> | [ -> | [] ] ] ] ] ];
      repeat constructor; eexists; reflexivity. }
  split; [exact H1|].
  split; [exact H2|].
  split; [exact H3|].
  exact (apply_competition_transform w df f adj H1 H2 H3).
Defined.

(** The competitors of [shop_days] 5% cheaper and then 5% dearer. *)
Lemma competition_adjustments_compound_witness :
  let w := one_frame_world shop_days in
  let df := 0 in
  let f := shop_days in
  let a := (-5)%Q in
  let b := 5%Q in
  (heap w !! df = Some f) ∧
  (¬ (a == 0)%Q) ∧
  (¬ (b == 0)%Q) ∧
  ((∀ c, c ∈ competition_inputs → has_column f c = true →
    Forall is_float (column_cells f c))) ∧
  ∃ l1 w1 l2 w2 f2,
    apply_competition_scenario df a w = (Ok l1, w1) ∧
    apply_competition_scenario l1 b w1 = (Ok l2, w2) ∧
    heap w2 !! l2 = Some f2 ∧
    heap w2 !! df = Some f ∧
    ∀ i r, rows f !! i = Some r →
      ∃ r2, rows f2 !! i = Some r2 ∧
        let ka := Fin (1 + a / 100) in
        let kb := Fin (1 + b / 100) in
        let comp :=
          num_mul (num_mul (float_of (cell_of r "precio_competencia")) ka) kb in
        (has_column f "precio_competencia" = true →
         r2 !! "precio_competencia" = Some (Float comp)) ∧
        (has_column f "precio_competencia" = true →
         has_column f "precio_venta" = true →
         r2 !! "ratio_precio" =
         Some (Float (num_div (float_of (cell_of r "precio_venta")) comp))) ∧
        (∀ c, c ∈ comp_cols → has_column f c = true →
              r2 !! c =
              Some (Float (num_mul (num_mul (float_of (cell_of r c)) ka) kb))).
Proof.
  intros w df f a b.
  assert (H1 : heap w !! df = Some f).
  { reflexivity. }
  assert (H2 : ¬ (a == 0)%Q).
  { intros H. vm_compute in H. discriminate H. }
  assert (H3 : ¬ (b == 0)%Q).
  { intros H. vm_compute in H. discriminate H. }
  assert (H4 : (∀ c, c ∈ competition_inputs → has_column f c = true →
      Forall is_float (column_cells f c))).
  { intros c Hc _. unfold competition_inputs in Hc.
    rewrite !elem_of_cons, elem_of_nil in Hc.
    destruct Hc as [ -> | [ -> | [ -> | [ -> | [ -> | [] ] ] ] ] ];
      repeat constructor; eexists; reflexivity. }
  split; [exact H1|].
  split; [exact H2|].
  split; [exact H3|].
  split; [exact H4|].
  exact (competition_adjustments_compound w df f a b H1 H2 H3 H4).
Defined.

(** [shop_days] discounted by 20 and then by 10. *)
Lemma discount_replaces_an_earlier_discount_witness :
  let w := one_frame_world shop_days in
  let df := 0 in
  let f := shop_days in
  let d1 := 20%Q in
  let d2 := 10%Q in
  (heap w !! df = Some f) ∧
  (Forall is_float (column_cells f "precio_base")) ∧
  (Forall is_float (column_cells f "precio_competencia")) ∧
  ∃ l1 w1 l2 w2 l w' F,
    apply_discount_to_dataframe df d1 w = (Ok l1, w1) ∧
    apply_discount_to_dataframe l1 d2 w1 = (Ok l2, w2) ∧
    apply_discount_to_dataframe df d2 w = (Ok l, w') ∧
    heap w2 !! l2 = Some F ∧ heap w' !! l = Some F.
Proof.
  intros w df f d1 d2.
  assert (H1 : heap w !! df = Some f).
  { reflexivity. }
  assert (H2 : Forall is_float (column_cells f "precio_base")).
  { repeat constructor; eexists; reflexivity. }
  assert (H3 : Forall is_float (column_cells f "precio_competencia")).
  { repeat constructor; eexists; reflexivity. }
  split; [exact H1|].
  split; [exact H2|].
  split; [exact H3|].
  exact (discount_replaces_an_earlier_discount w df f d1 d2 H1 H2 H3).
Defined.

(** [shop_days] has not been forecast. *)
Lemma calculate_metrics_needs_both_columns_witness :
  let w := one_frame_world shop_days in
  let l := 0 in
  let F := shop_days in
  (heap w !! l = Some F) ∧
  (has_column F "predicciones" = false →
   calculate_metrics l w = (Raise (KeyError "predicciones"), w)) ∧
  (has_column F "predicciones" = true →
   Forall is_float (column_cells F "predicciones") →
   has_column F "precio_venta" = false →
   calculate_metrics l w = (Raise (KeyError "precio_venta"), w)) ∧
  (calculate_metrics l w).2 = w.
Proof.
  intros w l F.
  assert (H1 : heap w !! l = Some F).
  { reflexivity. }
  split; [exact H1|].
  exact (calculate_metrics_needs_both_columns w l F H1).
Defined.

(** The metrics of the forecast of [shop_days] with a predictor that
    answers 2. *)
Lemma metrics_of_an_answered_forecast_witness :
  let w := one_frame_world shop_days in
  let df := 0 in
  let f := shop_days in
  let S := shop_days in
  let model := constant_model 2 in
  let fc := lag_features in
  let d := 0%Q in
  let adj := 0%Q in
  (heap w !! df = Some f) ∧
  (skeleton f = Ok S) ∧
  ((∀ X e, model X ≠ Raise e)) ∧
  ∃ l w' F,
    simulate_recursive_predictions df model fc d adj w = (Ok l, w') ∧
    heap w' !! l = Some F ∧
    (has_column f "precio_venta" = false →
     calculate_metrics l w' = (Raise (KeyError "precio_venta"), w')) ∧
    (has_column f "precio_venta" = true →
     Forall is_float (column_cells f "precio_venta") →
     (has_column f "descuento_porcentaje" = true →
      Forall is_float (column_cells f "descuento_porcentaje")) →
     ∃ m,
       calculate_metrics l w' = (Ok m, w') ∧
       total_units m = num_sum (float_of <$> column_cells F "predicciones") ∧
       nonneg (Float (total_units m)) ∧
       (has_column f "descuento_porcentaje" = false → avg_discount m = Fin 0)).
Proof.
  intros w df f S model fc d adj.
  assert (H1 : heap w !! df = Some f).
  { reflexivity. }
  assert (H2 : skeleton f = Ok S).
  { vm_compute; reflexivity. }
  assert (H3 : (∀ X e, model X ≠ Raise e)).
  { intros X e H. discriminate H. }
  split; [exact H1|].
  split; [exact H2|].
  split; [exact H3|].
  exact (metrics_of_an_answered_forecast w df f S model fc d adj H1 H2 H3).
Defined.

(** The metrics of [no_days_forecast]. *)
Lemma calculate_metrics_of_no_days_witness :
  let w := one_frame_world no_days_forecast in
  let l := 0 in
  let F := no_days_forecast in
  (heap w !! l = Some F) ∧
  (rows F = []) ∧
  (has_column F "predicciones" = true) ∧
  (has_column F "precio_venta" = true) ∧
  calculate_metrics l w =
  (Ok {| total_units := Fin 0;
         total_revenue := Fin 0;
         avg_price := NaN;
         avg_discount :=
           if has_column F "descuento_porcentaje" then NaN else Fin 0 |}, w).
Proof.
  intros w l F.
  assert (H1 : heap w !! l = Some F).
  { reflexivity. }
  assert (H2 : rows F = []).
  { reflexivity. }
  assert (H3 : has_column F "predicciones" = true).
  { reflexivity. }
  assert (H4 : has_column F "precio_venta" = true).
  { reflexivity. }
  split; [exact H1|].
  split; [exact H2|].
  split; [exact H3|].
  split; [exact H4|].
  exact (calculate_metrics_of_no_days w l F H1 H2 H3 H4).
Defined.

(** The average discount of [shop_days], discounted by 20 with the
    competitors 5% dearer. *)
Lemma scenario_average_discount_is_the_slider_witness :
  let w := one_frame_world shop_days in
  let df := 0 in
  let f := shop_days in
  let S := shop_days in
  let model := constant_model 2 in
  let fc := lag_features in
  let discount_slider := 20%Z in
  let adjustment := 5%Q in
  (heap w !! df = Some f) ∧
  (skeleton f = Ok S) ∧
  (rows f ≠ []) ∧
  (has_column f "precio_base" = true) ∧
  (has_column f "descuento_porcentaje" = true) ∧
  ((∀ c, c ∈ price_inputs → has_column f c = true →
    Forall is_float (column_cells f c))) ∧
  ((∀ X e, model X ≠ Raise e)) ∧
  ∃ l w' m q,
    simulate_scenario df model fc discount_slider adjustment w = (Ok l, w') ∧
    calculate_metrics l w' = (Ok m, w') ∧
    avg_discount m = Fin q ∧ (q == inject_Z discount_slider)%Q.
Proof.
  intros w df f S model fc discount_slider adjustment.
  assert (H1 : heap w !! df = Some f).
  { reflexivity. }
  assert (H2 : skeleton f = Ok S).
  { vm_compute; reflexivity. }
  assert (H3 : rows f ≠ []).
  { discriminate. }
  assert (H4 : has_column f "precio_base" = true).
  { reflexivity. }
  assert (H5 : has_column f "descuento_porcentaje" = true).
  { reflexivity. }
  assert (H6 : (∀ c, c ∈ price_inputs → has_column f c = true →
      Forall is_float (column_cells f c))).
  { intros c Hc _. unfold price_inputs in Hc.
    rewrite !elem_of_cons, elem_of_nil in Hc.
    destruct Hc as [ -> | [ -> | [ -> | [ -> | [ -> | [] ] ] ] ] ];
      repeat constructor; eexists; reflexivity. }
  assert (H7 : (∀ X e, model X ≠ Raise e)).
  { intros X e H. discriminate H. }
  split; [exact H1|].
  split; [exact H2|].
  split; [exact H3|].
  split; [exact H4|].
  split; [exact H5|].
  split; [exact H6|].
  split; [exact H7|].
  exact (scenario_average_discount_is_the_slider w df f S model fc discount_slider adjustment H1 H2 H3 H4 H5 H6 H7).
Defined.

(** The forecast of [text_days] with a predictor that always raises. *)
Lemma text_fallback_aborts_the_run_witness :
  let w := one_frame_world text_days in
  let df := 0 in
  let f := text_days in
  let S := text_days in
  let model := failing_model in
  let fc := lag_features in
  let d := 0%Q in
  let adj := 0%Q in
  let r0 := text_day in
  let s := "n/a" in
  let e := Exception "predict failed" in
  (heap w !! df = Some f) ∧
  (skeleton f = Ok S) ∧
  (has_column S "unidades_vendidas" = true) ∧
  (1 < length (rows S)) ∧
  (rows S !! 0 = Some r0) ∧
  (r0 !! "unidades_vendidas" = Some (Str s)) ∧
  (model (resolve {| columns := columns S; rows := [r0] |} fc) = Raise e) ∧
  ∃ w',
    simulate_recursive_predictions df model fc d adj w = (Raise TypeError, w') ∧
    (∀ l g, heap w !! l = Some g → heap w' !! l = Some g).
Proof.
  intros w df f S model fc d adj r0 s e.
  assert (H1 : heap w !! df = Some f).
  { reflexivity. }
  assert (H2 : skeleton f = Ok S).
  { vm_compute; reflexivity. }
  assert (H3 : has_column S "unidades_vendidas" = true).
  { reflexivity. }
  assert (H4 : 1 < length (rows S)).
  { cbn; lia. }
  assert (H5 : rows S !! 0 = Some r0).
  { reflexivity. }
  assert (H6 : r0 !! "unidades_vendidas" = Some (Str s)).
  { reflexivity. }
  assert (H7 : model (resolve {| columns := columns S; rows := [r0] |} fc) = Raise e).
  { reflexivity. }
  split; [exact H1|].
  split; [exact H2|].
  split; [exact H3|].
  split; [exact H4|].
  split; [exact H5|].
  split; [exact H6|].
  split; [exact H7|].
  exact (text_fallback_aborts_the_run w df f S model fc d adj r0 s e H1 H2 H3 H4 H5 H6 H7).
Defined.

(** The forecast of [sold_days] with a predictor that always raises. *)
Lemma forecast_is_nonnegative_over_nonnegative_history_witness :
  let w := one_frame_world sold_days in
  let df := 0 in
  let f := sold_days in
  let S := sold_days in
  let model := failing_model in
  let fc := lag_features in
  let d := 0%Q in
  let adj := 0%Q in
  (heap w !! df = Some f) ∧
  (skeleton f = Ok S) ∧
  (Forall missing_or_nonneg (column_cells S "unidades_vendidas")) ∧
  ∃ l w' F,
    simulate_recursive_predictions df model fc d adj w = (Ok l, w') ∧
    heap w' !! l = Some F ∧
    length (column_cells F "predicciones") = length (rows f) ∧
    Forall nonneg (column_cells F "predicciones").
Proof.
  intros w df f S model fc d adj.
  assert (H1 : heap w !! df = Some f).
  { reflexivity. }
  assert (H2 : skeleton f = Ok S).
  { vm_compute; reflexivity. }
  assert (H3 : Forall missing_or_nonneg (column_cells S "unidades_vendidas")).
  { unfold column_cells, S, sold_days. cbn [rows fmap list_fmap].
    repeat (constructor;
      [first [left; reflexivity | right; vm_compute; discriminate]|]).
    constructor. }
  split; [exact H1|].
  split; [exact H2|].
  split; [exact H3|].
  exact (forecast_is_nonnegative_over_nonnegative_history w df f S model fc d adj H1 H2 H3).
Defined.
